(** * Audio transcriber: orchestration of conversion, segmentation,
      recognition and persistence

    A shallow embedding of [audio_transcriber.py] (the command-line flow,
    module [Cli]) and [audio_transcriber_gui.py] (the desktop flow, module
    [Gui]).

    The programs own no algorithm: every interesting step is a call into an
    external collaborator (pydub, speech_recognition, ffmpeg, the file
    system, the clock).  The embedding therefore keeps the control flow of
    the Python functions and treats each external call as a question put to
    an environment [Env].  An environment answers from the complete history
    of the run so far, so a call may answer differently each time it is
    made; every question is recorded, with its answer, in the run's trace.
    Properties are stated on results and traces and hold for every
    environment.

    Modelling conventions:
    - a Python exception is a value of [exn]; every constructor stands for a
      subclass of [Exception] (asynchronous [BaseException]s such as
      [KeyboardInterrupt] are outside the model);
    - [try: ... except ...] is [try_except]; a handler that does not match
      re-raises;
    - in-memory operations of pydub ([len], slicing, [+],
      [AudioSegment.silent]) and [sr.Recognizer()] are total functions;
      decoding, exporting, silence detection, recognition, file and process
      operations may raise;
    - text is a string of code points below 256; an [AudioSegment] is the
      list of its millisecond frames;
    - [print] and the GUI's [status_callback] append to the trace and do not
      raise; the clock is read in whole seconds. *)

From Stdlib Require Import String Ascii List ZArith Lia Bool Arith DecimalString.
Import ListNotations.
Set Warnings "-abstract-large-number".
Local Open Scope list_scope.
Local Open Scope string_scope.

(** ** Strings and paths *)

Abbreviation path := string (only parsing).

(** [str.endswith]: some tail of [s] is [suffix]. *)
Fixpoint endswith (s suffix : string) : bool :=
  if String.eqb s suffix then true
  else match s with
       | EmptyString => false
       | String _ rest => endswith rest suffix
       end.

Definition startswith (s pre : string) : bool := String.prefix pre s.

(** [str(n)] for the integers that appear in file names and messages. *)
Definition show_nat (n : nat) : string := NilEmpty.string_of_uint (Nat.to_uint n).
Definition show_Z (z : Z) : string := NilZero.string_of_int (Z.to_int z).

Definition nl : string := String (ascii_of_nat 10) EmptyString.

(** [str.rfind] for a one-character needle, [-1] when absent. *)
Fixpoint rfind_from (c : ascii) (s : string) (i last : Z) : Z :=
  match s with
  | EmptyString => last
  | String a rest => rfind_from c rest (i + 1) (if Ascii.eqb a c then i else last)
  end.

Definition rfind (c : ascii) (s : string) : Z := rfind_from c s 0 (-1).

Fixpoint str_drop (n : nat) (s : string) : string :=
  match n, s with
  | O, _ => s
  | S n', EmptyString => EmptyString
  | S n', String _ rest => str_drop n' rest
  end.

Fixpoint str_take (n : nat) (s : string) : string :=
  match n, s with
  | O, _ => EmptyString
  | S n', EmptyString => EmptyString
  | S n', String a rest => String a (str_take n' rest)
  end.

(** [posixpath.basename]: [i = p.rfind('/') + 1; return p[i:]]. *)
Definition basename (p : path) : string :=
  str_drop (Z.to_nat (rfind "/" p + 1)) p.

Fixpoint all_dots (s : string) : bool :=
  match s with
  | EmptyString => true
  | String a rest => Ascii.eqb a "." && all_dots rest
  end.

(** [posixpath.splitext] ([genericpath._splitext] with separator [/]): the
    extension starts at the last dot, unless that dot comes before the last
    separator or only dots stand between the separator and it. *)
Definition splitext (p : path) : string * string :=
  let sepIndex := rfind "/" p in
  let dotIndex := rfind "." p in
  if (sepIndex <? dotIndex)%Z then
    let filenameIndex := Z.to_nat (sepIndex + 1) in
    let d := Z.to_nat dotIndex in
    if all_dots (str_take (d - filenameIndex) (str_drop filenameIndex p))
    then (p, EmptyString)
    else (str_take d p, str_drop d p)
  else (p, EmptyString).

(** [posixpath.join] of two components. *)
Definition path_join (a b : path) : path :=
  if startswith b "/" then b
  else if String.eqb a EmptyString || endswith a "/" then a ++ b
  else a ++ "/" ++ b.

Definition lower_ascii (c : ascii) : ascii :=
  let n := nat_of_ascii c in
  if ((65 <=? n) && (n <=? 90))%nat then ascii_of_nat (n + 32) else c.

Fixpoint lower (s : string) : string :=
  match s with
  | EmptyString => EmptyString
  | String a rest => String (lower_ascii a) (lower rest)
  end.

(** [str.isspace] on code points below 256. *)
Definition is_space (c : ascii) : bool :=
  let n := nat_of_ascii c in
  (((9 <=? n) && (n <=? 13)) || ((28 <=? n) && (n <=? 32))
   || (n =? 133) || (n =? 160))%nat.

Fixpoint lstrip (s : string) : string :=
  match s with
  | EmptyString => EmptyString
  | String a rest => if is_space a then lstrip rest else s
  end.

Fixpoint rstrip (s : string) : string :=
  match s with
  | EmptyString => EmptyString
  | String a rest =>
      match rstrip rest with
      | EmptyString => if is_space a then EmptyString else String a EmptyString
      | r => String a r
      end
  end.

(** [str.strip()] *)
Definition strip (s : string) : string := lstrip (rstrip s).

(** Python truthiness of a string and of an optional string. *)
Definition truthy (s : string) : bool := negb (String.eqb s EmptyString).

Definition truthy_opt (o : option string) : bool :=
  match o with
  | Some s => truthy s
  | None => false
  end.

(** ** Audio in memory *)

(** One entry per millisecond, as pydub indexes an [AudioSegment]. *)
Definition AudioSegment := list Z.

(** [sound[i:j]] for [0 <= i]: the end is clipped to the length. *)
Definition slice (sound : AudioSegment) (i j : nat) : AudioSegment :=
  firstn (j - i) (skipn i sound).

(** [AudioSegment.silent(duration=d)] *)
Definition silent (d : nat) : AudioSegment := repeat 0%Z d.

(** [range(start, stop, step)] for a positive step; [fuel] bounds the number
    of elements. *)
Fixpoint range_step (fuel start stop step : nat) : list nat :=
  match fuel with
  | O => []
  | S fuel' =>
      if (start <? stop)%nat then start :: range_step fuel' (start + step) stop step
      else []
  end.

Definition py_range (start stop step : nat) : list nat :=
  range_step stop start stop step.

Definition chunk_length_ms : nat := 30000.

(** [[sound[i:i+w] for i in range(0, len(sound), w)]] *)
Definition fixed_length_chunks (sound : AudioSegment) (w : nat) : list AudioSegment :=
  map (fun i => slice sound i (i + w)) (py_range 0 (length sound) w).

(** A recognizer with the two settings the program assigns; the pause
    threshold is held in milliseconds (0.8 s is 800). *)
Record Recognizer := {
  energy_threshold : Z;
  pause_threshold_ms : Z
}.

Definition AudioData := AudioSegment.

(** ** Exceptions, events and environments *)

Inductive exn :=
| UnknownValueError (what : string)
| RequestError (what : string)
| ImportError (what : string)
| AttributeError (what : string)
| OtherException (what : string).

(** [str(e)] *)
Definition str (e : exn) : string :=
  match e with
  | UnknownValueError m | RequestError m | ImportError m
  | AttributeError m | OtherException m => m
  end.

Inductive result (A : Type) :=
| Ok (a : A)
| Raise (e : exn).

Arguments Ok {A} a.
Arguments Raise {A} e.

(** One event per external interaction, with the answer it received. *)
Inductive event :=
| EvPrint (s : string)
| EvStatus (s : string)
| EvTraceback (e : exn)
| EvTime (t : Z)
| EvPlatform (s : string)
| EvIsdir (p : path) (b : bool)
| EvIsfile (p : path) (b : bool)
| EvGlob (pattern : string) (found : list path)
| EvExists (p : path) (b : bool)
| EvGetsize (p : path) (r : result nat)
| EvFromFile (p : path) (r : result AudioSegment)
| EvFromWav (p : path) (r : result AudioSegment)
| EvExport (a : AudioSegment) (p : path) (r : result unit)
| EvFfmpeg (src dst : path) (r : result unit)
| EvRename (src dst : path) (r : result unit)
| EvRemove (p : path) (r : result unit)
| EvSplit (sound : AudioSegment) (min_silence_len silence_thresh : Z)
          (r : result (list AudioSegment))
| EvRecord (p : path) (r : result AudioData)
| EvRecognizeGoogle (rec : Recognizer) (d : AudioData) (r : result string)
| EvRecognizeSphinx (rec : Recognizer) (d : AudioData) (r : result string)
| EvWriteFile (p : path) (content : string) (r : result unit)
| EvCopy (src dst : path) (r : result unit).

Definition history := list event.

(** The external collaborators.  Silence detection is a computation on the
    segment in memory: it does not depend on the history, but it may raise.
    The home directory is fixed for the process. *)
Record Env := {
  env_time : history -> Z;
  env_platform : history -> string;
  env_home : string;
  env_isdir : history -> path -> bool;
  env_isfile : history -> path -> bool;
  env_glob : history -> string -> list path;
  env_exists : history -> path -> bool;
  env_getsize : history -> path -> result nat;
  env_from_file : history -> path -> result AudioSegment;
  env_from_wav : history -> path -> result AudioSegment;
  env_export : history -> AudioSegment -> path -> result unit;
  env_ffmpeg : history -> path -> path -> result unit;
  env_rename : history -> path -> path -> result unit;
  env_remove : history -> path -> result unit;
  env_split_on_silence : AudioSegment -> Z -> Z -> result (list AudioSegment);
  env_record : history -> path -> result AudioData;
  env_recognize_google : history -> Recognizer -> AudioData -> result string;
  env_recognize_sphinx : history -> Recognizer -> AudioData -> result string;
  env_write_file : history -> path -> string -> result unit;
  env_copy : history -> path -> path -> result unit
}.

(** ** The monad of a run *)

(** The state of a run: the trace so far and the job's list of temporary
    files ([temp_files] of [transcribe_audio], which its handlers read after
    an exception). *)
Record World := {
  trace : history;
  temp_files : list path
}.

Definition M (A : Type) : Type := World -> result A * World.

Definition ret {A} (a : A) : M A := fun w => (Ok a, w).

Definition bind {A B} (m : M A) (f : A -> M B) : M B :=
  fun w =>
    match m w with
    | (Ok a, w') => f a w'
    | (Raise e, w') => (Raise e, w')
    end.

Definition raise {A} (e : exn) : M A := fun w => (Raise e, w).

(** [try: body except Exception as e: handler e] *)
Definition try_except {A} (body : M A) (handler : exn -> M A) : M A :=
  fun w =>
    match body w with
    | (Ok a, w') => (Ok a, w')
    | (Raise e, w') => handler e w'
    end.

Declare Scope run_scope.
Delimit Scope run_scope with run.
Notation "x <- c1 ;; c2" := (bind c1 (fun x => c2))
  (at level 61, c1 at next level, right associativity) : run_scope.
Notation "c1 ;; c2" := (bind c1 (fun _ => c2))
  (at level 61, right associativity) : run_scope.
Local Open Scope run_scope.

(** The world after more events. *)
Definition extend (w : World) (evs : list event) : World :=
  {| trace := (trace w ++ evs)%list; temp_files := temp_files w |}.

Definition log (e : event) : M unit := fun w => (Ok tt, extend w [e]).

(** A question that cannot raise, and a call that can. *)
Definition ask {A} (oracle : history -> A) (ev : A -> event) : M A :=
  fun w => let a := oracle (trace w) in (Ok a, extend w [ev a]).

Definition call {A} (oracle : history -> result A) (ev : result A -> event) : M A :=
  fun w => let r := oracle (trace w) in (r, extend w [ev r]).

Definition print (s : string) : M unit := log (EvPrint s).

Definition get_temp_files : M (list path) := fun w => (Ok (temp_files w), w).

Definition set_temp_files (l : list path) : M unit :=
  fun w => (Ok tt, {| trace := trace w; temp_files := l |}).

Section Primitives.
Variable E : Env.

Definition time_time : M Z := ask (env_time E) EvTime.
Definition platform_system : M string := ask (env_platform E) EvPlatform.
Definition isdir (p : path) : M bool := ask (fun h => env_isdir E h p) (EvIsdir p).
Definition isfile (p : path) : M bool := ask (fun h => env_isfile E h p) (EvIsfile p).
Definition glob (pattern : string) : M (list path) :=
  ask (fun h => env_glob E h pattern) (EvGlob pattern).
Definition path_exists (p : path) : M bool :=
  ask (fun h => env_exists E h p) (EvExists p).
Definition getsize (p : path) : M nat :=
  call (fun h => env_getsize E h p) (EvGetsize p).
Definition from_file (p : path) : M AudioSegment :=
  call (fun h => env_from_file E h p) (EvFromFile p).
Definition from_wav (p : path) : M AudioSegment :=
  call (fun h => env_from_wav E h p) (EvFromWav p).
Definition export (a : AudioSegment) (p : path) : M unit :=
  call (fun h => env_export E h a p) (EvExport a p).
(** [subprocess.check_call(["ffmpeg", "-i", src, "-acodec", "pcm_s16le",
    "-ar", "44100", dst], ...)] *)
Definition ffmpeg (src dst : path) : M unit :=
  call (fun h => env_ffmpeg E h src dst) (EvFfmpeg src dst).
Definition rename (src dst : path) : M unit :=
  call (fun h => env_rename E h src dst) (EvRename src dst).
Definition remove (p : path) : M unit :=
  call (fun h => env_remove E h p) (EvRemove p).
Definition split_on_silence (sound : AudioSegment) (min_silence_len silence_thresh : Z)
  : M (list AudioSegment) :=
  call (fun _ => env_split_on_silence E sound min_silence_len silence_thresh)
       (EvSplit sound min_silence_len silence_thresh).
(** [with sr.AudioFile(p) as source: audio_data = recognizer.record(source)] *)
Definition record_file (p : path) : M AudioData :=
  call (fun h => env_record E h p) (EvRecord p).
Definition recognize_google (r : Recognizer) (d : AudioData) : M string :=
  call (fun h => env_recognize_google E h r d) (EvRecognizeGoogle r d).
Definition recognize_sphinx (r : Recognizer) (d : AudioData) : M string :=
  call (fun h => env_recognize_sphinx E h r d) (EvRecognizeSphinx r d).
(** [with open(p, "w") as file: file.write(content)] *)
Definition write_file (p : path) (content : string) : M unit :=
  call (fun h => env_write_file E h p content) (EvWriteFile p content).
(** [shutil.copy2(src, dst)] *)
Definition copy2 (src dst : path) : M unit :=
  call (fun h => env_copy E h src dst) (EvCopy src dst).
End Primitives.

(** The name of the exported file of segment [i]. *)
Definition chunk_filename (i : nat) : path := "temp_chunk_" ++ show_nat i ++ ".wav".

(** The segment between two half-second silences. *)
Definition padded (chunk : AudioSegment) : AudioSegment :=
  let silence_chunk := silent 500 in
  (silence_chunk ++ chunk ++ silence_chunk)%list.

(** ** The command-line flow ([audio_transcriber.py]) *)

Module Cli.
Section WithEnv.
Variable E : Env.

(** [convert_to_wav(audio_path)] *)
Definition convert_to_wav (audio_path : path) : M path :=
  if endswith audio_path ".wav" then ret audio_path
  else
    let filename := fst (splitext (basename audio_path)) in
    let output_path := filename ++ "_converted.wav" in
    let temp_output_path := filename ++ "_temp.wav" in
    try_except
      (print ("Attempting to convert " ++ audio_path ++ " to WAV using primary method...") ;;
       audio <- from_file E audio_path ;;
       export E audio output_path ;;
       print ("Converted " ++ audio_path ++ " to " ++ output_path) ;;
       ret output_path)
      (fun e =>
         print ("Primary conversion method failed: " ++ str e) ;;
         print "Trying backup conversion method..." ;;
         try_except
           (system <- platform_system E ;;
            (if String.eqb (lower system) "windows"
             then ffmpeg E audio_path temp_output_path
             else ffmpeg E audio_path temp_output_path) ;;
            present <- path_exists E temp_output_path ;;
            valid <- (if present
                      then (size <- getsize E temp_output_path ;; ret (0 <? size)%nat)
                      else ret false) ;;
            if valid then
              rename E temp_output_path output_path ;;
              print ("Backup conversion successful: " ++ output_path) ;;
              ret output_path
            else raise (OtherException "Backup conversion produced invalid file"))
           (fun backup_error =>
              print ("Backup conversion also failed: " ++ str backup_error) ;;
              print "Returning original file for last-resort processing attempt..." ;;
              ret audio_path)).

(** Loading the waveform (the first block of [transcribe_large_audio]):
    [None] stands for the early [return ""]. *)
Definition load_sound (audio_path : path) : M (option AudioSegment) :=
  print ("Loading audio file: " ++ audio_path) ;;
  try_except
    (sound <- from_wav E audio_path ;; ret (Some sound))
    (fun e =>
       print ("Error loading audio file: " ++ str e) ;;
       try_except
         (print "Attempting alternative loading method..." ;;
          sound <- from_file E audio_path ;;
          print "Alternative loading successful" ;;
          ret (Some sound))
         (fun alt_error =>
            print ("Alternative loading also failed: " ++ str alt_error) ;;
            print "Cannot process audio file. Returning empty transcription." ;;
            ret None)).

(** The split at silence and its retry ("Primary chunking attempt" and
    "If very few chunks detected"). *)
Definition split_with_retry (sound : AudioSegment) (min_silence_len silence_thresh : Z)
  : M (list AudioSegment) :=
  print "Splitting audio into chunks based on silence..." ;;
  chunks <- split_on_silence E sound min_silence_len silence_thresh ;;
  if (length chunks <? 2)%nat then
    print "Few chunks detected. Trying alternative silence parameters..." ;;
    alt_chunks <- split_on_silence E sound 300 (-35) ;;
    if (length chunks <? length alt_chunks)%nat then
      print ("Using alternative chunking method (" ++ show_nat (length alt_chunks)
             ++ " chunks vs " ++ show_nat (length chunks) ++ ")") ;;
      ret alt_chunks
    else ret chunks
  else ret chunks.

(** The segmenter: the split above, then "If still no chunks were
    detected, use fixed-length chunking as final fallback". *)
Definition segment (sound : AudioSegment) (min_silence_len silence_thresh : Z)
  : M (list AudioSegment) :=
  chunks <- split_with_retry sound min_silence_len silence_thresh ;;
  match chunks with
  | [] =>
      print "No silence detected for splitting. Using fixed-length chunking..." ;;
      ret (fixed_length_chunks sound chunk_length_ms)
  | _ :: _ => ret chunks
  end.

Definition primary_recognizer : Recognizer :=
  {| energy_threshold := 300; pause_threshold_ms := 800 |}.
Definition backup_recognizer : Recognizer :=
  {| energy_threshold := 300; pause_threshold_ms := 1000 |}.

Definition chunk_label (i n : nat) : string :=
  "Chunk " ++ show_nat (i + 1) ++ "/" ++ show_nat n.

(** The body of the loop over segments, from [try:] to the handler of
    [chunk_error]; it maps [full_text] before the segment to [full_text]
    after it. *)
Definition recognize_chunk (i n : nat) (chunk : AudioSegment) (full_text : string)
  : M string :=
  let audio_chunk := padded chunk in
  let chunk_filename := chunk_filename i in
  try_except
    (export E audio_chunk chunk_filename ;;
     audio_data <- record_file E chunk_filename ;;
     attempt <- try_except
       (text <- recognize_google E primary_recognizer audio_data ;;
        print (chunk_label i n ++ ": Transcribed successfully") ;;
        ret (full_text ++ text ++ " ", true))
       (fun e =>
          match e with
          | UnknownValueError _ =>
              print (chunk_label i n ++ ": No speech detected with primary recognizer") ;;
              ret (full_text, false)
          | RequestError _ =>
              print (chunk_label i n ++ ": Primary recognizer request error: " ++ str e) ;;
              ret (full_text, false)
          | _ => raise e
          end) ;;
     let '(full_text, success) := attempt in
     if negb success then
       try_except
         (print (chunk_label i n ++ ": Trying backup recognizer...") ;;
          try_except
            (text <- recognize_sphinx E backup_recognizer audio_data ;;
             print (chunk_label i n ++ ": Backup transcription successful") ;;
             ret (full_text ++ text ++ " "))
            (fun e =>
               match e with
               | ImportError _ | AttributeError _ =>
                   text <- recognize_google E backup_recognizer audio_data ;;
                   print (chunk_label i n ++ ": Alternative transcription successful") ;;
                   ret (full_text ++ text ++ " ")
               | _ => raise e
               end))
         (fun backup_error =>
            print (chunk_label i n ++ ": Backup transcription also failed: "
                   ++ str backup_error) ;;
            ret full_text)
     else ret full_text)
    (fun chunk_error =>
       print ("Error processing chunk " ++ show_nat (i + 1) ++ ": " ++ str chunk_error) ;;
       ret full_text).

(** [for i, chunk in enumerate(chunks)], from index [i] on; [n] is
    [len(chunks)] of the whole list.  The state of the loop is
    [(full_text, chunk_files)]. *)
Fixpoint for_chunks (n i : nat) (chunks : list AudioSegment)
         (full_text : string) (chunk_files : list path) : M (string * list path) :=
  match chunks with
  | [] => ret (full_text, chunk_files)
  | chunk :: rest =>
      let chunk_files := (chunk_files ++ [chunk_filename i])%list in
      full_text <- recognize_chunk i n chunk full_text ;;
      for_chunks n (S i) rest full_text chunk_files
  end.

(** "Clean up all temporary files with error handling" *)
Fixpoint remove_chunk_files (chunk_files : list path) : M unit :=
  match chunk_files with
  | [] => ret tt
  | chunk_file :: rest =>
      try_except
        (present <- path_exists E chunk_file ;;
         if present then remove E chunk_file else ret tt)
        (fun e =>
           print ("Warning: Failed to remove temporary file " ++ chunk_file
                  ++ ": " ++ str e)) ;;
      remove_chunk_files rest
  end.

(** [transcribe_large_audio(audio_path, min_silence_len, silence_thresh)] *)
Definition transcribe_large_audio (audio_path : path) (min_silence_len silence_thresh : Z)
  : M string :=
  loaded <- load_sound audio_path ;;
  match loaded with
  | None => ret ""
  | Some sound =>
      chunks <- segment sound min_silence_len silence_thresh ;;
      print ("Processing " ++ show_nat (length chunks) ++ " audio chunks...") ;;
      st <- for_chunks (length chunks) 0 chunks "" [] ;;
      let '(full_text, chunk_files) := st in
      remove_chunk_files chunk_files ;;
      ret (strip full_text)
  end.

Definition supported_extensions : list string :=
  [".wav"; ".mp3"; ".m4a"; ".flac"; ".aac"; ".ogg"].

(** [for extension in [...]: audio_files.extend(glob.glob(os.path.join(
    audio_path, f"*{extension}")))] *)
Fixpoint scan_directory (audio_path : path) (extensions : list string)
         (audio_files : list path) : M (list path) :=
  match extensions with
  | [] => ret audio_files
  | extension :: rest =>
      found <- glob E (path_join audio_path ("*" ++ extension)) ;;
      scan_directory audio_path rest (audio_files ++ found)%list
  end.

(** "Save the transcription with error handling": the path the job will
    report, and whether the backup location was used. *)
Definition save_transcription (output_path backup_output_path : path)
           (transcription : string) : M (path * bool) :=
  try_except
    (write_file E output_path transcription ;;
     print ("Transcription saved to: " ++ output_path) ;;
     ret (output_path, false))
    (fun save_error =>
       print ("Error saving to " ++ output_path ++ ": " ++ str save_error) ;;
       print ("Trying backup location: " ++ backup_output_path) ;;
       try_except
         (write_file E backup_output_path transcription ;;
          print ("Transcription saved to backup location: " ++ backup_output_path) ;;
          ret (backup_output_path, true))
         (fun backup_save_error =>
            print ("Error saving to backup location: " ++ str backup_save_error) ;;
            print (nl ++ "--- TRANSCRIPTION RESULT ---" ++ nl) ;;
            print transcription ;;
            print (nl ++ "--- END TRANSCRIPTION ---" ++ nl) ;;
            print "Transcription could not be saved to file, but is displayed above." ;;
            ret (output_path, false))).

(** "Clean up temporary files with error handling" *)
Fixpoint remove_temp_files (files : list path) : M unit :=
  match files with
  | [] => ret tt
  | temp_file :: rest =>
      try_except
        (present <- path_exists E temp_file ;;
         if present then remove E temp_file else ret tt)
        (fun cleanup_error =>
           print ("Warning: Could not remove temporary file " ++ temp_file
                  ++ ": " ++ str cleanup_error)) ;;
      remove_temp_files rest
  end.

(** The same loop in the handler of the outer [try], with [except: pass]. *)
Fixpoint remove_temp_files_quietly (files : list path) : M unit :=
  match files with
  | [] => ret tt
  | temp_file :: rest =>
      try_except
        (present <- path_exists E temp_file ;;
         if present then remove E temp_file else ret tt)
        (fun _ => ret tt) ;;
      remove_temp_files_quietly rest
  end.

(** "If we had to use backup location, try to copy back to original
    location" *)
Definition copy_back (backup_output : bool) (original_output_path : option path)
           (backup_output_path output_path : path) : M path :=
  match original_output_path with
  | Some original =>
      if backup_output && truthy original then
        try_except
          (copy2 E backup_output_path original ;;
           print ("Successfully copied transcription to original requested location: "
                  ++ original) ;;
           ret original)
          (fun copy_error =>
             print ("Note: Could not copy to original requested location: "
                    ++ str copy_error) ;;
             ret output_path)
      else ret output_path
  | None => ret output_path
  end.

(** "Transcribe the audio" and "Check if transcription is empty and run
    recovery if needed" *)
Definition transcribe_with_recovery (wav_path : path) : M string :=
  print ("Starting transcription of " ++ wav_path ++ "...") ;;
  transcription <- transcribe_large_audio wav_path 500 (-40) ;;
  if negb (truthy (strip transcription)) then
    print "Warning: Empty transcription detected. Trying alternative settings..." ;;
    transcribe_large_audio wav_path 300 (-35)
  else ret transcription.

(** "Convert to WAV if needed with error handling": a converted waveform
    is appended to [temp_files]. *)
Definition normalize_input (audio_path : path) : M path :=
  try_except
    (wav_path <- convert_to_wav audio_path ;;
     (if negb (String.eqb wav_path audio_path) then
        files <- get_temp_files ;;
        set_temp_files (files ++ [wav_path])%list
      else ret tt) ;;
     ret wav_path)
    (fun conv_error =>
       print ("Warning: Error during conversion: " ++ str conv_error) ;;
       print "Attempting to process original file..." ;;
       ret audio_path).

(** The job on one file, from "Ensure the file exists" to
    [return output_path]. *)
Definition process_file (start_time : Z) (audio_path : path)
           (output_path : option path) : M (option path) :=
  let original_output_path := output_path in
  valid <- isfile E audio_path ;;
  if negb valid then
    print ("Error: " ++ audio_path ++ " is not a valid file.") ;;
    ret None
  else
    wav_path <- normalize_input audio_path ;;
    let output_path :=
      if truthy_opt output_path then
        match output_path with Some p => p | None => "" end
      else fst (splitext (basename audio_path)) ++ "_transcription.txt" in
    now <- time_time E ;;
    let backup_output_path :=
      path_join (env_home E) ("audio_transcription_" ++ show_Z now ++ ".txt") in
    transcription <- transcribe_with_recovery wav_path ;;
    saved <- save_transcription output_path backup_output_path transcription ;;
    let '(output_path, backup_output) := saved in
    files <- get_temp_files ;;
    remove_temp_files files ;;
    end_time <- time_time E ;;
    print ("Transcription completed in " ++ show_Z (end_time - start_time) ++ ".00 seconds!") ;;
    output_path <- copy_back backup_output original_output_path
                             backup_output_path output_path ;;
    ret (Some output_path).

(** "Auto-detect file path if given a directory": the file to work on, or
    [None] for the early [return None]. *)
Definition select_input (audio_path : path) : M (option path) :=
  is_directory <- isdir E audio_path ;;
  if is_directory then
    print "Directory provided instead of file. Scanning for audio files..." ;;
    audio_files <- scan_directory audio_path supported_extensions [] ;;
    match audio_files with
    | first :: _ =>
        print ("Found " ++ show_nat (length audio_files)
               ++ " audio files. Using the first one: " ++ first) ;;
        ret (Some first)
    | [] =>
        print ("No audio files found in directory " ++ audio_path) ;;
        ret None
    end
  else ret (Some audio_path).

(** [transcribe_audio(audio_path, output_path=None)] *)
Definition transcribe_audio (audio_path : path) (output_path : option path)
  : M (option path) :=
  start_time <- time_time E ;;
  set_temp_files [] ;;
  try_except
    (selected <- select_input audio_path ;;
     match selected with
     | None => ret None
     | Some audio_path => process_file start_time audio_path output_path
     end)
    (fun e =>
       print ("Critical error during transcription: " ++ str e) ;;
       print "Stack trace:" ;;
       log (EvTraceback e) ;;
       files <- get_temp_files ;;
       remove_temp_files_quietly files ;;
       ret None).

End WithEnv.
End Cli.

(** ** The desktop flow ([audio_transcriber_gui.py]) *)

Module Gui.
Section WithEnv.
Variable E : Env.

(** Whether a [status_callback] was passed; the application passes
    [update_status]. *)
Variable status_callback : bool.

(** [if status_callback: status_callback(message)] *)
Definition status (message : string) : M unit :=
  if status_callback then log (EvStatus message) else ret tt.

(** [convert_to_wav(audio_path, status_callback=None)] *)
Definition convert_to_wav (audio_path : path) : M path :=
  if endswith audio_path ".wav" then ret audio_path
  else
    let filename := fst (splitext (basename audio_path)) in
    let output_path := filename ++ "_converted.wav" in
    status ("Converting " ++ audio_path ++ " to WAV format...") ;;
    audio <- from_file E audio_path ;;
    export E audio output_path ;;
    status ("Conversion complete: " ++ output_path) ;;
    ret output_path.

(** The segmenter: "Split audio where silence is detected" and "If no
    chunks were detected (continuous speech), use the whole audio". *)
Definition segment (sound : AudioSegment) (min_silence_len silence_thresh : Z)
  : M (list AudioSegment) :=
  status "Splitting audio into chunks based on silence..." ;;
  chunks <- split_on_silence E sound min_silence_len silence_thresh ;;
  match chunks with
  | [] =>
      status "No silence detected for splitting. Processing entire audio..." ;;
      ret [sound]
  | _ :: _ => ret chunks
  end.

(** [sr.Recognizer()] with the library's settings. *)
Definition recognizer : Recognizer :=
  {| energy_threshold := 300; pause_threshold_ms := 800 |}.

Definition chunk_label (i n : nat) : string :=
  "Chunk " ++ show_nat (i + 1) ++ "/" ++ show_nat n.

(** The body of the loop over segments. *)
Definition recognize_chunk (i n : nat) (chunk : AudioSegment) (full_text : string)
  : M string :=
  let audio_chunk := padded chunk in
  let chunk_filename := chunk_filename i in
  export E audio_chunk chunk_filename ;;
  audio_data <- record_file E chunk_filename ;;
  full_text <- try_except
    (text <- recognize_google E recognizer audio_data ;;
     status (chunk_label i n ++ ": Transcribed successfully") ;;
     ret (full_text ++ text ++ " "))
    (fun e =>
       match e with
       | UnknownValueError _ =>
           status (chunk_label i n ++ ": No speech detected") ;;
           ret full_text
       | RequestError _ =>
           status (chunk_label i n ++ ": Could not request results; " ++ str e) ;;
           ret full_text
       | _ => raise e
       end) ;;
  remove E chunk_filename ;;
  ret full_text.

Fixpoint for_chunks (n i : nat) (chunks : list AudioSegment) (full_text : string)
  : M string :=
  match chunks with
  | [] => ret full_text
  | chunk :: rest =>
      full_text <- recognize_chunk i n chunk full_text ;;
      for_chunks n (S i) rest full_text
  end.

(** [transcribe_large_audio(audio_path, status_callback, min_silence_len,
    silence_thresh)] *)
Definition transcribe_large_audio (audio_path : path) (min_silence_len silence_thresh : Z)
  : M string :=
  status ("Loading audio file: " ++ audio_path) ;;
  sound <- from_wav E audio_path ;;
  chunks <- segment sound min_silence_len silence_thresh ;;
  status ("Processing " ++ show_nat (length chunks) ++ " audio chunks...") ;;
  full_text <- for_chunks (length chunks) 0 chunks "" ;;
  ret (strip full_text).

(** [transcribe_audio(audio_path, output_path=None, status_callback=None)] *)
Definition transcribe_audio (audio_path : path) (output_path : option path) : M path :=
  start_time <- time_time E ;;
  wav_path <- convert_to_wav audio_path ;;
  let output_path :=
    if truthy_opt output_path then
      match output_path with Some p => p | None => "" end
    else fst (splitext (basename audio_path)) ++ "_transcription.txt" in
  status ("Starting transcription of " ++ wav_path ++ "...") ;;
  transcription <- transcribe_large_audio wav_path 500 (-40) ;;
  write_file E output_path transcription ;;
  (if negb (String.eqb wav_path audio_path) then remove E wav_path else ret tt) ;;
  end_time <- time_time E ;;
  status ("Transcription completed in " ++ show_Z (end_time - start_time) ++ ".00 seconds!") ;;
  status ("Transcription saved to: " ++ output_path) ;;
  ret output_path.

End WithEnv.
End Gui.

(** ** Reading a trace *)

Local Open Scope list_scope.
Local Open Scope nat_scope.

(** A conversion attempt succeeded: the library export, or the rename that
    ends the ffmpeg attempt. *)
Definition conversion_succeeded (evs : list event) : bool :=
  existsb (fun e => match e with
                    | EvExport _ _ (Ok _) => true
                    | EvRename _ _ (Ok _) => true
                    | _ => false
                    end) evs.

(** The secondary backend starts with the offline engine. *)
Definition secondary_attempted (evs : list event) : bool :=
  existsb (fun e => match e with
                    | EvRecognizeSphinx _ _ _ => true
                    | _ => false
                    end) evs.

(** What the first request to the recognition service answered: in the
    events of one segment this is the request of the primary recognizer. *)
Fixpoint primary_outcome (evs : list event) : option (result string) :=
  match evs with
  | [] => None
  | EvRecognizeGoogle _ _ r :: _ => Some r
  | _ :: rest => primary_outcome rest
  end.

(** The texts the backends returned, in the order of the trace. *)
Fixpoint recognized_texts (evs : list event) : list string :=
  match evs with
  | [] => []
  | EvRecognizeGoogle _ _ (Ok text) :: rest => text :: recognized_texts rest
  | EvRecognizeSphinx _ _ (Ok text) :: rest => text :: recognized_texts rest
  | _ :: rest => recognized_texts rest
  end.

Fixpoint without (p : path) (l : list path) : list path :=
  match l with
  | [] => []
  | q :: rest => if String.eqb p q then without p rest else q :: without p rest
  end.

(** The temporary files that exist as far as the trace tells: a successful
    export or rename creates one; a removal attempt, or an existence check
    answered "no", settles it. *)
Definition track (e : event) (left : list path) : list path :=
  match e with
  | EvExport _ p (Ok _) => p :: without p left
  | EvRename _ p (Ok _) => p :: without p left
  | EvExists p false => without p left
  | EvRemove p _ => without p left
  | _ => left
  end.

Fixpoint pending (evs : list event) (left : list path) : list path :=
  match evs with
  | [] => left
  | e :: rest => pending rest (track e left)
  end.

Definition creates (e : event) (p : path) : Prop :=
  (exists a, e = EvExport a p (Ok tt)) \/ (exists src, e = EvRename src p (Ok tt)).

Definition removal_attempt (e : event) (p : path) : Prop :=
  e = EvExists p false \/ exists r, e = EvRemove p r.

(** Every creation of a temporary file is followed by an attempt to remove
    that file. *)
Definition cleaned_up (evs : list event) : Prop :=
  forall before e after p,
    evs = before ++ e :: after ->
    creates e p ->
    exists e', In e' after /\ removal_attempt e' p.

(** A pass of the segmenter and dispatcher decodes the waveform once. *)
Fixpoint count_passes (evs : list event) : nat :=
  match evs with
  | [] => 0
  | EvFromWav _ _ :: rest => S (count_passes rest)
  | _ :: rest => count_passes rest
  end.

(** The silence-detection requests of a run, with their thresholds. *)
Fixpoint split_requests (evs : list event) : list (Z * Z) :=
  match evs with
  | [] => []
  | EvSplit _ m t _ :: rest => (m, t) :: split_requests rest
  | _ :: rest => split_requests rest
  end.

(** The files found by the directory scan, in the order of the requests. *)
Fixpoint scan_results (evs : list event) : list path :=
  match evs with
  | [] => []
  | EvGlob _ found :: rest => found ++ scan_results rest
  | _ :: rest => scan_results rest
  end.

(** The audio file an event reads, if it reads one. *)
Definition audio_input (e : event) : option path :=
  match e with
  | EvIsfile p _ => Some p
  | EvFromFile p _ => Some p
  | EvFromWav p _ => Some p
  | EvFfmpeg src _ _ => Some src
  | _ => None
  end.

(** Events of input validation: the clock, the directory scan, the file
    check and messages. *)
Definition is_validation_event (e : event) : bool :=
  match e with
  | EvTime _ | EvIsdir _ _ | EvGlob _ _ | EvIsfile _ _ | EvPrint _ => true
  | _ => false
  end.


(** The attempts to write a file: where, what, and whether it worked. *)
Fixpoint write_attempts (evs : list event) : list (path * string * bool) :=
  match evs with
  | [] => []
  | EvWriteFile p content (Ok _) :: rest => (p, content, true) :: write_attempts rest
  | EvWriteFile p content (Raise _) :: rest => (p, content, false) :: write_attempts rest
  | _ :: rest => write_attempts rest
  end.

(** The attempts to copy a file: from, to, and whether it worked. *)
Fixpoint copy_attempts (evs : list event) : list (path * path * bool) :=
  match evs with
  | [] => []
  | EvCopy src dst (Ok _) :: rest => (src, dst, true) :: copy_attempts rest
  | EvCopy src dst (Raise _) :: rest => (src, dst, false) :: copy_attempts rest
  | _ :: rest => copy_attempts rest
  end.

(** [full_text] after appending [text + " "] for each text in turn. *)
Definition spaced (texts : list string) : string :=
  fold_right (fun text rest => (text ++ " " ++ rest)%string) ""%string texts.

(** Events of the dispatcher proper: reading the exported file back,
    recognition requests and messages. *)
Definition is_dispatch_event (e : event) : bool :=
  match e with
  | EvPrint _ | EvRecord _ _
  | EvRecognizeGoogle _ _ _ | EvRecognizeSphinx _ _ _ => true
  | _ => false
  end.

(** The primary backend reported no speech or a request error. *)
Definition primary_reported_failure (evs : list event) : Prop :=
  exists m, primary_outcome evs = Some (Raise (UnknownValueError m))
            \/ primary_outcome evs = Some (Raise (RequestError m)).

(** The events of the loop over segments, one block per segment in the
    order of the segments: the block of segment [i] starts with the export
    of the padded segment to [chunk_filename i], goes on with dispatcher
    events only, and holds at most one recognized text. *)
Inductive chunk_blocks : nat -> list AudioSegment -> list (list event) -> Prop :=
| chunk_blocks_nil i : chunk_blocks i [] []
| chunk_blocks_cons i chunk chunks r0 tail blocks :
    Forall (fun e => is_dispatch_event e = true) tail ->
    length (recognized_texts tail) <= 1 ->
    chunk_blocks (S i) chunks blocks ->
    chunk_blocks i (chunk :: chunks)
                 ((EvExport (padded chunk) (chunk_filename i) r0 :: tail) :: blocks).

(** The events of one round of a cleanup loop: the file is absent, or it is
    removed, or its removal fails and the loop's warning, if it has one,
    follows. *)
Inductive removal_block (warning : path -> exn -> option string) (f : path)
  : list event -> Prop :=
| removal_absent : removal_block warning f [EvExists f false]
| removal_done : removal_block warning f [EvExists f true; EvRemove f (Ok tt)]
| removal_failed e :
    removal_block warning f
      (EvExists f true :: EvRemove f (Raise e)
       :: match warning f e with Some s => [EvPrint s] | None => [] end).

Definition chunk_warning (f : path) (e : exn) : option string :=
  Some ("Warning: Failed to remove temporary file " ++ f ++ ": " ++ str e)%string.

Definition temp_warning (f : path) (e : exn) : option string :=
  Some ("Warning: Could not remove temporary file " ++ f ++ ": " ++ str e)%string.

Definition no_warning (f : path) (e : exn) : option string := None.

(** An event of the processing stages: no validation question, no
    traceback, and audio is read only from an allowed path. *)
Definition processing_event (allowed : path -> Prop) (e : event) : Prop :=
  match e with
  | EvTraceback _ | EvIsdir _ _ | EvIsfile _ _ | EvGlob _ _ => False
  | EvFromFile p _ | EvFromWav p _ | EvFfmpeg p _ _ => allowed p
  | _ => True
  end.



Definition traceback_printed (evs : list event) : bool :=
  existsb (fun e => match e with EvTraceback _ => true | _ => false end) evs.


(** The handler of the outer [try] ran. *)
Definition critical_failure (evs : list event) : Prop :=
  traceback_printed evs = true.


(** An event that leaves the set of tracked temporary files as it is. *)
Definition is_inert (e : event) : bool :=
  match e with
  | EvExport _ _ (Ok _) | EvRename _ _ (Ok _) | EvExists _ false | EvRemove _ _ => false
  | _ => true
  end.

(** The events of loading a waveform from [p]. *)
Definition load_event (p : path) (e : event) : Prop :=
  match e with
  | EvPrint _ => True
  | EvFromWav q _ | EvFromFile q _ => q = p
  | _ => False
  end.

(** The events of the segmenter. *)
Definition segment_event (e : event) : Prop :=
  match e with
  | EvPrint _ | EvSplit _ _ _ _ => True
  | _ => False
  end.

(** The events of one pass of [transcribe_large_audio] over [wav]. *)
Definition pass_event (wav : path) (e : event) : Prop :=
  match e with
  | EvPrint _ | EvSplit _ _ _ _ | EvExport _ _ _ | EvRecord _ _
  | EvRecognizeGoogle _ _ _ | EvRecognizeSphinx _ _ _
  | EvExists _ _ | EvRemove _ _ => True
  | EvFromWav p _ | EvFromFile p _ => p = wav
  | _ => False
  end.

(** The events of the normalizer on [f]. *)
Definition convert_event (f : path) (e : event) : Prop :=
  match e with
  | EvPrint _ | EvPlatform _ | EvExport _ _ _ | EvExists _ _
  | EvGetsize _ _ | EvRename _ _ _ => True
  | EvFromFile p _ | EvFfmpeg p _ _ => p = f
  | _ => False
  end.

(** The events of persisting the transcript, and of copying it back. *)
Definition save_event (e : event) : Prop :=
  match e with
  | EvPrint _ | EvWriteFile _ _ _ => True
  | _ => False
  end.

Definition copy_event (e : event) : Prop :=
  match e with
  | EvPrint _ | EvCopy _ _ _ => True
  | _ => False
  end.


Definition empty_warning : string :=
  "Warning: Empty transcription detected. Trying alternative settings...".

(** Names the job derives from its input. *)
Definition converted_name (f : path) : path :=
  (fst (splitext (basename f)) ++ "_converted.wav")%string.

Definition default_output (f : path) : path :=
  (fst (splitext (basename f)) ++ "_transcription.txt")%string.

Definition requested_output (output_path : option path) (f : path) : path :=
  if truthy_opt output_path then
    match output_path with Some p => p | None => ""%string end
  else default_output f.

Definition backup_location (E : Env) (now : Z) : path :=
  path_join (env_home E) ("audio_transcription_" ++ show_Z now ++ ".txt")%string.

(** What the job adds to [temp_files] after the normalizer returned [wav]
    for [f]. *)
Definition temps (f wav : path) : list path :=
  if String.eqb wav f then [] else [wav].

(** The run of the normalizer on [f], as the job sees it: the waveform is
    the file itself or its converted namesake; only [f] is read; and the
    only temporary file it can leave behind, as far as the trace tells, is
    a converted waveform. *)
Definition convert_shape (f wav : path) (evs : list event) : Prop :=
  (wav = f \/ wav = converted_name f)
  /\ Forall (convert_event f) evs
  /\ (forall left q, In q (pending evs left) -> In q left \/ (q = wav /\ wav <> f)).

(** The run of the first pass and, perhaps, of the second: one or two
    passes over [wav], which leave no temporary file behind. *)
Definition recovery_shape (wav : path) (evs : list event) : Prop :=
  Forall (pass_event wav) evs
  /\ (forall left, incl (pending evs left) left)
  /\ (count_passes evs = 1
      \/ (count_passes evs = 2 /\ In (EvPrint empty_warning) evs)).

(** The run of "Save the transcription": the target is written; if that
    fails the backup location is written; if that fails too the text is
    printed.  [saved] is the path the job goes on with. *)
Definition save_shape (target backup : path) (text : string)
           (saved : path) (used_backup : bool) (evs : list event) : Prop :=
  Forall save_event evs
  /\ ((write_attempts evs = [(target, text, true)]
       /\ saved = target /\ used_backup = false)
      \/ (write_attempts evs = [(target, text, false); (backup, text, true)]
          /\ saved = backup /\ used_backup = true)
      \/ (write_attempts evs = [(target, text, false); (backup, text, false)]
          /\ In (EvPrint text) evs
          /\ saved = target /\ used_backup = false)).

(** The run of the copy back to the requested location: attempted exactly
    when the backup location was used and a location had been requested. *)
Definition copy_shape (used_backup : bool) (original : option path)
           (backup saved final : path) (evs : list event) : Prop :=
  Forall copy_event evs
  /\ if used_backup && truthy_opt original then
       exists requested,
         original = Some requested
         /\ ((copy_attempts evs = [(backup, requested, true)] /\ final = requested)
             \/ (copy_attempts evs = [(backup, requested, false)] /\ final = saved))
     else evs = [] /\ final = saved.

(** The run of "Auto-detect file path if given a directory". *)
Definition select_shape (audio_path : path) (selected : option path)
           (evs : list event) : Prop :=
  (evs = [EvIsdir audio_path false] /\ selected = Some audio_path)
  \/ (exists scan s1 s2,
         evs = EvIsdir audio_path true :: EvPrint s1 :: scan ++ [EvPrint s2]
         /\ Forall2 (fun extension e =>
                       exists found,
                         e = EvGlob (path_join audio_path ("*" ++ extension)%string) found)
                    Cli.supported_extensions scan
         /\ selected = hd_error (scan_results scan)).

(** The run of the job on the selected file [f]. *)
Inductive file_run (E : Env) (f : path) (output_path : option path) (tf0 : list path)
  : result (option path) -> list event -> list path -> Prop :=
| file_run_invalid s :
    file_run E f output_path tf0 (Ok None) [EvIsfile f false; EvPrint s] tf0
| file_run_failed wav conv_evs t1 rec_evs e :
    convert_shape f wav conv_evs ->
    recovery_shape wav rec_evs ->
    file_run E f output_path tf0 (Raise e)
             (EvIsfile f true :: conv_evs ++ EvTime t1 :: rec_evs)
             (tf0 ++ temps f wav)
| file_run_done wav conv_evs t1 rec_evs text saved used_backup save_evs
                blocks t2 s copy_evs final :
    convert_shape f wav conv_evs ->
    recovery_shape wav rec_evs ->
    save_shape (requested_output output_path f) (backup_location E t1) text
               saved used_backup save_evs ->
    Forall2 (removal_block temp_warning) (tf0 ++ temps f wav) blocks ->
    copy_shape used_backup output_path (backup_location E t1) saved final copy_evs ->
    file_run E f output_path tf0 (Ok (Some final))
             (EvIsfile f true :: conv_evs ++ EvTime t1 :: rec_evs ++ save_evs
              ++ concat blocks ++ EvTime t2 :: EvPrint s :: copy_evs)
             (tf0 ++ temps f wav).

(** The run of [transcribe_audio]. *)
Inductive job_run (E : Env) (audio_path : path) (output_path : option path)
  : option path -> list event -> Prop :=
| job_run_nothing_selected t0 sel_evs :
    select_shape audio_path None sel_evs ->
    job_run E audio_path output_path None (EvTime t0 :: sel_evs)
| job_run_file t0 sel_evs f r file_evs tf :
    select_shape audio_path (Some f) sel_evs ->
    file_run E f output_path [] (Ok r) file_evs tf ->
    job_run E audio_path output_path r (EvTime t0 :: sel_evs ++ file_evs)
| job_run_critical t0 sel_evs f e file_evs tf s1 s2 blocks :
    select_shape audio_path (Some f) sel_evs ->
    file_run E f output_path [] (Raise e) file_evs tf ->
    Forall2 (removal_block no_warning) tf blocks ->
    job_run E audio_path output_path None
            (EvTime t0 :: sel_evs ++ file_evs
             ++ EvPrint s1 :: EvPrint s2 :: EvTraceback e :: concat blocks).

(** An event that is neither a write of the transcript nor a copy. *)
Definition is_plain (e : event) : bool :=
  match e with
  | EvWriteFile _ _ _ | EvCopy _ _ _ => false
  | _ => true
  end.


(** Whether a trace holds an attempt to remove a file. *)
Definition removal_attempted (evs : list event) : bool :=
  existsb (fun e => match e with EvRemove _ _ => true | _ => false end) evs.

(** The desktop normalizer's failure: the exception of the decoder or of
    the export. *)
Definition decoding_failed (audio_path : path) (e : exn) (evs : list event) : Prop :=
  In (EvFromFile audio_path (Raise e)) evs
  \/ exists a p, In (EvExport a p (Raise e)) evs.

(** ** Sample environments *)

Definition world0 : World := {| trace := []; temp_files := [] |}.

(** Everything works: one segment per waveform, the same text for every
    segment. *)
Definition env_ok : Env := {|
  env_time := fun h => Z.of_nat (length h);
  env_platform := fun _ => "Linux";
  env_home := "/home/user";
  env_isdir := fun _ _ => false;
  env_isfile := fun _ _ => true;
  env_glob := fun _ _ => [];
  env_exists := fun _ _ => true;
  env_getsize := fun _ _ => Ok 1;
  env_from_file := fun _ _ => Ok [1; 2; 3]%Z;
  env_from_wav := fun _ _ => Ok [1; 2; 3]%Z;
  env_export := fun _ _ _ => Ok tt;
  env_ffmpeg := fun _ _ _ => Ok tt;
  env_rename := fun _ _ _ => Ok tt;
  env_remove := fun _ _ => Ok tt;
  env_split_on_silence := fun sound _ _ => Ok [sound];
  env_record := fun _ _ => Ok [7]%Z;
  env_recognize_google := fun _ _ _ => Ok "hello";
  env_recognize_sphinx := fun _ _ _ => Ok "offline";
  env_write_file := fun _ _ _ => Ok tt;
  env_copy := fun _ _ _ => Ok tt
|}.

Definition with_from_file (f : history -> path -> result AudioSegment) (E : Env) : Env := {|
  env_time := env_time E; env_platform := env_platform E; env_home := env_home E;
  env_isdir := env_isdir E; env_isfile := env_isfile E; env_glob := env_glob E;
  env_exists := env_exists E; env_getsize := env_getsize E;
  env_from_file := f;
  env_from_wav := env_from_wav E; env_export := env_export E;
  env_ffmpeg := env_ffmpeg E; env_rename := env_rename E; env_remove := env_remove E;
  env_split_on_silence := env_split_on_silence E; env_record := env_record E;
  env_recognize_google := env_recognize_google E;
  env_recognize_sphinx := env_recognize_sphinx E;
  env_write_file := env_write_file E; env_copy := env_copy E
|}.

Definition with_split (f : AudioSegment -> Z -> Z -> result (list AudioSegment)) (E : Env)
  : Env := {|
  env_time := env_time E; env_platform := env_platform E; env_home := env_home E;
  env_isdir := env_isdir E; env_isfile := env_isfile E; env_glob := env_glob E;
  env_exists := env_exists E; env_getsize := env_getsize E;
  env_from_file := env_from_file E;
  env_from_wav := env_from_wav E; env_export := env_export E;
  env_ffmpeg := env_ffmpeg E; env_rename := env_rename E; env_remove := env_remove E;
  env_split_on_silence := f; env_record := env_record E;
  env_recognize_google := env_recognize_google E;
  env_recognize_sphinx := env_recognize_sphinx E;
  env_write_file := env_write_file E; env_copy := env_copy E
|}.

Definition with_google (f : history -> Recognizer -> AudioData -> result string) (E : Env)
  : Env := {|
  env_time := env_time E; env_platform := env_platform E; env_home := env_home E;
  env_isdir := env_isdir E; env_isfile := env_isfile E; env_glob := env_glob E;
  env_exists := env_exists E; env_getsize := env_getsize E;
  env_from_file := env_from_file E;
  env_from_wav := env_from_wav E; env_export := env_export E;
  env_ffmpeg := env_ffmpeg E; env_rename := env_rename E; env_remove := env_remove E;
  env_split_on_silence := env_split_on_silence E; env_record := env_record E;
  env_recognize_google := f;
  env_recognize_sphinx := env_recognize_sphinx E;
  env_write_file := env_write_file E; env_copy := env_copy E
|}.

Definition with_write_file (f : history -> path -> string -> result unit) (E : Env)
  : Env := {|
  env_time := env_time E; env_platform := env_platform E; env_home := env_home E;
  env_isdir := env_isdir E; env_isfile := env_isfile E; env_glob := env_glob E;
  env_exists := env_exists E; env_getsize := env_getsize E;
  env_from_file := env_from_file E;
  env_from_wav := env_from_wav E; env_export := env_export E;
  env_ffmpeg := env_ffmpeg E; env_rename := env_rename E; env_remove := env_remove E;
  env_split_on_silence := env_split_on_silence E; env_record := env_record E;
  env_recognize_google := env_recognize_google E;
  env_recognize_sphinx := env_recognize_sphinx E;
  env_write_file := f; env_copy := env_copy E
|}.

Definition with_directory (isdir : path -> bool) (found : string -> list path)
           (isfile : path -> bool) (E : Env) : Env := {|
  env_time := env_time E; env_platform := env_platform E; env_home := env_home E;
  env_isdir := fun _ => isdir; env_isfile := fun _ => isfile;
  env_glob := fun _ => found;
  env_exists := env_exists E; env_getsize := env_getsize E;
  env_from_file := env_from_file E;
  env_from_wav := env_from_wav E; env_export := env_export E;
  env_ffmpeg := env_ffmpeg E; env_rename := env_rename E; env_remove := env_remove E;
  env_split_on_silence := env_split_on_silence E; env_record := env_record E;
  env_recognize_google := env_recognize_google E;
  env_recognize_sphinx := env_recognize_sphinx E;
  env_write_file := env_write_file E; env_copy := env_copy E
|}.


(** A directory [recordings] that holds the files [b.mp3] and [c.ogg]. *)
Definition env_directory : Env :=
  with_directory
    (fun p => String.eqb p "recordings")
    (fun pattern =>
       if String.eqb pattern "recordings/*.mp3" then ["recordings/b.mp3"%string]
       else if String.eqb pattern "recordings/*.ogg" then ["recordings/c.ogg"%string]
       else [])
    (fun p => String.eqb p "recordings/b.mp3" || String.eqb p "recordings/c.ogg")
    env_ok.

(** A file pydub cannot decode. *)
Definition env_undecodable : Env :=
  with_from_file (fun _ _ => Raise (OtherException "could not decode")) env_ok.

(** Speech without a pause: silence detection finds no segment, whatever
    the thresholds. *)
Definition env_continuous_speech : Env := with_split (fun _ _ _ => Ok []) env_ok.

(** Just over a minute of sound. *)
Definition minute_of_sound : AudioSegment := repeat 1%Z 61000.

(** One segment at the default thresholds, three at 300 ms / -35 dBFS. *)
Definition env_short_pauses : Env :=
  with_split (fun sound m t =>
                if ((m =? 300) && (t =? -35))%Z
                then Ok [firstn 1 sound; firstn 1 (skipn 1 sound); skipn 2 sound]
                else Ok [sound]) env_ok.

(** The service hears no speech. *)
Definition env_no_speech : Env :=
  with_google (fun _ _ _ => Raise (UnknownValueError "")) env_ok.

(** The binding fails in a way the program does not expect. *)
Definition env_broken_service : Env :=
  with_google (fun _ _ _ => Raise (OtherException "bad response")) env_ok.

(** No location can be written. *)
Definition env_read_only : Env :=
  with_write_file (fun _ _ _ => Raise (OtherException "Permission denied")) env_ok.

From Stdlib Require Import DecimalNat.

(** ** A program logic for runs *)

(** [wp m Q R w]: run from [w], [m] returns a value and a world that
    satisfy [Q], or raises an exception in a world that satisfy [R]. *)
Definition wp {A} (m : M A) (Q : A -> World -> Prop) (R : exn -> World -> Prop)
           (w : World) : Prop :=
  match m w with
  | (Ok a, w') => Q a w'
  | (Raise e, w') => R e w'
  end.

(** Since the trace was [t0], every event satisfied [I]; the job's list of
    temporary files satisfies [T]. *)
Definition inv (t0 : history) (I : event -> Prop) (T : list path -> Prop)
           (w : World) : Prop :=
  (exists evs, trace w = t0 ++ evs /\ Forall I evs) /\ T (temp_files w).

(** ** The files a job touches *)

(** The paths an event tries to create, overwrite, move or remove. *)
Definition touches (e : event) : list path :=
  match e with
  | EvExport _ p _ => [p]
  | EvFfmpeg _ dst _ => [dst]
  | EvRename src dst _ => [src; dst]
  | EvRemove p _ => [p]
  | EvWriteFile p _ _ => [p]
  | EvCopy _ dst _ => [dst]
  | _ => []
  end.

(** The intermediate file of the ffmpeg conversion of [f]. *)
Definition temp_name (f : path) : path :=
  (fst (splitext (basename f)) ++ "_temp.wav")%string.

(** What a command-line job that works on the file [f] may do to the file
    system: convert [f] (unless it is a [.wav] file already), export and
    remove segment files, remove the converted waveform, write the
    transcript to the requested or default location or to the backup
    location, and copy the backup to the requested location. *)
Inductive job_mutation (E : Env) (f : path) (output_path : option path)
  : event -> Prop :=
| mutation_none e :
    touches e = [] -> job_mutation E f output_path e
| mutation_export_converted a r :
    endswith f ".wav" = false ->
    job_mutation E f output_path (EvExport a (converted_name f) r)
| mutation_ffmpeg r :
    endswith f ".wav" = false ->
    job_mutation E f output_path (EvFfmpeg f (temp_name f) r)
| mutation_rename r :
    endswith f ".wav" = false ->
    job_mutation E f output_path (EvRename (temp_name f) (converted_name f) r)
| mutation_export_chunk i a r :
    job_mutation E f output_path (EvExport a (chunk_filename i) r)
| mutation_remove_chunk i r :
    job_mutation E f output_path (EvRemove (chunk_filename i) r)
| mutation_remove_converted r :
    endswith f ".wav" = false ->
    job_mutation E f output_path (EvRemove (converted_name f) r)
| mutation_write_target text r :
    job_mutation E f output_path
                 (EvWriteFile (requested_output output_path f) text r)
| mutation_write_backup now text r :
    job_mutation E f output_path (EvWriteFile (backup_location E now) text r)
| mutation_copy now requested r :
    output_path = Some requested -> truthy requested = true ->
    job_mutation E f output_path (EvCopy (backup_location E now) requested r).

(** An event that touches no file. *)
Definition quiet (e : event) : Prop := touches e = [].

(** The name of a segment file. *)
Definition chunk_file (p : path) : Prop := exists i, p = chunk_filename i.

(** The job's list of temporary files holds the converted waveform of
    [f], at most. *)
Definition converted_only (f : path) (l : list path) : Prop :=
  Forall (fun p => p = converted_name f /\ endswith f ".wav" = false) l.

(** An event of the selection of the input: the clock, the question
    whether the input is a directory, the scan, messages. *)
Definition selecting (e : event) : Prop :=
  match e with
  | EvTime _ | EvIsdir _ _ | EvGlob _ _ | EvPrint _ => True
  | _ => False
  end.

(** The file a job put through its file check, if it got that far. *)
Fixpoint checked (evs : list event) : option path :=
  match evs with
  | [] => None
  | EvIsfile f _ :: _ => Some f
  | _ :: rest => checked rest
  end.

Definition is_digit (c : ascii) : bool :=
  let n := nat_of_ascii c in ((48 <=? n) && (n <=? 57))%nat.

(** What a desktop job on the file [f] may do to the file system: convert
    [f] with pydub (unless it is a [.wav] file already), export and remove
    segment files, write the transcript to the requested or default
    location, and remove the converted waveform. *)
Inductive gui_mutation (f : path) (output_path : option path) : event -> Prop :=
| gui_mutation_none e :
    touches e = [] -> gui_mutation f output_path e
| gui_mutation_export_converted a r :
    endswith f ".wav" = false ->
    gui_mutation f output_path (EvExport a (converted_name f) r)
| gui_mutation_export_chunk i a r :
    gui_mutation f output_path (EvExport a (chunk_filename i) r)
| gui_mutation_remove_chunk i r :
    gui_mutation f output_path (EvRemove (chunk_filename i) r)
| gui_mutation_write text r :
    gui_mutation f output_path (EvWriteFile (requested_output output_path f) text r)
| gui_mutation_remove_converted r :
    endswith f ".wav" = false ->
    gui_mutation f output_path (EvRemove (converted_name f) r).

(** The events of a pass that could not load its waveform. *)
Definition failed_load (audio_path : path) (e1 e2 : exn) : list event :=
  [EvPrint ("Loading audio file: " ++ audio_path)%string;
   EvFromWav audio_path (Raise e1);
   EvPrint ("Error loading audio file: " ++ str e1)%string;
   EvPrint "Attempting alternative loading method..."%string;
   EvFromFile audio_path (Raise e2);
   EvPrint ("Alternative loading also failed: " ++ str e2)%string;
   EvPrint "Cannot process audio file. Returning empty transcription."%string].

(** An environment in which pydub can decode nothing. *)
Definition env_nothing_decodes : Env := {|
  env_time := env_time env_ok; env_platform := env_platform env_ok;
  env_home := env_home env_ok;
  env_isdir := env_isdir env_ok; env_isfile := env_isfile env_ok;
  env_glob := env_glob env_ok;
  env_exists := env_exists env_ok; env_getsize := env_getsize env_ok;
  env_from_file := fun _ _ => Raise (OtherException "could not decode");
  env_from_wav := fun _ _ => Raise (OtherException "not a RIFF file");
  env_export := env_export env_ok;
  env_ffmpeg := env_ffmpeg env_ok; env_rename := env_rename env_ok;
  env_remove := env_remove env_ok;
  env_split_on_silence := env_split_on_silence env_ok;
  env_record := env_record env_ok;
  env_recognize_google := env_recognize_google env_ok;
  env_recognize_sphinx := env_recognize_sphinx env_ok;
  env_write_file := env_write_file env_ok; env_copy := env_copy env_ok
|}.

(** ** The configuration file ([load_config], [save_config]) *)

Module Config.

Set Warnings "-register-all".

(** What [json.load] can return, and what [json.dump] is given.  An object
    is a Python [dict]: its members are kept in insertion order, with
    distinct keys. *)
Inductive json :=
| JNull
| JBool (b : bool)
| JNumber (literal : string)
| JString (s : string)
| JArray (items : list json)
| JObject (members : list (string * json)).

(** [d.get(key)], [key in d] and [d[key] = value] on a [dict]. *)
Fixpoint dict_get (key : string) (members : list (string * json)) : option json :=
  match members with
  | [] => None
  | (k, v) :: rest => if String.eqb k key then Some v else dict_get key rest
  end.

Definition dict_mem (key : string) (members : list (string * json)) : bool :=
  match dict_get key members with
  | Some _ => true
  | None => false
  end.

Fixpoint dict_set (key : string) (value : json) (members : list (string * json))
  : list (string * json) :=
  match members with
  | [] => [(key, value)]
  | (k, v) :: rest =>
      if String.eqb k key then (k, value) :: rest
      else (k, v) :: dict_set key value rest
  end.

(** [needle in s] on strings. *)
Fixpoint is_substring (needle s : string) : bool :=
  if String.prefix needle s then true
  else match s with
       | EmptyString => false
       | String _ rest => is_substring needle rest
       end.

(** [TypeError], an [Exception] like any other to [load_config]. *)
Definition TypeError (what : string) : exn := OtherException what.

(** [key in config] for a string [key]: membership in a [dict], equality
    with an element of a [list], substring of a [str]; the other values are
    not iterable. *)
Definition contains (config : json) (key : string) : result bool :=
  match config with
  | JObject members => Ok (dict_mem key members)
  | JArray items =>
      Ok (existsb (fun item => match item with
                               | JString s => String.eqb s key
                               | _ => false
                               end) items)
  | JString s => Ok (is_substring key s)
  | JNull => Raise (TypeError "argument of type 'NoneType' is not iterable")
  | JBool _ => Raise (TypeError "argument of type 'bool' is not iterable")
  | JNumber _ => Raise (TypeError "argument of type 'int' is not iterable")
  end.

(** [config[key] = value] for a string [key]. *)
Definition setitem (config : json) (key : string) (value : json) : result json :=
  match config with
  | JObject members => Ok (JObject (dict_set key value members))
  | JArray _ => Raise (TypeError "list indices must be integers or slices, not str")
  | _ => Raise (TypeError "object does not support item assignment")
  end.

(** An operation on values in memory, as a step of a run. *)
Definition lift {A} (r : result A) : M A := fun w => (r, w).

Section WithEnv.
Variable E : Env.

(** [with open(p, "r") as f: json.load(f)], [os.makedirs(p, exist_ok=True)]
    and [with open(p, "w") as f: json.dump(config, f)]: any computation,
    which may raise. *)
Variable read_json : path -> M json.
Variable makedirs : path -> M unit.
Variable write_json : path -> json -> M unit.

Definition config_dir : path := path_join (env_home E) ".audio_transcriber".
Definition config_path : path := path_join config_dir "config.json".

Definition default_items : list (string * json) :=
  [("last_used_dir", JString (env_home E));
   ("default_output_dir", JString (env_home E));
   ("auto_detect_files", JBool true);
   ("auto_install_deps", JBool true)]%string.

Definition default_config : json := JObject default_items.

(** [save_config(config)] *)
Definition save_config (config : json) : M unit :=
  makedirs config_dir ;;
  write_json config_path config.

(** [for key, value in default_config.items(): if key not in config:
    config[key] = value] *)
Fixpoint merge_defaults (items : list (string * json)) (config : json) : M json :=
  match items with
  | [] => ret config
  | (key, value) :: rest =>
      present <- lift (contains config key) ;;
      config <- (if negb present then lift (setitem config key value)
                 else ret config) ;;
      merge_defaults rest config
  end.

(** [load_config()] *)
Definition load_config : M json :=
  present <- path_exists E config_path ;;
  if present then
    try_except
      (config <- read_json config_path ;;
       merge_defaults default_items config)
      (fun _ => ret default_config)
  else ret default_config.

End WithEnv.

(** All the keys of the defaults are in [config], as [key in config] sees
    it. *)
Definition has_all_keys (E : Env) (config : json) : bool :=
  forallb (fun key => match contains config key with
                      | Ok present => present
                      | Raise _ => false
                      end)
          (map fst (default_items E)).

End Config.

(** A configuration file that switches the dependency check off. *)
Definition sample_config : Config.json :=
  Config.JObject [("auto_install_deps", Config.JBool false);
                  ("theme", Config.JString "dark")]%string.

(** ** Checking and installing the dependencies ([check_dependencies]) *)

Module Deps.

(** The exceptions of this part of the programs.  [SystemExit] is raised
    by [sys.exit]. *)
Inductive failure :=
| CalledProcessError (cmd : list string) (status : Z)
| FileNotFoundError (cmd : list string)
| ImportError (what : string)
| SystemExit (status : Z).

(** What the function does, in order: messages, commands with the answer
    of the operating system, questions to the file system, the imports. *)
Inductive action :=
| Print (s : string)
| Status (s : string)
| Run (cmd : list string) (answer : option Z)
| Exists (p : path) (b : bool)
| Import (answer : option string).

(** The machine the program runs on.  A command answers with its exit
    status, or not at all when its executable cannot be found; the imports
    of [speech_recognition] and [pydub] succeed or raise [ImportError].
    One call of [check_dependencies] runs no command twice and asks about no
    path twice, so the answers need not depend on what happened before. *)
Record Host := {
  system : string;
  executable : string;
  run : list string -> option Z;
  path_exists : path -> bool;
  import_libraries : option string
}.

Definition D (A : Type) : Type := list action -> (A + failure) * list action.

Definition ret {A} (a : A) : D A := fun log => (inl a, log).

Definition bind {A B} (m : D A) (k : A -> D B) : D B :=
  fun log =>
    match m log with
    | (inl a, log') => k a log'
    | (inr e, log') => (inr e, log')
    end.

Definition raise {A} (e : failure) : D A := fun log => (inr e, log).

(** [try: body except ...: handler]: the handler of an exception the
    [except] clauses name, [None] for the others, which propagate. *)
Definition try_catching {A} (body : D A) (handler : failure -> option (D A)) : D A :=
  fun log =>
    match body log with
    | (inl a, log') => (inl a, log')
    | (inr e, log') =>
        match handler e with
        | Some h => h log'
        | None => (inr e, log')
        end
    end.

Declare Scope deps_scope.
Delimit Scope deps_scope with deps.
Notation "x <- c1 ;; c2" := (bind c1 (fun x => c2))
  (at level 61, c1 at next level, right associativity) : deps_scope.
Notation "c1 ;; c2" := (bind c1 (fun _ => c2))
  (at level 61, right associativity) : deps_scope.

Definition emit (a : action) : D unit := fun log => (inl tt, (log ++ [a])%list).

Definition print (s : string) : D unit := emit (Print s).

(** [sys.exit(status)] *)
Definition sys_exit {A} (status : Z) : D A := raise (SystemExit status).

(** [except subprocess.CalledProcessError:] and
    [except (subprocess.CalledProcessError, FileNotFoundError):] *)
Definition on_called_process_error {A} (h : D A) (e : failure) : option (D A) :=
  match e with
  | CalledProcessError _ _ => Some h
  | _ => None
  end.

Definition on_process_error {A} (h : D A) (e : failure) : option (D A) :=
  match e with
  | CalledProcessError _ _ | FileNotFoundError _ => Some h
  | _ => None
  end.

Definition dq : string := String (ascii_of_nat 34) EmptyString.

Section WithHost.
Variable H : Host.

Local Open Scope string_scope.
Local Open Scope deps_scope.

(** [subprocess.check_call(cmd, ...)]: a status other than zero raises
    [CalledProcessError]. *)
Definition check_call (cmd : list string) : D unit :=
  fun log =>
    let answer := run H cmd in
    (match answer with
     | Some status =>
         if (status =? 0)%Z then inl tt else inr (CalledProcessError cmd status)
     | None => inr (FileNotFoundError cmd)
     end, (log ++ [Run cmd answer])%list).

(** [subprocess.call(cmd)]: the status is returned. *)
Definition call (cmd : list string) : D Z :=
  fun log =>
    let answer := run H cmd in
    (match answer with
     | Some status => inl status
     | None => inr (FileNotFoundError cmd)
     end, (log ++ [Run cmd answer])%list).

Definition os_path_exists (p : path) : D bool :=
  fun log => let b := path_exists H p in (inl b, (log ++ [Exists p b])%list).

(** [import speech_recognition as sr; from pydub import ...] *)
Definition import_all : D unit :=
  fun log =>
    (match import_libraries H with
     | None => inl tt
     | Some what => inr (ImportError what)
     end, (log ++ [Import (import_libraries H)])%list).

Definition pip_version : list string := [executable H; "-m"; "pip"; "--version"].
Definition pip_install : list string :=
  [executable H; "-m"; "pip"; "install"; "SpeechRecognition"; "pydub"].
Definition ffmpeg_version : list string := ["ffmpeg"; "-version"].
Definition apt_update : list string := ["sudo"; "apt"; "update"].
Definition apt_install : list string := ["sudo"; "apt"; "install"; "-y"; "ffmpeg"].
Definition dnf_install : list string := ["sudo"; "dnf"; "install"; "-y"; "ffmpeg"].
Definition pacman_install : list string :=
  ["sudo"; "pacman"; "-S"; "--noconfirm"; "ffmpeg"].
Definition brew_version : list string := ["brew"; "--version"].
Definition brew_install : list string := ["brew"; "install"; "ffmpeg"].

(** [check_dependencies()] of [audio_transcriber.py] *)
Definition cli_check_dependencies : D unit :=
  let system := lower (system H) in
  try_catching
    (check_call pip_version)
    (on_called_process_error
       (print "Error: pip is not installed. Please install pip first." ;;
        sys_exit 1)) ;;
  print "Installing required Python packages..." ;;
  try_catching
    (check_call pip_install)
    (on_called_process_error
       (print "Error installing Python dependencies. Please try manually:" ;;
        print "pip install SpeechRecognition pydub" ;;
        sys_exit 1)) ;;
  print "Checking for FFmpeg..." ;;
  ffmpeg_installed <-
    try_catching (check_call ffmpeg_version ;; ret true)
                 (on_process_error (ret false)) ;;
  if negb ffmpeg_installed then
    print "FFmpeg not found. Attempting to install FFmpeg..." ;;
    if String.eqb system "linux" then
      apt <- os_path_exists "/usr/bin/apt" ;;
      if apt then
        print "Detected Debian/Ubuntu system" ;;
        call apt_update ;;
        call apt_install ;;
        ret tt
      else
        dnf <- os_path_exists "/usr/bin/dnf" ;;
        if dnf then
          print "Detected Fedora/RHEL system" ;;
          call dnf_install ;;
          ret tt
        else
          pacman <- os_path_exists "/usr/bin/pacman" ;;
          if pacman then
            print "Detected Arch Linux system" ;;
            call pacman_install ;;
            ret tt
          else
            print "Could not detect package manager. Please install FFmpeg manually."
    else if String.eqb system "darwin" then
      try_catching
        (check_call brew_version ;;
         print "Installing FFmpeg via Homebrew..." ;;
         call brew_install ;;
         ret tt)
        (on_process_error
           (print "Homebrew not found. Please install Homebrew and then FFmpeg manually:" ;;
            print ("  /bin/bash -c " ++ dq
                   ++ "$(curl -fsSL https://raw.githubusercontent.com/Homebrew/install/HEAD/install.sh)"
                   ++ dq) ;;
            print "  brew install ffmpeg"))
    else if String.eqb system "windows" then
      print "On Windows, please download FFmpeg from https://ffmpeg.org/download.html" ;;
      print "and add it to your PATH environment variable."
    else
      print ("Unsupported OS: " ++ system ++ ". Please install FFmpeg manually.")
  else ret tt.

(** Whether a [status_callback] was passed. *)
Variable status_callback : bool.

(** [if status_callback: status_callback(message)] *)
Definition status (message : string) : D unit :=
  if status_callback then emit (Status message) else ret tt.

(** [check_dependencies(status_callback=None)] of
    [audio_transcriber_gui.py] *)
Definition gui_check_dependencies : D bool :=
  status "Checking system dependencies..." ;;
  let system := lower (system H) in
  pip <- try_catching
           (check_call pip_version ;; ret true)
           (on_called_process_error
              (status "Error: pip is not installed. Please install pip first." ;;
               ret false)) ;;
  if negb pip then ret false else
  status "Installing required Python packages..." ;;
  installed <- try_catching
                 (check_call pip_install ;; ret true)
                 (on_called_process_error
                    (status "Error installing Python dependencies. Please install manually." ;;
                     ret false)) ;;
  if negb installed then ret false else
  status "Checking for FFmpeg..." ;;
  ffmpeg_installed <-
    try_catching (check_call ffmpeg_version ;; ret true)
                 (on_process_error (ret false)) ;;
  proceed <-
    (if negb ffmpeg_installed then
       status "FFmpeg not found. Attempting to install FFmpeg..." ;;
       if String.eqb system "linux" then
         apt <- os_path_exists "/usr/bin/apt" ;;
         if apt then
           status "Detected Ubuntu/Debian. Installing FFmpeg..." ;;
           call apt_update ;;
           call apt_install ;;
           ret true
         else
           dnf <- os_path_exists "/usr/bin/dnf" ;;
           if dnf then
             status "Detected Fedora/RHEL. Installing FFmpeg..." ;;
             call dnf_install ;;
             ret true
           else
             pacman <- os_path_exists "/usr/bin/pacman" ;;
             if pacman then
               status "Detected Arch Linux. Installing FFmpeg..." ;;
               call pacman_install ;;
               ret true
             else
               status "Could not detect package manager. Please install FFmpeg manually." ;;
               ret false
       else if String.eqb system "darwin" then
         try_catching
           (check_call brew_version ;;
            status "Installing FFmpeg via Homebrew..." ;;
            call brew_install ;;
            ret true)
           (on_process_error
              (status "Homebrew not found. Please install Homebrew and then FFmpeg manually." ;;
               ret false))
       else if String.eqb system "windows" then
         status "On Windows, please download FFmpeg from https://ffmpeg.org/download.html" ;;
         status "and add it to your PATH environment variable." ;;
         ret false
       else
         status ("Unsupported OS: " ++ system ++ ". Please install FFmpeg manually.") ;;
         ret false
     else ret true) ;;
  if negb proceed then ret false else
  try_catching
    (import_all ;;
     status "All dependencies installed successfully!" ;;
     ret true)
    (fun e => match e with
              | ImportError what =>
                  Some (status ("Error loading Python libraries: " ++ what) ;;
                        ret false)
              | _ => None
              end).

End WithHost.

(** The commands of a log, in order. *)
Fixpoint commands (log : list action) : list (list string) :=
  match log with
  | [] => []
  | Run cmd _ :: rest => cmd :: commands rest
  | _ :: rest => commands rest
  end.

(** The messages of a log that went to the status callback, in order. *)
Fixpoint statuses (log : list action) : list string :=
  match log with
  | [] => []
  | Status s :: rest => s :: statuses rest
  | _ :: rest => statuses rest
  end.

End Deps.

(** ** The desktop application ([AudioTranscriberApp]) *)

Fixpoint all_slashes (s : string) : bool :=
  match s with
  | EmptyString => true
  | String a rest => Ascii.eqb a "/" && all_slashes rest
  end.

(** [s.rstrip('/')] *)
Fixpoint rstrip_slashes (s : string) : string :=
  match s with
  | EmptyString => EmptyString
  | String a rest =>
      match rstrip_slashes rest with
      | EmptyString => if Ascii.eqb a "/" then EmptyString else String a EmptyString
      | r => String a r
      end
  end.

(** [posixpath.dirname]: [i = p.rfind('/') + 1; head = p[:i]]; trailing
    separators are stripped unless [head] is made of separators only. *)
Definition dirname (p : path) : string :=
  let head := str_take (Z.to_nat (rfind "/" p + 1)) p in
  if truthy head && negb (all_slashes head) then rstrip_slashes head else head.

Module App.

(** The state of the widgets the methods read and write: the two entry
    fields, the state of the button, the progress bar, and the text of the
    log pane. *)
Record Widgets := {
  file_path_var : string;
  output_path_var : string;
  transcribe_button_disabled : bool;
  progress_running : bool;
  log_text : string
}.

(** What a worker hands to the interface thread with [root.after]:
    [self._transcription_complete], or the closure
    [lambda: self._transcription_error(str(e), traceback.format_exc())],
    which holds the name [e] of the handler it was made in. *)
Inductive callback :=
| TranscriptionComplete
| TranscriptionError (e : exn).

Local Open Scope string_scope.

(** The state of a window that was just set up: the button is disabled
    until the dependencies are there. *)
Definition initial : Widgets := {|
  file_path_var := "";
  output_path_var := "";
  transcribe_button_disabled := true;
  progress_running := false;
  log_text := ""
|}.

(** [update_status(message)]: [log_text.insert(tk.END, message + "\n")] *)
Definition update_status (message : string) (app : Widgets) : Widgets := {|
  file_path_var := file_path_var app;
  output_path_var := output_path_var app;
  transcribe_button_disabled := transcribe_button_disabled app;
  progress_running := progress_running app;
  log_text := log_text app ++ message ++ nl
|}.

(** A run of calls of [update_status], in order. *)
Definition update_statuses (messages : list string) (app : Widgets) : Widgets :=
  fold_left (fun a message => update_status message a) messages app.

(** [enable_controls()] *)
Definition enable_controls (app : Widgets) : Widgets := {|
  file_path_var := file_path_var app;
  output_path_var := output_path_var app;
  transcribe_button_disabled := false;
  progress_running := progress_running app;
  log_text := log_text app
|}.

(** [browse_file()]; [filename] is the answer of the file dialog, empty
    when the dialog was cancelled. *)
Definition browse_file (filename : string) (app : Widgets) : Widgets :=
  if truthy filename then
    let base_name := fst (splitext (basename filename)) in
    let output_path := path_join (dirname filename) (base_name ++ "_transcription.txt") in
    {| file_path_var := filename;
       output_path_var := output_path;
       transcribe_button_disabled := transcribe_button_disabled app;
       progress_running := progress_running app;
       log_text := log_text app |}
  else app.

(** [browse_output()] *)
Definition browse_output (filename : string) (app : Widgets) : Widgets :=
  if truthy filename then
    {| file_path_var := file_path_var app;
       output_path_var := filename;
       transcribe_button_disabled := transcribe_button_disabled app;
       progress_running := progress_running app;
       log_text := log_text app |}
  else app.

(** The messages the status callback received, in order. *)
Fixpoint status_messages (evs : list event) : list string :=
  match evs with
  | [] => []
  | EvStatus s :: rest => s :: status_messages rest
  | _ :: rest => status_messages rest
  end.

(** [_transcription_complete()] *)
Definition transcription_complete (app : Widgets) : Widgets :=
  update_status "Transcription complete!"
    {| file_path_var := file_path_var app;
       output_path_var := output_path_var app;
       transcribe_button_disabled := false;
       progress_running := false;
       log_text := log_text app |}.

(** [_transcription_error(error, traceback_info)] *)
Definition transcription_error (error traceback_info : string) (app : Widgets)
  : Widgets :=
  update_status traceback_info
    (update_status "Technical details:"
       (update_status ("Error during transcription: " ++ error)
          {| file_path_var := file_path_var app;
             output_path_var := output_path_var app;
             transcribe_button_disabled := false;
             progress_running := false;
             log_text := log_text app |})).

(** [NameError], as Python words it for a closure. *)
Definition NameError : exn :=
  OtherException
    "cannot access free variable 'e' where it is not associated with a value in enclosing scope".

(** The interface thread runs a scheduled callback.  The closure
    scheduled after a failure reads [e] when it is run.  Python unbinds the
    name of an [except ... as e] clause when the clause ends, so the closure
    finds it only if the worker is still inside its handler ([e_bound]);
    [traceback.format_exc()] is then evaluated on the interface thread, which
    handles no exception, and gives [NoneType: None].  Otherwise the closure
    raises [NameError], which Tk reports on standard error before it goes
    on; the widgets are as they were.  The result is the state of the
    widgets and the exception Tk reported, if any. *)
Definition run_callback (e_bound : bool) (c : callback) (app : Widgets)
  : Widgets * option exn :=
  match c with
  | TranscriptionComplete => (transcription_complete app, None)
  | TranscriptionError e =>
      if e_bound then (transcription_error (str e) ("NoneType: None" ++ nl) app, None)
      else (app, Some NameError)
  end.

Section WithEnv.
Variable E : Env.

Local Open Scope run_scope.

(** [start_transcription()]: the new state of the widgets, and the
    arguments of the worker thread if one is started. *)
Definition start_transcription (app : Widgets)
  : M (Widgets * option (path * option path)) :=
  let audio_path := file_path_var app in
  let output_path :=
    if truthy (output_path_var app) then Some (output_path_var app) else None in
  if negb (truthy audio_path) then
    ret (update_status "Error: No audio file selected." app, None)
  else
    present <- path_exists E audio_path ;;
    if negb present then
      ret (update_status ("Error: File does not exist: " ++ audio_path) app, None)
    else
      ret ({| file_path_var := file_path_var app;
              output_path_var := output_path_var app;
              transcribe_button_disabled := true;
              progress_running := true;
              log_text := "" |},
           Some (audio_path, output_path)).

(** [_run_transcription(audio_path, output_path)], the body of the worker
    thread: [transcribe_audio] is given [self.update_status] as callback, so
    every status message of the run is appended to the log; the method
    catches every exception and schedules one of the two callbacks. *)
Definition run_transcription (audio_path : path) (output_path : option path)
           (app : Widgets) : M (Widgets * callback) :=
  fun w =>
    let '(r, w') := Gui.transcribe_audio E true audio_path output_path w in
    let said := status_messages (skipn (length (trace w)) (trace w')) in
    (Ok (update_statuses said app,
         match r with
         | Ok _ => TranscriptionComplete
         | Raise e => TranscriptionError e
         end), w').

(** A click on the button, with what follows from it: the worker, if one
    is started, runs up to [root.after], and the interface thread runs the
    callback the worker scheduled, before or after the worker has left its
    handler ([e_bound]). *)
Definition transcribe_clicked (e_bound : bool) (app : Widgets)
  : M (Widgets * option exn) :=
  started <- start_transcription app ;;
  let '(app, thread) := started in
  match thread with
  | None => ret (app, None)
  | Some (audio_path, output_path) =>
      finished <- run_transcription audio_path output_path app ;;
      let '(app, c) := finished in
      ret (run_callback e_bound c app)
  end.

End WithEnv.

(** [init_dependencies()], the body of the thread the constructor starts:
    the final state of the widgets, and the exception that ended the thread
    if [check_dependencies] raised one. *)
Definition init_dependencies (H : Deps.Host) (app : Widgets)
  : Widgets * option Deps.failure :=
  let app := update_status "Checking dependencies..." app in
  let '(success, log) := Deps.gui_check_dependencies H true [] in
  let app := update_statuses (Deps.statuses log) app in
  match success with
  | inl true => (enable_controls (update_status "Ready to transcribe audio." app), None)
  | inl false =>
      (update_status "Failed to initialize dependencies. See log for details." app,
       None)
  | inr e => (app, Some e)
  end.

End App.

(** The output path [start_transcription] passes on. *)
Definition passed_output (app : App.Widgets) : option path :=
  if truthy (App.output_path_var app) then Some (App.output_path_var app) else None.

(** The state in which [start_transcription] leaves the widgets when it
    starts a worker. *)
Definition started (app : App.Widgets) : App.Widgets := {|
  App.file_path_var := App.file_path_var app;
  App.output_path_var := App.output_path_var app;
  App.transcribe_button_disabled := true;
  App.progress_running := true;
  App.log_text := ""
|}.

(** The text of the log pane after these calls of [update_status] on an
    empty pane. *)
Fixpoint log_lines (messages : list string) : string :=
  match messages with
  | [] => EmptyString
  | message :: rest => (message ++ nl ++ log_lines rest)%string
  end.

(** A host with everything in place, and a Linux host without ffmpeg and
    without [sudo]. *)
Definition host_ready : Deps.Host := {|
  Deps.system := "Linux";
  Deps.executable := "/usr/bin/python3";
  Deps.run := fun _ => Some 0%Z;
  Deps.path_exists := fun _ => true;
  Deps.import_libraries := None
|}.

Definition host_without_sudo : Deps.Host := {|
  Deps.system := "Linux";
  Deps.executable := "/usr/bin/python3";
  Deps.run := fun cmd =>
                match cmd with
                | "sudo"%string :: _ => None
                | "ffmpeg"%string :: _ => None
                | _ => Some 0%Z
                end;
  Deps.path_exists := fun _ => true;
  Deps.import_libraries := None
|}.

(** ** What reaches the outer handler *)

(** Silence detection raised [e]. *)
Definition split_raised (e : exn) (ev : event) : Prop :=
  exists sound m t, ev = EvSplit sound m t (Raise e).

(** An event other than a failure of silence detection and the traceback
    of the outer handler. *)
Definition is_contained (ev : event) : bool :=
  match ev with
  | EvSplit _ _ _ (Raise _) | EvTraceback _ => false
  | _ => true
  end.

(** A contained event that is neither a write of the transcript nor a
    copy. *)
Definition is_routine (ev : event) : bool := is_contained ev && is_plain ev.

(** The world after silence detection raised [e] in a run that was routine
    since [t0]. *)
Definition escaped (t0 : history) (e : exn) (w : World) : Prop :=
  exists w0 ev,
    inv t0 (fun ev => is_routine ev = true) (fun _ => True) w0
    /\ split_raised e ev /\ w = extend w0 [ev].

(** The two courses of a job: every failure was contained, or silence
    detection raised and the outer handler reported it and cleaned up. *)
Definition job_course (evs : list event) : Prop :=
  Forall (fun ev => is_contained ev = true) evs
  \/ exists before ev e s1 s2 rest,
       evs = before ++ ev :: EvPrint s1 :: EvPrint s2 :: EvTraceback e :: rest
       /\ split_raised e ev
       /\ Forall (fun ev => is_routine ev = true) before
       /\ Forall (fun ev => is_routine ev = true) rest.

(** Silence detection fails. *)
Definition env_split_fails : Env :=
  with_split (fun _ _ _ => Raise (OtherException "out of memory")) env_ok.

(** ** Failures of external calls *)

(** The exception the call of an event raised, if it raised. *)
Definition raised (ev : event) : option exn :=
  match ev with
  | EvGetsize _ (Raise e) | EvFromFile _ (Raise e) | EvFromWav _ (Raise e)
  | EvExport _ _ (Raise e) | EvFfmpeg _ _ (Raise e) | EvRename _ _ (Raise e)
  | EvRemove _ (Raise e) | EvSplit _ _ _ (Raise e) | EvRecord _ (Raise e)
  | EvRecognizeGoogle _ _ (Raise e) | EvRecognizeSphinx _ _ (Raise e)
  | EvWriteFile _ _ (Raise e) | EvCopy _ _ (Raise e) => Some e
  | _ => None
  end.

(** The recognition service answered with one of the two errors the
    desktop program handles: [sr.UnknownValueError], [sr.RequestError]. *)
Definition no_result (ev : event) : bool :=
  match ev with
  | EvRecognizeGoogle _ _ (Raise (UnknownValueError _))
  | EvRecognizeGoogle _ _ (Raise (RequestError _)) => true
  | _ => false
  end.

(** A call that did not raise, or raised one of these two. *)
Definition is_tolerated (ev : event) : bool :=
  match raised ev with
  | None => true
  | Some _ => no_result ev
  end.

(** The world after a call raised [e], other than the two handled errors,
    in a run whose calls were tolerated since [t0]. *)
Definition stopped (t0 : history) (T : list path -> Prop) (e : exn) (w : World)
  : Prop :=
  exists w0 ev,
    inv t0 (fun ev => is_tolerated ev = true) T w0
    /\ raised ev = Some e /\ no_result ev = false /\ w = extend w0 [ev].

(** ** What a run has done so far *)

(** Since the trace was [t0] the run decoded [c] waveforms, attempted the
    writes [ws] and received the texts [ts]. *)
Definition tally (t0 : history) (c : nat) (ws : list (path * string * bool))
           (ts : list string) (w : World) : Prop :=
  exists evs,
    trace w = t0 ++ evs
    /\ count_passes evs = c /\ write_attempts evs = ws /\ recognized_texts evs = ts.

(** An event that is no decoding of a waveform, no write and no text
    received. *)
Definition is_neutral (ev : event) : bool :=
  match ev with
  | EvFromWav _ _ | EvWriteFile _ _ _
  | EvRecognizeGoogle _ _ (Ok _) | EvRecognizeSphinx _ _ (Ok _) => false
  | _ => true
  end.

(** A Debian host without ffmpeg on which the installation fails: [apt]
    answers with status 100. *)
Definition host_apt_fails : Deps.Host := {|
  Deps.system := "Linux";
  Deps.executable := "/usr/bin/python3";
  Deps.run := fun cmd =>
                match cmd with
                | "sudo"%string :: _ => Some 100%Z
                | "ffmpeg"%string :: _ => None
                | _ => Some 0%Z
                end;
  Deps.path_exists := fun _ => true;
  Deps.import_libraries := None
|}.

(** ** Tactics for running the model *)

(** Symbolic execution of a run: unfold the monad, then split on the
    answers of the environment, keeping messages folded. *)
Ltac unfold_run :=
  unfold bind, try_except, call, ask, print, log, ret, raise,
         get_temp_files, set_temp_files;
  cbn beta iota zeta delta [trace temp_files extend fst snd negb andb orb].

Ltac unfold_prims :=
  unfold time_time, platform_system, isdir, isfile, glob, path_exists, getsize,
         from_file, from_wav, export, ffmpeg, rename, remove, split_on_silence,
         record_file, recognize_google, recognize_sphinx, write_file, copy2.

Ltac case_run :=
  match goal with
  | |- context [if ?b then _ else _] => destruct b eqn:?
  | |- context [match ?x with Ok _ => _ | Raise _ => _ end] => destruct x eqn:?
  | |- context [match ?e with UnknownValueError _ => _ | _ => _ end] => destruct e
  end; cbn beta iota zeta delta [trace temp_files extend fst snd negb andb orb].

(** Membership in the files still tracked after concrete events;
    [in_without] is the characterisation of [without]. *)
Ltac solve_pending in_without :=
  intros;
  repeat match goal with
         | H : In _ (pending _ _) |- _ => cbn [pending track] in H
         | H : In _ (without _ _) |- _ => apply in_without in H; destruct H as [H ?]
         | H : In _ (_ :: _) |- _ => destruct H as [<-|H]
         | H : In _ [] |- _ => destruct H
         end;
  try congruence; auto.
(** ** Basic facts *)

Lemma extend_extend w a b : extend (extend w a) b = extend w (a ++ b).
Proof. unfold extend; simpl. now rewrite app_assoc. Qed.

Lemma extend_nil w : extend w [] = w.
Proof. destruct w; unfold extend; simpl. now rewrite app_nil_r. Qed.

Lemma endswith_unfold s suffix :
  endswith s suffix =
  if String.eqb s suffix then true
  else match s with
       | EmptyString => false
       | String _ rest => endswith rest suffix
       end.
Proof. destruct s; reflexivity. Qed.

Lemma endswith_refl s : endswith s s = true.
Proof. rewrite endswith_unfold. now rewrite String.eqb_refl. Qed.

Lemma endswith_app a b : endswith (a ++ b)%string b = true.
Proof.
  induction a as [|c a IH].
  - apply endswith_refl.
  - rewrite endswith_unfold. cbn [append]. rewrite IH.
    now destruct (String.eqb (String c (a ++ b)%string) b).
Qed.

Lemma string_app_assoc (a b c : string) : ((a ++ b) ++ c = a ++ b ++ c)%string.
Proof. induction a; simpl; congruence. Qed.

Lemma string_app_nil_r (a : string) : (a ++ "")%string = a.
Proof. induction a; simpl; congruence. Qed.

Lemma converted_name_ends_with_wav s :
  endswith (s ++ "_converted.wav")%string ".wav" = true.
Proof.
  change "_converted.wav"%string with ("_converted" ++ ".wav")%string.
  rewrite <- string_app_assoc. apply endswith_app.
Qed.

(** ** The format normalizer *)

Lemma cli_convert_to_wav_run E audio_path w :
  exists p evs,
    Cli.convert_to_wav E audio_path w = (Ok p, extend w evs)
    /\ (endswith p ".wav" = true \/ p = audio_path)
    /\ (endswith audio_path ".wav" = true -> p = audio_path /\ evs = [])
    /\ (endswith audio_path ".wav" = false ->
        (p = audio_path <-> conversion_succeeded evs = false)).
Proof.
  unfold Cli.convert_to_wav.
  destruct (endswith audio_path ".wav") eqn:Hwav.
  - exists audio_path, []. rewrite extend_nil. unfold ret.
    repeat split; auto; discriminate.
  - assert (Hne : (fst (splitext (basename audio_path)) ++ "_converted.wav")%string
                  <> audio_path).
    { intros Heq. rewrite <- Heq in Hwav.
      rewrite converted_name_ends_with_wav in Hwav. discriminate. }
    pose proof (converted_name_ends_with_wav (fst (splitext (basename audio_path))))
      as Hout.
    set (output_path := (fst (splitext (basename audio_path)) ++ "_converted.wav")%string)
      in *.
    unfold_prims. unfold_run.
    repeat case_run; repeat rewrite extend_extend; cbn [app];
      do 2 eexists; (split; [reflexivity|]);
      (split; [auto | split; [discriminate | intros _; split;
        [ intros Hp; try reflexivity; congruence
        | intros Hc; try discriminate Hc; reflexivity ]]]).
Qed.

Lemma gui_convert_to_wav_run E cb audio_path w :
  (exists p evs,
      Gui.convert_to_wav E cb audio_path w = (Ok p, extend w evs)
      /\ endswith p ".wav" = true
      /\ (endswith audio_path ".wav" = true -> p = audio_path /\ evs = []))
  \/ (exists e evs,
         Gui.convert_to_wav E cb audio_path w = (Raise e, extend w evs)
         /\ endswith audio_path ".wav" = false
         /\ decoding_failed audio_path e evs).
Proof.
  unfold Gui.convert_to_wav, decoding_failed.
  destruct (endswith audio_path ".wav") eqn:Hwav.
  - left. exists audio_path, []. rewrite extend_nil. unfold ret. auto.
  - pose proof (converted_name_ends_with_wav (fst (splitext (basename audio_path))))
      as Hout.
    unfold Gui.status. unfold_prims. unfold_run.
    destruct cb; repeat case_run; repeat rewrite extend_extend; cbn [app];
      first [ left; do 2 eexists; split; [reflexivity|]; split; [exact Hout|discriminate]
            | right; do 2 eexists; split; [reflexivity|]; split; [reflexivity|];
              cbn [In]; eauto 10 ].
Qed.

(** C1 (as corrected).  The command-line normalizer never raises: it
    returns a path that ends in [.wav] or the path it was given; it returns
    the given path at once when that path already ends in [.wav], and
    otherwise exactly when neither the library conversion nor the ffmpeg
    conversion succeeded.  The desktop normalizer has the same shortcut and
    the same result when the library conversion works, but has no fallback:
    a decoding or export failure is raised to its caller. *)
Theorem convert_to_wav_outcomes :
  forall (E : Env) (audio_path : path) (w : World),
    (exists p evs,
        Cli.convert_to_wav E audio_path w = (Ok p, extend w evs)
        /\ (endswith p ".wav" = true \/ p = audio_path)
        /\ (endswith audio_path ".wav" = true -> p = audio_path /\ evs = [])
        /\ (endswith audio_path ".wav" = false ->
            (p = audio_path <-> conversion_succeeded evs = false)))
    /\ (forall cb,
          (exists p evs,
              Gui.convert_to_wav E cb audio_path w = (Ok p, extend w evs)
              /\ endswith p ".wav" = true
              /\ (endswith audio_path ".wav" = true -> p = audio_path /\ evs = []))
          \/ (exists e evs,
                 Gui.convert_to_wav E cb audio_path w = (Raise e, extend w evs)
                 /\ endswith audio_path ".wav" = false
                 /\ decoding_failed audio_path e evs)).
Proof.
  intros E audio_path w. split.
  - apply cli_convert_to_wav_run.
  - intros cb. apply gui_convert_to_wav_run.
Qed.

(** C1, the claim as stated fails on the desktop normalizer: with a file
    that cannot be decoded it raises instead of returning a path. *)
Lemma gui_convert_to_wav_raises :
  fst (Gui.convert_to_wav env_undecodable true "talk.mp3" world0)
  = Raise (OtherException "could not decode").
Proof. reflexivity. Qed.
(** ** The segmenter *)

Section FixedWindows.
Variable step : nat.
Hypothesis step_pos : 0 < step.

Lemma range_step_concat (sound : AudioSegment) fuel start :
  length sound - start <= fuel ->
  concat (map (fun i => slice sound i (i + step))
              (range_step fuel start (length sound) step)) = skipn start sound.
Proof.
  revert start. induction fuel as [|fuel IH]; intros start Hfuel; simpl.
  - symmetry. apply skipn_all2. lia.
  - destruct (Nat.ltb_spec start (length sound)) as [Hlt|Hge]; simpl.
    + rewrite IH by lia. unfold slice.
      replace (start + step - start) with step by lia.
      rewrite Nat.add_comm, <- skipn_skipn. apply firstn_skipn.
    + symmetry. apply skipn_all2. lia.
Qed.

Lemma range_step_length fuel start stop :
  stop - start <= fuel ->
  length (range_step fuel start stop step) = (stop - start + (step - 1)) / step.
Proof.
  revert start. induction fuel as [|fuel IH]; intros start Hfuel; simpl.
  - replace (stop - start) with 0 by lia. simpl. symmetry. apply Nat.div_small. lia.
  - destruct (Nat.ltb_spec start stop) as [Hlt|Hge]; simpl.
    + rewrite IH by lia.
      destruct (Nat.le_gt_cases step (stop - start)) as [Hbig|Hsmall].
      * replace (stop - start + (step - 1))
          with ((stop - (start + step) + (step - 1)) + 1 * step) by lia.
        rewrite Nat.div_add by lia. lia.
      * replace (stop - (start + step)) with 0 by lia. simpl.
        rewrite (Nat.div_small (step - 1)) by lia.
        apply (Nat.div_unique _ _ 1 (stop - start - 1)); lia.
    + replace (stop - start) with 0 by lia. simpl. symmetry. apply Nat.div_small. lia.
Qed.

Lemma range_step_nth fuel start stop k :
  stop - start <= fuel ->
  k < length (range_step fuel start stop step) ->
  nth k (range_step fuel start stop step) 0 = start + k * step.
Proof.
  revert start k. induction fuel as [|fuel IH]; intros start k Hfuel Hk; simpl in *.
  - lia.
  - destruct (Nat.ltb_spec start stop) as [Hlt|Hge]; simpl in *; [|lia].
    destruct k as [|k]; [lia|].
    rewrite IH by lia. lia.
Qed.

Lemma range_step_bound fuel start stop :
  Forall (fun i => i < stop) (range_step fuel start stop step).
Proof.
  revert start. induction fuel as [|fuel IH]; intros start; simpl; [constructor|].
  destruct (Nat.ltb_spec start stop); constructor; auto.
Qed.

Lemma fixed_length_chunks_concat sound :
  concat (fixed_length_chunks sound step) = sound.
Proof.
  unfold fixed_length_chunks, py_range. rewrite range_step_concat by lia. reflexivity.
Qed.

Lemma fixed_length_chunks_length sound :
  length (fixed_length_chunks sound step) = (length sound + (step - 1)) / step.
Proof.
  unfold fixed_length_chunks, py_range. rewrite length_map, range_step_length by lia.
  now rewrite Nat.sub_0_r.
Qed.

Lemma fixed_length_chunks_nth sound k :
  k < length (fixed_length_chunks sound step) ->
  nth k (fixed_length_chunks sound step) [] = slice sound (k * step) (k * step + step).
Proof.
  unfold fixed_length_chunks, py_range. rewrite length_map. intros Hk.
  rewrite (nth_indep _ [] (slice sound 0 (0 + step))) by now rewrite length_map.
  rewrite (map_nth (fun i => slice sound i (i + step))).
  rewrite range_step_nth by lia. reflexivity.
Qed.

Lemma slice_length sound i j :
  length (slice sound i j) = Nat.min (j - i) (length sound - i).
Proof. unfold slice. now rewrite length_firstn, length_skipn. Qed.

Lemma fixed_length_chunks_sizes sound :
  Forall (fun c => 0 < length c <= step) (fixed_length_chunks sound step).
Proof.
  unfold fixed_length_chunks, py_range. apply Forall_map.
  eapply Forall_impl; [|apply range_step_bound].
  intros i Hi. cbn beta in *. rewrite slice_length. lia.
Qed.

Lemma ceiling_bounds n :
  0 < n ->
  step * ((n + (step - 1)) / step - 1) < n <= step * ((n + (step - 1)) / step).
Proof.
  intros Hn.
  pose proof (Nat.div_mod_eq (n + (step - 1)) step) as Hdm.
  pose proof (Nat.mod_upper_bound (n + (step - 1)) step ltac:(lia)) as Hub.
  nia.
Qed.

End FixedWindows.

Lemma chunk_length_ms_pos : 0 < chunk_length_ms.
Proof. apply Nat.ltb_lt. vm_compute. reflexivity. Qed.

Lemma cli_split_with_retry_run E sound m t w :
  exists r evs,
    Cli.split_with_retry E sound m t w = (r, extend w evs)
    /\ match env_split_on_silence E sound m t with
       | Raise e => r = Raise e /\ split_requests evs = [(m, t)]
       | Ok chunks =>
           if length chunks <? 2 then
             split_requests evs = [(m, t); (300, -35)%Z]
             /\ match env_split_on_silence E sound 300 (-35) with
                | Raise e => r = Raise e
                | Ok alt_chunks =>
                    r = Ok (if length chunks <? length alt_chunks
                            then alt_chunks else chunks)
                end
           else split_requests evs = [(m, t)] /\ r = Ok chunks
       end
    /\ Forall (fun e => match e with EvPrint _ | EvSplit _ _ _ _ => True | _ => False end) evs.
Proof.
  unfold Cli.split_with_retry. unfold_prims. unfold_run.
  destruct (env_split_on_silence E sound m t) as [chunks|e];
    cbn beta iota zeta delta [trace temp_files extend fst snd negb andb orb].
  - destruct (length chunks <? 2);
      cbn beta iota zeta delta [trace temp_files extend fst snd negb andb orb].
    + destruct (env_split_on_silence E sound 300 (-35)) as [alt|e];
        cbn beta iota zeta delta [trace temp_files extend fst snd negb andb orb].
      * destruct (length chunks <? length alt);
          cbn beta iota zeta delta [trace temp_files extend fst snd negb andb orb];
          repeat rewrite extend_extend; cbn [app]; do 2 eexists;
          (split; [reflexivity|]); (split; [split; reflexivity|]);
          repeat constructor.
      * repeat rewrite extend_extend; cbn [app]; do 2 eexists;
          (split; [reflexivity|]); (split; [split; reflexivity|]); repeat constructor.
    + repeat rewrite extend_extend; cbn [app]; do 2 eexists;
        (split; [reflexivity|]); (split; [split; reflexivity|]); repeat constructor.
  - repeat rewrite extend_extend; cbn [app]; do 2 eexists;
      (split; [reflexivity|]); (split; [split; reflexivity|]); repeat constructor.
Qed.

Lemma cli_segment_run E sound m t w :
  exists r evs,
    Cli.segment E sound m t w = (r, extend w evs)
    /\ (exists r0 evs0 tail,
           Cli.split_with_retry E sound m t w = (r0, extend w evs0)
           /\ evs = evs0 ++ tail
           /\ Forall (fun e => match e with EvPrint _ => True | _ => False end) tail
           /\ match r0 with
              | Ok [] => r = Ok (fixed_length_chunks sound chunk_length_ms)
              | _ => r = r0
              end)
    /\ Forall (fun e => match e with EvPrint _ | EvSplit _ _ _ _ => True | _ => False end) evs.
Proof.
  destruct (cli_split_with_retry_run E sound m t w) as (r0 & evs0 & Hrun & _ & Hev).
  unfold Cli.segment, bind. rewrite Hrun.
  destruct r0 as [[|c cs]|e]; unfold_run.
  - rewrite extend_extend. do 2 eexists. split; [reflexivity|]. split.
    + exists (Ok []), evs0. eexists. repeat split; repeat constructor.
    + apply Forall_app; split; [exact Hev | repeat constructor].
  - exists (Ok (c :: cs)), evs0. split; [reflexivity|]. split; [|exact Hev].
    exists (Ok (c :: cs)), evs0, []. rewrite app_nil_r. repeat split; constructor.
  - exists (Raise e), evs0. split; [reflexivity|]. split; [|exact Hev].
    exists (Raise e), evs0, []. rewrite app_nil_r. repeat split; constructor.
Qed.

Lemma gui_segment_run E cb sound m t w :
  exists r evs,
    Gui.segment E cb sound m t w = (r, extend w evs)
    /\ split_requests evs = [(m, t)]
    /\ match env_split_on_silence E sound m t with
       | Raise e => r = Raise e
       | Ok [] => r = Ok [sound]
       | Ok chunks => r = Ok chunks
       end.
Proof.
  unfold Gui.segment, Gui.status. unfold_prims. unfold_run.
  destruct cb; destruct (env_split_on_silence E sound m t) as [[|c cs]|e];
    cbn beta iota zeta delta [trace temp_files extend fst snd negb andb orb];
    repeat rewrite extend_extend; cbn [app]; do 2 eexists;
    (split; [reflexivity|]); split; reflexivity.
Qed.

(** C2 (as corrected).  When silence detection finds no segment in a
    non-empty waveform, the command-line segmenter cuts it into windows of
    30000 ms: ceiling(len / 30000) slices, the k-th slice being the k-th
    window, each slice non-empty, their concatenation the waveform itself.
    The desktop segmenter instead returns the whole waveform as one slice. *)
Theorem fixed_window_fallback :
  forall (E : Env) (sound : AudioSegment) (m t : Z) (w : World),
    sound <> [] ->
    env_split_on_silence E sound m t = Ok [] ->
    env_split_on_silence E sound 300 (-35) = Ok [] ->
    (exists chunks evs,
        Cli.segment E sound m t w = (Ok chunks, extend w evs)
        /\ chunks = fixed_length_chunks sound chunk_length_ms
        /\ chunk_length_ms = 30000
        /\ length chunks = (length sound + (chunk_length_ms - 1)) / chunk_length_ms
        /\ chunk_length_ms * (length chunks - 1) < length sound
           <= chunk_length_ms * length chunks
        /\ 1 <= length chunks
        /\ concat chunks = sound
        /\ Forall (fun c => 0 < length c <= chunk_length_ms) chunks
        /\ (forall k, k < length chunks ->
                      nth k chunks [] = slice sound (k * chunk_length_ms)
                                              (k * chunk_length_ms + chunk_length_ms)))
    /\ (forall cb, exists evs,
           Gui.segment E cb sound m t w = (Ok [sound], extend w evs)).
Proof.
  intros E sound m t w Hne H1 H2. split.
  - destruct (cli_segment_run E sound m t w)
      as (r & evs & Hrun & (r0 & evs0 & tail & Hsplit & _ & _ & Hr) & _).
    destruct (cli_split_with_retry_run E sound m t w) as (r0' & evs0' & Hsplit' & Hm & _).
    rewrite Hsplit in Hsplit'. injection Hsplit' as <- _.
    rewrite H1 in Hm. cbn in Hm. rewrite H2 in Hm. destruct Hm as [_ ->]. cbn in Hr.
    subst r. exists (fixed_length_chunks sound chunk_length_ms), evs.
    pose proof chunk_length_ms_pos as Hpos.
    assert (Hlen : 0 < length sound) by (destruct sound; [congruence | simpl; lia]).
    pose proof (fixed_length_chunks_length chunk_length_ms Hpos sound) as Hcount.
    pose proof (ceiling_bounds chunk_length_ms Hpos (length sound) Hlen) as Hceil.
    rewrite <- Hcount in Hceil.
    repeat split; auto; try apply Hceil.
    + destruct (length (fixed_length_chunks sound chunk_length_ms)); [|lia].
      destruct Hceil as [_ Hc]. lia.
    + apply fixed_length_chunks_concat, Hpos.
    + apply fixed_length_chunks_sizes, Hpos.
    + intros k Hk. apply fixed_length_chunks_nth; assumption.
  - intros cb. destruct (gui_segment_run E cb sound m t w) as (r & evs & Hrun & _ & Hr).
    rewrite H1 in Hr. subst r. exists evs. exact Hrun.
Qed.

(** C2, the witness: a minute of speech without a pause is cut into three
    windows. *)
Lemma fixed_window_fallback_witness :
  exists chunks evs,
    Cli.segment env_continuous_speech minute_of_sound 500 (-40) world0
    = (Ok chunks, extend world0 evs)
    /\ length chunks = 3.
Proof.
  destruct (fixed_window_fallback env_continuous_speech minute_of_sound 500 (-40) world0)
    as [(chunks & evs & Hrun & _ & _ & Hlen & _) _].
  - intros H.
    assert (Hb : match minute_of_sound with [] => false | _ :: _ => true end = true)
      by (vm_compute; reflexivity).
    rewrite H in Hb. discriminate Hb.
  - reflexivity.
  - reflexivity.
  - exists chunks, evs. split; [exact Hrun|]. rewrite Hlen. vm_compute. reflexivity.
Defined.

(** C2, the claim as stated fails on the desktop segmenter: the same
    minute of speech comes back as a single slice, where the ceiling of
    61 s / 30 s is three. *)
Lemma gui_segment_single_slice :
  exists chunks,
    fst (Gui.segment env_continuous_speech true minute_of_sound 500 (-40) world0)
    = Ok chunks
    /\ length chunks = 1
    /\ (length minute_of_sound + 29999) / 30000 = 3.
Proof.
  exists [minute_of_sound]. split; [reflexivity|]. split; [reflexivity|].
  vm_compute. reflexivity.
Qed.

(** C6 (as corrected).  On the command line, a first split with fewer than
    two slices is followed by one retry with the fixed thresholds 300 ms and
    -35 dBFS (shorter and less strict than the defaults 500 ms and -40 dBFS,
    and the very thresholds of the job's relaxed second pass); the retry's
    slices are adopted exactly when they are strictly more, otherwise the
    first slices are kept.  A first split with two slices or more is not
    retried.  The desktop segmenter never retries. *)
Theorem silence_retry_policy :
  forall (E : Env) (sound : AudioSegment) (m t : Z) (w : World)
         (chunks : list AudioSegment),
    env_split_on_silence E sound m t = Ok chunks ->
    (length chunks < 2 ->
     forall alt_chunks,
       env_split_on_silence E sound 300 (-35) = Ok alt_chunks ->
       exists r evs,
         Cli.split_with_retry E sound m t w = (Ok r, extend w evs)
         /\ split_requests evs = [(m, t); (300, -35)%Z]
         /\ (length chunks < length alt_chunks -> r = alt_chunks)
         /\ (length alt_chunks <= length chunks -> r = chunks))
    /\ (2 <= length chunks ->
        exists evs,
          Cli.split_with_retry E sound m t w = (Ok chunks, extend w evs)
          /\ split_requests evs = [(m, t)])
    /\ (300 < 500 /\ -40 < -35)%Z
    /\ (forall cb, exists r evs,
           Gui.segment E cb sound m t w = (Ok r, extend w evs)
           /\ split_requests evs = [(m, t)]
           /\ r = match chunks with [] => [sound] | _ :: _ => chunks end).
Proof.
  intros E sound m t w chunks Hsplit.
  destruct (cli_split_with_retry_run E sound m t w) as (r & evs & Hrun & Hm & _).
  rewrite Hsplit in Hm.
  split; [|split; [|split]].
  - intros Hfew alt Halt.
    apply Nat.ltb_lt in Hfew. rewrite Hfew in Hm. destruct Hm as [Hreq Hr].
    rewrite Halt in Hr. subst r. do 2 eexists. split; [exact Hrun|].
    split; [exact Hreq|]. split; intros Hcmp.
    + apply Nat.ltb_lt in Hcmp. now rewrite Hcmp.
    + apply Nat.ltb_ge in Hcmp. now rewrite Hcmp.
  - intros Hmany. apply Nat.ltb_ge in Hmany. rewrite Hmany in Hm.
    destruct Hm as [Hreq ->]. eauto.
  - lia.
  - intros cb. destruct (gui_segment_run E cb sound m t w) as (r' & evs' & Hrun' & Hreq & Hr).
    rewrite Hsplit in Hr.
    destruct chunks; subst r'; do 2 eexists; (split; [exact Hrun'|]); auto.
Qed.

(** C6, the witness: one slice at the default thresholds, three at the
    retry's, and the three are adopted. *)
Lemma silence_retry_policy_witness :
  exists evs,
    Cli.split_with_retry env_short_pauses [1; 2; 3]%Z 500 (-40) world0
    = (Ok [[1]; [2]; [3]]%Z, extend world0 evs)
    /\ split_requests evs = [(500, -40); (300, -35)]%Z.
Proof.
  destruct (silence_retry_policy env_short_pauses [1; 2; 3]%Z 500 (-40) world0
              [[1; 2; 3]%Z] eq_refl) as [Hretry _].
  destruct (Hretry ltac:(simpl; lia) [[1]; [2]; [3]]%Z eq_refl)
    as (r & evs & Hrun & Hreq & Hadopt & _).
  exists evs. rewrite <- (Hadopt ltac:(simpl; lia)). auto.
Defined.

(** C6, the claim as stated fails on the desktop segmenter: the first split
    yields one slice, the thresholds of the retry would yield three, and the
    segmenter asks once and keeps the one slice. *)
Lemma gui_segment_never_retries :
  fst (Gui.segment env_short_pauses true [1; 2; 3]%Z 500 (-40) world0)
  = Ok [[1; 2; 3]%Z]
  /\ env_split_on_silence env_short_pauses [1; 2; 3]%Z 300 (-35)
     = Ok [[1]; [2]; [3]]%Z
  /\ split_requests
       (trace (snd (Gui.segment env_short_pauses true [1; 2; 3]%Z 500 (-40) world0)))
     = [(500, -40)%Z].
Proof. repeat split. Qed.
(** ** The recognition dispatcher *)

Lemma cli_recognize_chunk_run E i n chunk full_text w :
  exists ft r0 tail,
    Cli.recognize_chunk E i n chunk full_text w
    = (Ok ft, extend w (EvExport (padded chunk) (chunk_filename i) r0 :: tail))
    /\ Forall (fun e => is_dispatch_event e = true) tail
    /\ ft = (full_text ++ spaced (recognized_texts tail))%string
    /\ length (recognized_texts tail) <= 1
    /\ (secondary_attempted tail = true <-> primary_reported_failure tail).
Proof.
  unfold Cli.recognize_chunk, primary_reported_failure. unfold_prims. unfold_run.
  repeat case_run; repeat rewrite extend_extend; cbn [app];
    do 3 eexists; (split; [reflexivity|]);
    (split; [repeat constructor|]);
    (split; [cbn [recognized_texts spaced fold_right];
             try rewrite string_app_nil_r; reflexivity|]);
    (split; [cbn [recognized_texts length]; lia|]);
    cbn [secondary_attempted existsb primary_outcome orb];
    (split; [intros Hs; try discriminate Hs; eauto
            | intros (m & [Hm|Hm]); try discriminate Hm; reflexivity]).
Qed.



(** ** The loop over segments and the transcript *)

Lemma recognized_texts_app a b :
  recognized_texts (a ++ b) = recognized_texts a ++ recognized_texts b.
Proof.
  induction a as [|e a IH]; [reflexivity|].
  destruct e; cbn [app recognized_texts]; auto; destruct r; cbn [app]; congruence.
Qed.


Lemma spaced_app a b : spaced (a ++ b) = (spaced a ++ spaced b)%string.
Proof.
  induction a as [|t a IH]; [reflexivity|].
  cbn [app spaced fold_right]. fold (spaced (a ++ b)). fold (spaced a).
  rewrite IH. now rewrite !string_app_assoc.
Qed.

Lemma spaced_join t ts :
  spaced (t :: ts) = (String.concat " " (t :: ts) ++ " ")%string.
Proof.
  revert t. induction ts as [|t' ts IH]; intros t.
  - reflexivity.
  - change (spaced (t :: t' :: ts)) with (t ++ " " ++ spaced (t' :: ts))%string.
    change (String.concat " " (t :: t' :: ts))
      with (t ++ " " ++ String.concat " " (t' :: ts))%string.
    rewrite IH. now rewrite !string_app_assoc.
Qed.

Lemma rstrip_app_space s : rstrip (s ++ " ") = rstrip s.
Proof.
  induction s as [|c s IH]; [reflexivity|].
  cbn [append rstrip]. now rewrite IH.
Qed.

Lemma strip_spaced texts : strip (spaced texts) = strip (String.concat " " texts).
Proof.
  destruct texts as [|t ts]; [reflexivity|].
  rewrite spaced_join. unfold strip. now rewrite rstrip_app_space.
Qed.

Lemma cli_for_chunks_run E n :
  forall chunks i full_text files w,
  exists ft blocks,
    Cli.for_chunks E n i chunks full_text files w
    = (Ok (ft, files ++ map chunk_filename (seq i (length chunks))),
       extend w (concat blocks))
    /\ chunk_blocks i chunks blocks
    /\ ft = (full_text ++ spaced (recognized_texts (concat blocks)))%string.
Proof.
  induction chunks as [|chunk chunks IH]; intros i full_text files w.
  - exists full_text, []. cbn [Cli.for_chunks length seq map concat].
    rewrite extend_nil, app_nil_r. unfold ret. cbn [recognized_texts spaced fold_right].
    rewrite string_app_nil_r. repeat split. constructor.
  - cbn [Cli.for_chunks]. unfold bind.
    destruct (cli_recognize_chunk_run E i n chunk full_text w)
      as (ft1 & r0 & tail & Hrun & Hdisp & Hft1 & Hlen & _).
    rewrite Hrun.
    destruct (IH (S i) ft1 (files ++ [chunk_filename i])
                 (extend w (EvExport (padded chunk) (chunk_filename i) r0 :: tail)))
      as (ft & blocks & Hrest & Hblocks & Hft).
    rewrite Hrest, extend_extend.
    exists ft, ((EvExport (padded chunk) (chunk_filename i) r0 :: tail) :: blocks).
    split; [|split].
    + cbn [length seq map concat]. now rewrite <- app_assoc.
    + constructor; assumption.
    + cbn [concat]. rewrite recognized_texts_app. cbn [recognized_texts].
      rewrite spaced_app, <- string_app_assoc. now rewrite <- Hft1.
Qed.

Lemma cli_remove_chunk_files_run E :
  forall files w,
  exists blocks,
    Cli.remove_chunk_files E files w = (Ok tt, extend w (concat blocks))
    /\ Forall2 (removal_block chunk_warning) files blocks.
Proof.
  induction files as [|f files IH]; intros w.
  - exists []. cbn. rewrite extend_nil. split; [reflexivity|constructor].
  - cbn [Cli.remove_chunk_files]. unfold_prims. unfold_run.
    repeat case_run;
      repeat match goal with u : unit |- _ => destruct u end;
      repeat rewrite extend_extend; cbn [app];
      match goal with
      | |- context [Cli.remove_chunk_files E files ?w'] =>
          destruct (IH w') as (blocks & Hrun & Hblocks); rewrite Hrun
      end;
      rewrite extend_extend;
      eexists (_ :: blocks); (split; [cbn [concat]; reflexivity|]);
      constructor; try assumption.
    + apply removal_done.
    + apply (removal_failed chunk_warning f e).
    + apply removal_absent.
Qed.

(** ** Temporary files along a trace *)

Lemma pending_app a b left : pending (a ++ b) left = pending b (pending a left).
Proof. revert left. induction a as [|e a IH]; intros left; cbn; auto. Qed.

Lemma pending_inert evs left :
  Forall (fun e => is_inert e = true) evs -> pending evs left = left.
Proof.
  intros H. revert left. induction H as [|e evs He _ IH]; intros left; [reflexivity|].
  cbn [pending]. rewrite IH.
  destruct e; try reflexivity; cbn in He |- *;
    repeat match goal with
           | r : result _ |- _ => destruct r
           | b : bool |- _ => destruct b
           end; try discriminate He; reflexivity.
Qed.

Lemma in_without q p l : In q (without p l) <-> In q l /\ q <> p.
Proof.
  induction l as [|x l IH]; cbn [without In].
  - tauto.
  - destruct (String.eqb_spec p x) as [->|Hne]; cbn [In]; rewrite IH.
    + split; [tauto|]. intros [[->|H] Hq]; [congruence|tauto].
    + split.
      * intros [->|[H Hq]]; [split; [tauto|congruence]|tauto].
      * tauto.
Qed.

Lemma dispatch_events_inert tail :
  Forall (fun e => is_dispatch_event e = true) tail ->
  Forall (fun e => is_inert e = true) tail.
Proof.
  apply Forall_impl. intros e He. destruct e; try discriminate He; reflexivity.
Qed.

Lemma pending_chunk_blocks i chunks blocks :
  chunk_blocks i chunks blocks ->
  forall left q,
    In q (pending (concat blocks) left) ->
    In q left \/ In q (map chunk_filename (seq i (length chunks))).
Proof.
  induction 1 as [i|i chunk chunks r0 tail blocks Hdisp _ _ IH]; intros left q Hq.
  - left. exact Hq.
  - cbn [concat] in Hq. rewrite pending_app in Hq. cbn [app pending] in Hq.
    rewrite (pending_inert tail) in Hq by now apply dispatch_events_inert.
    apply IH in Hq. cbn [length seq map In].
    destruct Hq as [Hq|Hq]; [|tauto].
    destruct r0; cbn [track] in Hq; [|tauto].
    destruct Hq as [<-|Hq]; [tauto|]. apply in_without in Hq. tauto.
Qed.

Lemma pending_removal_block warning f block left :
  removal_block warning f block -> pending block left = without f left.
Proof.
  intros [| |e]; try reflexivity.
  destruct (warning f e); reflexivity.
Qed.

Lemma pending_removal_blocks warning files blocks :
  Forall2 (removal_block warning) files blocks ->
  forall left q,
    In q (pending (concat blocks) left) -> In q left /\ ~ In q files.
Proof.
  induction 1 as [|f block files blocks Hblock _ IH]; intros left q Hq.
  - cbn in Hq. tauto.
  - cbn [concat] in Hq. rewrite pending_app in Hq.
    rewrite (pending_removal_block _ _ _ _ Hblock) in Hq.
    apply IH in Hq. destruct Hq as [Hq Hnot]. apply in_without in Hq.
    cbn [In]. intuition congruence.
Qed.

Lemma pending_in_creates :
  forall after left p,
    In p left ->
    pending after left = [] ->
    exists e', In e' after /\ removal_attempt e' p.
Proof.
  induction after as [|e after IH]; intros left p Hin Hnil.
  - cbn in Hnil. subst left. destruct Hin.
  - cbn [pending] in Hnil.
    assert (Hcases : removal_attempt e p \/ In p (track e left)).
    { unfold removal_attempt.
      destruct e; cbn [track]; auto;
        repeat match goal with
               | r : result _ |- _ => destruct r
               | b : bool |- _ => destruct b
               end; auto;
        match goal with
        | |- _ \/ In p (?q :: without ?q left) =>
            right; destruct (String.eqb_spec p q) as [->|Hne];
            [left; reflexivity | right; apply in_without; auto]
        | |- _ \/ In p (without ?q left) =>
            destruct (String.eqb_spec p q) as [->|Hne];
            [left; eauto | right; apply in_without; auto]
        end. }
    destruct Hcases as [Hrem|Htrack].
    + exists e. split; [left; reflexivity|exact Hrem].
    + destruct (IH _ _ Htrack Hnil) as (e' & Hin' & Hrem).
      exists e'. split; [right; exact Hin'|exact Hrem].
Qed.

Lemma pending_nil_cleaned_up evs : pending evs [] = [] -> cleaned_up evs.
Proof.
  intros Hnil before e after p -> Hcreates.
  rewrite pending_app in Hnil. cbn [pending] in Hnil.
  apply (pending_in_creates after (track e (pending before []))); [|exact Hnil].
  destruct Hcreates as [(a & ->)|(src & ->)]; cbn [track]; left; reflexivity.
Qed.

(** ** One pass of the segmenter and dispatcher *)

Lemma count_passes_app a b : count_passes (a ++ b) = count_passes a + count_passes b.
Proof.
  induction a as [|e a IH]; [reflexivity|].
  destruct e; cbn [app count_passes]; rewrite IH; reflexivity.
Qed.

Lemma cli_load_sound_run E audio_path w :
  exists r evs,
    Cli.load_sound E audio_path w = (Ok r, extend w evs)
    /\ count_passes evs = 1
    /\ Forall (load_event audio_path) evs.
Proof.
  unfold Cli.load_sound. unfold_prims. unfold_run.
  repeat case_run; repeat rewrite extend_extend; cbn [app];
    do 2 eexists; (split; [reflexivity|]);
    (split; [reflexivity | repeat constructor]).
Qed.

Lemma load_events_quiet p evs :
  Forall (load_event p) evs ->
  recognized_texts evs = [] /\ Forall (fun e => is_inert e = true) evs
  /\ Forall (pass_event p) evs.
Proof.
  induction 1 as [|e evs He _ (IH1 & IH2 & IH3)]; [repeat split; constructor|].
  destruct e; try contradiction; cbn [recognized_texts];
    (split; [exact IH1|]); (split; constructor; auto).
Qed.

Lemma segment_events_quiet p evs :
  Forall segment_event evs ->
  recognized_texts evs = [] /\ Forall (fun e => is_inert e = true) evs
  /\ Forall (pass_event p) evs /\ count_passes evs = 0.
Proof.
  induction 1 as [|e evs He _ (IH1 & IH2 & IH3 & IH4)]; [repeat split; constructor|].
  destruct e; try contradiction; cbn [recognized_texts count_passes];
    (split; [exact IH1|]); (split; [constructor; auto|]);
    (split; [constructor; auto; exact I | exact IH4]).
Qed.

Lemma chunk_blocks_events wav i chunks blocks :
  chunk_blocks i chunks blocks ->
  Forall (pass_event wav) (concat blocks) /\ count_passes (concat blocks) = 0.
Proof.
  induction 1 as [i|i chunk chunks r0 tail blocks Hdisp _ _ (IH1 & IH2)].
  - split; [constructor|reflexivity].
  - cbn [concat app]. split.
    + constructor; [exact I|]. apply Forall_app. split; [|exact IH1].
      revert Hdisp. apply Forall_impl. intros e He.
      destruct e; try discriminate He; exact I.
    + cbn [count_passes]. rewrite count_passes_app, IH2, Nat.add_0_r.
      clear - Hdisp. induction Hdisp as [|e tail He _ IH]; [reflexivity|].
      destruct e; try discriminate He; exact IH.
Qed.

Lemma removal_blocks_events warning wav files blocks :
  Forall2 (removal_block warning) files blocks ->
  Forall (pass_event wav) (concat blocks)
  /\ count_passes (concat blocks) = 0
  /\ recognized_texts (concat blocks) = [].
Proof.
  induction 1 as [|f block files blocks Hblock _ (IH1 & IH2 & IH3)].
  - repeat split. constructor.
  - cbn [concat]. rewrite count_passes_app, recognized_texts_app, IH2, IH3.
    destruct Hblock as [| |e]; try destruct (warning f e);
      (split; [apply Forall_app; split; [repeat constructor|exact IH1]|]);
      (split; reflexivity).
Qed.

Lemma cli_transcribe_large_audio_run E wav m t w :
  exists r evs,
    Cli.transcribe_large_audio E wav m t w = (r, extend w evs)
    /\ count_passes evs = 1
    /\ Forall (pass_event wav) evs
    /\ (forall left, incl (pending evs left) left)
    /\ (forall text, r = Ok text ->
                     text = strip (String.concat " " (recognized_texts evs))).
Proof.
  unfold Cli.transcribe_large_audio, bind.
  destruct (cli_load_sound_run E wav w) as (loaded & evs1 & Hload & Hcount & Hev1).
  rewrite Hload.
  destruct (load_events_quiet _ _ Hev1) as (Hq1 & Hi1 & Hp1).
  destruct loaded as [sound|].
  - destruct (cli_segment_run E sound m t (extend w evs1))
      as (r2 & evs2 & Hseg & _ & Hev2).
    rewrite Hseg, extend_extend.
    destruct (segment_events_quiet wav _ Hev2) as (Hq2 & Hi2 & Hp2 & Hc2).
    destruct r2 as [chunks|e].
    + unfold_run. rewrite extend_extend.
      match goal with
      | |- context [Cli.for_chunks E ?n 0 chunks ?ft0 ?fl ?w'] =>
          destruct (cli_for_chunks_run E n chunks 0 ft0 fl w')
            as (ft & blocks & Hloop & Hblocks & Hft)
      end.
      rewrite Hloop, extend_extend.
      cbn beta iota zeta delta [trace temp_files extend fst snd app].
      match goal with
      | |- context [Cli.remove_chunk_files E ?fl ?w'] =>
          destruct (cli_remove_chunk_files_run E fl w') as (rblocks & Hrem & Hrblocks)
      end.
      rewrite Hrem, extend_extend.
      destruct (chunk_blocks_events wav _ _ _ Hblocks) as (Hp3 & Hc3).
      destruct (removal_blocks_events _ wav _ _ Hrblocks) as (Hp4 & Hc4 & Hq4).
      do 2 eexists. split; [reflexivity|].
      split; [|split; [|split]].
      * rewrite !count_passes_app, Hcount, Hc2, Hc3, Hc4. reflexivity.
      * repeat (apply Forall_app; split); auto. repeat constructor.
      * intros left q Hq.
        rewrite !pending_app in Hq.
        apply (pending_removal_blocks _ _ _ Hrblocks) in Hq. destruct Hq as [Hq Hnot].
        apply (pending_chunk_blocks _ _ _ Hblocks) in Hq.
        destruct Hq as [Hq|Hq]; [|contradiction].
        cbn [pending track] in Hq.
        now rewrite (pending_inert evs2), (pending_inert evs1) in Hq.
      * intros text Htext. injection Htext as <-.
        rewrite !recognized_texts_app, Hq1, Hq2, Hq4. cbn [recognized_texts app].
        rewrite app_nil_r, <- strip_spaced. subst ft. reflexivity.
    + exists (Raise e). eexists. split; [reflexivity|].
      split; [|split; [|split]].
      * rewrite count_passes_app, Hcount, Hc2. reflexivity.
      * apply Forall_app; split; auto.
      * intros left. rewrite pending_app, (pending_inert evs1), (pending_inert evs2) by auto.
        apply incl_refl.
      * discriminate.
  - unfold ret. exists (Ok ""%string), evs1. split; [reflexivity|].
    split; [exact Hcount|]. split; [exact Hp1|]. split.
    + intros left. rewrite pending_inert by auto. apply incl_refl.
    + intros text Htext. injection Htext as <-. rewrite Hq1. reflexivity.
Qed.


(** ** The stages of the command-line job *)

Lemma cli_convert_to_wav_shape E f w :
  exists wav evs,
    Cli.convert_to_wav E f w = (Ok wav, extend w evs)
    /\ convert_shape f wav evs.
Proof.
  unfold Cli.convert_to_wav, convert_shape.
  destruct (endswith f ".wav") eqn:Hwav.
  - exists f, []. rewrite extend_nil. unfold ret. split; [reflexivity|].
    split; [auto|]. split; [constructor|]. cbn. auto.
  - assert (Hne : converted_name f <> f).
    { intros Heq. rewrite <- Heq in Hwav. unfold converted_name in Hwav.
      rewrite converted_name_ends_with_wav in Hwav. discriminate. }
    fold (converted_name f).
    unfold_prims. unfold_run.
    repeat case_run; repeat rewrite extend_extend; cbn [app];
      do 2 eexists; (split; [reflexivity|]);
      (split; [auto|]); (split; [repeat constructor|]);
      intros left q; cbn [pending track]; intros Hq;
      repeat match goal with
             | H : In _ (_ :: _) |- _ => destruct H as [<-|H]
             | H : In _ (without _ _) |- _ => apply in_without in H; destruct H as [H _]
             end; auto.
Qed.

Lemma cli_transcribe_with_recovery_run E wav w :
  exists r evs,
    Cli.transcribe_with_recovery E wav w = (r, extend w evs)
    /\ recovery_shape wav evs.
Proof.
  unfold Cli.transcribe_with_recovery, recovery_shape. unfold_run.
  fold empty_warning.
  match goal with
  | |- context [Cli.transcribe_large_audio E wav 500 (-40) ?w'] =>
      destruct (cli_transcribe_large_audio_run E wav 500 (-40) w')
        as (r1 & evs1 & Hrun1 & Hc1 & Hp1 & Hpend1 & _)
  end.
  rewrite Hrun1, extend_extend.
  destruct r1 as [first|e].
  - destruct (truthy (strip first));
      cbn beta iota zeta delta [trace temp_files extend fst snd negb].
    + do 2 eexists. split; [reflexivity|].
      split; [constructor; [exact I|exact Hp1]|].
      split; [intros left; cbn [app pending track]; apply Hpend1|].
      left. cbn [app count_passes]. exact Hc1.
    + rewrite extend_extend.
      match goal with
      | |- context [Cli.transcribe_large_audio E wav 300 (-35) ?w'] =>
          destruct (cli_transcribe_large_audio_run E wav 300 (-35) w')
            as (r2 & evs2 & Hrun2 & Hc2 & Hp2 & Hpend2 & _)
      end.
      rewrite Hrun2, extend_extend. do 2 eexists. split; [reflexivity|].
      split; [|split].
      * constructor; [exact I|]. repeat (apply Forall_app; split); auto.
        repeat constructor.
      * intros left. cbn [app pending track]. rewrite !pending_app.
        cbn [pending track]. eapply incl_tran; [apply Hpend2|apply Hpend1].
      * right. split.
        -- cbn [app count_passes]. rewrite !count_passes_app. cbn [count_passes]. lia.
        -- cbn [app]. right. apply in_or_app. left. apply in_or_app. right. now left.
  - do 2 eexists. split; [reflexivity|].
    split; [constructor; [exact I|exact Hp1]|].
    split; [intros left; cbn [app pending track]; apply Hpend1|].
    left. cbn [app count_passes]. exact Hc1.
Qed.

Lemma cli_save_transcription_run E target backup text w :
  exists saved used_backup evs,
    Cli.save_transcription E target backup text w
    = (Ok (saved, used_backup), extend w evs)
    /\ save_shape target backup text saved used_backup evs.
Proof.
  unfold Cli.save_transcription, save_shape. unfold_prims. unfold_run.
  repeat case_run; repeat match goal with u : unit |- _ => destruct u end;
    repeat rewrite extend_extend; cbn [app];
    do 3 eexists; (split; [reflexivity|]); (split; [repeat constructor|]);
    cbn [write_attempts In]; auto 10.
  right; right. repeat split; auto 10.
Qed.

Lemma cli_copy_back_run E used_backup original backup saved w :
  exists final evs,
    Cli.copy_back E used_backup original backup saved w = (Ok final, extend w evs)
    /\ copy_shape used_backup original backup saved final evs.
Proof.
  unfold Cli.copy_back, copy_shape. unfold_prims.
  destruct original as [requested|]; cbn [truthy_opt].
  - destruct (used_backup && truthy requested) eqn:Hcond.
    + unfold_run.
      repeat case_run; repeat match goal with u : unit |- _ => destruct u end;
        repeat rewrite extend_extend; cbn [app];
        do 2 eexists; (split; [reflexivity|]); (split; [repeat constructor|]);
        exists requested; cbn [copy_attempts]; auto.
    + exists saved, []. rewrite extend_nil. unfold ret. repeat split; constructor.
  - rewrite andb_false_r. exists saved, []. rewrite extend_nil. unfold ret.
    repeat split; constructor.
Qed.

Lemma cli_remove_temp_files_run E :
  forall files w,
  exists blocks,
    Cli.remove_temp_files E files w = (Ok tt, extend w (concat blocks))
    /\ Forall2 (removal_block temp_warning) files blocks.
Proof.
  induction files as [|f files IH]; intros w.
  - exists []. cbn. rewrite extend_nil. split; [reflexivity|constructor].
  - cbn [Cli.remove_temp_files]. unfold_prims. unfold_run.
    repeat case_run;
      repeat match goal with u : unit |- _ => destruct u end;
      repeat rewrite extend_extend; cbn [app];
      match goal with
      | |- context [Cli.remove_temp_files E files ?w'] =>
          destruct (IH w') as (blocks & Hrun & Hblocks); rewrite Hrun
      end;
      rewrite extend_extend;
      eexists (_ :: blocks); (split; [cbn [concat]; reflexivity|]);
      constructor; try assumption.
    + apply removal_done.
    + apply (removal_failed temp_warning f e).
    + apply removal_absent.
Qed.

Lemma cli_remove_temp_files_quietly_run E :
  forall files w,
  exists blocks,
    Cli.remove_temp_files_quietly E files w = (Ok tt, extend w (concat blocks))
    /\ Forall2 (removal_block no_warning) files blocks.
Proof.
  induction files as [|f files IH]; intros w.
  - exists []. cbn. rewrite extend_nil. split; [reflexivity|constructor].
  - cbn [Cli.remove_temp_files_quietly]. unfold_prims. unfold_run.
    repeat case_run;
      repeat match goal with u : unit |- _ => destruct u end;
      repeat rewrite extend_extend; cbn [app];
      match goal with
      | |- context [Cli.remove_temp_files_quietly E files ?w'] =>
          destruct (IH w') as (blocks & Hrun & Hblocks); rewrite Hrun
      end;
      rewrite extend_extend;
      eexists (_ :: blocks); (split; [cbn [concat]; reflexivity|]);
      constructor; try assumption.
    + apply removal_done.
    + apply (removal_failed no_warning f e).
    + apply removal_absent.
Qed.


Lemma cli_scan_directory_run E audio_path :
  forall extensions audio_files w,
  exists scan,
    Cli.scan_directory E audio_path extensions audio_files w
    = (Ok (audio_files ++ scan_results scan), extend w scan)
    /\ Forall2 (fun extension e =>
                  exists found,
                    e = EvGlob (path_join audio_path ("*" ++ extension)%string) found)
               extensions scan.
Proof.
  induction extensions as [|extension rest IH]; intros audio_files w.
  - exists []. cbn. rewrite extend_nil, app_nil_r. split; [reflexivity|constructor].
  - cbn [Cli.scan_directory]. unfold_prims. unfold_run.
    match goal with
    | |- context [Cli.scan_directory E audio_path rest ?acc ?w'] =>
        destruct (IH acc w') as (scan & Hrun & Hscan); rewrite Hrun
    end.
    rewrite extend_extend. eexists (EvGlob _ _ :: scan). split.
    + cbn [app scan_results]. now rewrite <- app_assoc.
    + constructor; eauto.
Qed.

Lemma cli_select_input_run E audio_path w :
  exists selected evs,
    Cli.select_input E audio_path w = (Ok selected, extend w evs)
    /\ select_shape audio_path selected evs.
Proof.
  unfold Cli.select_input, select_shape. unfold_prims. unfold_run.
  destruct (env_isdir E (trace w) audio_path);
    cbn beta iota zeta delta [trace temp_files extend fst snd].
  - rewrite extend_extend.
    match goal with
    | |- context [Cli.scan_directory E audio_path ?exts ?acc ?w'] =>
        destruct (cli_scan_directory_run E audio_path exts acc w')
          as (scan & Hrun & Hscan); rewrite Hrun
    end.
    rewrite extend_extend. cbn [app].
    destruct (scan_results scan) as [|first others] eqn:Hres;
      cbn beta iota zeta delta [trace temp_files extend fst snd];
      rewrite extend_extend; do 2 eexists; (split; [reflexivity|]);
      right; do 3 eexists; (split; [cbn [app]; reflexivity|]);
      (split; [exact Hscan|]); rewrite Hres; reflexivity.
  - do 2 eexists. split; [reflexivity|]. left. auto.
Qed.

(** ** The command-line job as a whole *)

Lemma bind_ok {A B} (m : M A) (k : A -> M B) w a w' :
  m w = (Ok a, w') -> bind m k w = k a w'.
Proof. unfold bind. now intros ->. Qed.

Lemma bind_raise {A B} (m : M A) (k : A -> M B) w e w' :
  m w = (Raise e, w') -> bind m k w = (Raise e, w').
Proof. unfold bind. now intros ->. Qed.

Lemma try_ok {A} (m : M A) h w a w' :
  m w = (Ok a, w') -> try_except m h w = (Ok a, w').
Proof. unfold try_except. now intros ->. Qed.

Lemma try_raise {A} (m : M A) h w e w' :
  m w = (Raise e, w') -> try_except m h w = h e w'.
Proof. unfold try_except. now intros ->. Qed.

Lemma cli_normalize_input_run E f w :
  exists wav evs,
    Cli.normalize_input E f w
    = (Ok wav, {| trace := trace w ++ evs; temp_files := temp_files w ++ temps f wav |})
    /\ convert_shape f wav evs.
Proof.
  destruct (cli_convert_to_wav_shape E f w) as (wav & evs & Hrun & Hshape).
  exists wav, evs. split; [|exact Hshape].
  unfold Cli.normalize_input. apply try_ok.
  rewrite (bind_ok _ _ _ _ _ Hrun). unfold temps.
  destruct (String.eqb wav f); cbn [negb]; unfold_run;
    now rewrite ?app_nil_r.
Qed.

Lemma cli_process_file_run E start_time f output_path w :
  exists r evs tf,
    Cli.process_file E start_time f output_path w
    = (r, {| trace := trace w ++ evs; temp_files := tf |})
    /\ file_run E f output_path (temp_files w) r evs tf.
Proof.
  unfold Cli.process_file.
  erewrite bind_ok by reflexivity.
  destruct (env_isfile E (trace w) f); cbn [negb].
  2:{ erewrite bind_ok by reflexivity. unfold ret. unfold extend; cbn [trace temp_files].
      rewrite <- app_assoc. do 3 eexists. split; [reflexivity|constructor]. }
  match goal with
  | |- context [bind (Cli.normalize_input E f) _ ?w'] =>
      destruct (cli_normalize_input_run E f w') as (wav & conv_evs & Hconv & Hcshape)
  end.
  rewrite (bind_ok _ _ _ _ _ Hconv). cbv beta.
  erewrite bind_ok by reflexivity. cbv beta.
  match goal with
  | |- context [bind (Cli.transcribe_with_recovery E wav) _ ?w'] =>
      destruct (cli_transcribe_with_recovery_run E wav w')
        as (rr & rec_evs & Hrec & Hrshape)
  end.
  destruct rr as [text|e].
  - rewrite (bind_ok _ _ _ _ _ Hrec). cbv beta.
    match goal with
    | |- context [bind (Cli.save_transcription E ?tgt ?bk text) _ ?w'] =>
        destruct (cli_save_transcription_run E tgt bk text w')
          as (saved & used_backup & save_evs & Hsave & Hsshape)
    end.
    rewrite (bind_ok _ _ _ _ _ Hsave). cbv beta iota.
    erewrite bind_ok by reflexivity. cbv beta.
    match goal with
    | |- context [bind (Cli.remove_temp_files E ?fl) _ ?w'] =>
        destruct (cli_remove_temp_files_run E fl w') as (blocks & Hrem & Hblocks)
    end.
    rewrite (bind_ok _ _ _ _ _ Hrem). cbv beta.
    erewrite bind_ok by reflexivity. cbv beta.
    erewrite bind_ok by reflexivity. cbv beta.
    match goal with
    | |- context [bind (Cli.copy_back E ?ub ?orig ?bk ?sv) _ ?w'] =>
        destruct (cli_copy_back_run E ub orig bk sv w')
          as (final & copy_evs & Hcopy & Hcopyshape)
    end.
    rewrite (bind_ok _ _ _ _ _ Hcopy). cbv beta. unfold ret.
    unfold extend in *; cbn [trace temp_files] in *.
    repeat rewrite <- app_assoc in *. cbn [app] in *.
    do 3 eexists. split; [reflexivity|].
    eapply file_run_done; eauto.
  - rewrite (bind_raise _ _ _ _ _ Hrec).
    unfold extend in *; cbn [trace temp_files] in *.
    repeat rewrite <- app_assoc in *. cbn [app] in *.
    do 3 eexists. split; [reflexivity|].
    eapply file_run_failed; eauto.
Qed.

Lemma cli_transcribe_audio_run E audio_path output_path w :
  exists r evs tf,
    Cli.transcribe_audio E audio_path output_path w
    = (Ok r, {| trace := trace w ++ evs; temp_files := tf |})
    /\ job_run E audio_path output_path r evs.
Proof.
  unfold Cli.transcribe_audio.
  erewrite bind_ok by reflexivity. cbv beta.
  erewrite bind_ok by reflexivity. cbv beta.
  set (t0 := env_time E (trace w)).
  match goal with
  | |- context [try_except _ _ ?w'] => set (w1 := w')
  end.
  destruct (cli_select_input_run E audio_path w1)
    as (selected & sel_evs & Hsel & Hselshape).
  destruct selected as [f|].
  - destruct (cli_process_file_run E t0 f output_path (extend w1 sel_evs))
      as (r & file_evs & tf & Hfile & Hfshape).
    destruct r as [r|e].
    + erewrite try_ok by (rewrite (bind_ok _ _ _ _ _ Hsel); exact Hfile).
      subst w1. unfold extend in *. cbn [trace temp_files] in *.
      repeat rewrite <- app_assoc in *. cbn [app] in *.
      do 3 eexists. split; [reflexivity|].
      eapply job_run_file; eauto.
    + erewrite try_raise by (rewrite (bind_ok _ _ _ _ _ Hsel); exact Hfile).
      erewrite bind_ok by reflexivity. cbv beta.
      erewrite bind_ok by reflexivity. cbv beta.
      erewrite bind_ok by reflexivity. cbv beta.
      erewrite bind_ok by reflexivity. cbv beta.
      match goal with
      | |- context [bind (Cli.remove_temp_files_quietly E ?fl) _ ?w'] =>
          destruct (cli_remove_temp_files_quietly_run E fl w') as (blocks & Hrem & Hblocks)
      end.
      rewrite (bind_ok _ _ _ _ _ Hrem). cbv beta. unfold ret.
      subst w1. unfold extend in *. cbn [trace temp_files] in *.
      repeat rewrite <- app_assoc in *. cbn [app] in *.
      do 3 eexists. split; [reflexivity|].
      eapply job_run_critical; eauto.
  - erewrite try_ok by (rewrite (bind_ok _ _ _ _ _ Hsel); reflexivity).
    subst w1. unfold extend in *. cbn [trace temp_files] in *.
    repeat rewrite <- app_assoc in *. cbn [app] in *.
    do 3 eexists. split; [reflexivity|].
    apply job_run_nothing_selected. exact Hselshape.
Qed.

(** ** What the shape of a run implies *)

Lemma write_attempts_app a b :
  write_attempts (a ++ b) = write_attempts a ++ write_attempts b.
Proof.
  induction a as [|e a IH]; [reflexivity|].
  destruct e; cbn [app write_attempts]; auto; destruct r; cbn [app]; congruence.
Qed.

Lemma copy_attempts_app a b :
  copy_attempts (a ++ b) = copy_attempts a ++ copy_attempts b.
Proof.
  induction a as [|e a IH]; [reflexivity|].
  destruct e; cbn [app copy_attempts]; auto; destruct r; cbn [app]; congruence.
Qed.

Lemma plain_events evs :
  Forall (fun e => is_plain e = true) evs ->
  write_attempts evs = [] /\ copy_attempts evs = [].
Proof.
  induction 1 as [|e evs He _ [IH1 IH2]]; [split; reflexivity|].
  destruct e; try discriminate He; cbn [write_attempts copy_attempts]; auto.
Qed.


Lemma processing_events evs (R : path -> Prop) :
  Forall (processing_event R) evs ->
  scan_results evs = []
  /\ (forall p b, ~ In (EvIsfile p b) evs)
  /\ (forall p b, ~ In (EvIsdir p b) evs)
  /\ (forall e, ~ In (EvTraceback e) evs)
  /\ (forall e p, In e evs -> audio_input e = Some p -> R p).
Proof.
  induction 1 as [|e evs He _ (IH1 & IH2 & IH3 & IH4 & IH5)].
  - repeat split; try (intros; intros []). intros e p [].
  - split; [destruct e; try contradiction; exact IH1|].
    split; [intros p b [->|Hin]; [exact He|exact (IH2 _ _ Hin)]|].
    split; [intros p b [->|Hin]; [exact He|exact (IH3 _ _ Hin)]|].
    split; [intros x [->|Hin]; [exact He|exact (IH4 _ Hin)]|].
    intros x p [<-|Hin] Hp; [|exact (IH5 _ _ Hin Hp)].
    destruct e; try discriminate Hp; try contradiction;
      injection Hp as <-; exact He.
Qed.

Lemma convert_event_facts f e :
  convert_event f e ->
  processing_event (eq f) e /\ is_plain e = true.
Proof. destruct e; cbn; intros H; try contradiction; auto. Qed.

Lemma pass_event_facts wav e :
  pass_event wav e ->
  processing_event (eq wav) e /\ is_plain e = true.
Proof. destruct e; cbn; intros H; try contradiction; auto. Qed.

Lemma save_event_facts e :
  save_event e ->
  processing_event (fun _ => False) e /\ is_inert e = true /\ copy_attempts [e] = [].
Proof. destruct e; cbn; intros H; try contradiction; auto. Qed.

Lemma copy_event_facts e :
  copy_event e ->
  processing_event (fun _ => False) e /\ is_inert e = true /\ write_attempts [e] = [].
Proof. destruct e; cbn; intros H; try contradiction; auto. Qed.

Lemma removal_blocks_plain warning files blocks :
  Forall2 (removal_block warning) files blocks ->
  Forall (processing_event (fun _ => False)) (concat blocks)
  /\ Forall (fun e => is_plain e = true) (concat blocks).
Proof.
  induction 1 as [|f block files blocks Hblock _ [IH1 IH2]].
  - split; constructor.
  - cbn [concat]. destruct Hblock as [| |e]; try destruct (warning f e);
      (split; apply Forall_app; (split; [repeat constructor|assumption])).
Qed.

Lemma Forall_facts {A} (P Q R : A -> Prop) l :
  (forall x, P x -> Q x /\ R x) -> Forall P l -> Forall Q l /\ Forall R l.
Proof.
  intros H HP. split; (eapply Forall_impl; [|exact HP]); intros x Hx; apply H, Hx.
Qed.

Lemma save_events evs :
  Forall save_event evs ->
  Forall (processing_event (fun _ => False)) evs
  /\ Forall (fun e => is_inert e = true) evs
  /\ copy_attempts evs = [].
Proof.
  induction 1 as [|e evs He _ (IH1 & IH2 & IH3)]; [repeat split; constructor|].
  destruct (save_event_facts e He) as (H1 & H2 & H3).
  repeat split; try (constructor; assumption).
  change (e :: evs) with ([e] ++ evs). now rewrite copy_attempts_app, H3, IH3.
Qed.

Lemma copy_events evs :
  Forall copy_event evs ->
  Forall (processing_event (fun _ => False)) evs
  /\ Forall (fun e => is_inert e = true) evs
  /\ write_attempts evs = [].
Proof.
  induction 1 as [|e evs He _ (IH1 & IH2 & IH3)]; [repeat split; constructor|].
  destruct (copy_event_facts e He) as (H1 & H2 & H3).
  repeat split; try (constructor; assumption).
  change (e :: evs) with ([e] ++ evs). now rewrite write_attempts_app, H3, IH3.
Qed.

Lemma select_scan_events audio_path scan :
  Forall2 (fun extension e =>
             exists found,
               e = EvGlob (path_join audio_path ("*" ++ extension)%string) found)
          Cli.supported_extensions scan ->
  Forall (fun e => is_validation_event e = true) scan
  /\ Forall (fun e => is_inert e = true) scan
  /\ Forall (fun e => is_plain e = true) scan
  /\ (forall e p, In e scan -> audio_input e <> Some p)
  /\ (forall p b, ~ In (EvIsfile p b) scan)
  /\ (forall p b, ~ In (EvIsdir p b) scan)
  /\ (forall e, ~ In (EvTraceback e) scan).
Proof.
  generalize Cli.supported_extensions.
  induction 1 as [|extension e extensions scan (found & ->) _
                   (IH1 & IH2 & IH3 & IH4 & IH5 & IH6 & IH7)].
  - repeat split; try constructor;
      intros; match goal with H : In _ [] |- _ => destruct H | |- ~ _ => intros [] end.
  - repeat split; try (constructor; [reflexivity|assumption]).
    + intros e p [<-|Hin]; [discriminate|exact (IH4 _ _ Hin)].
    + intros p b [Heq|Hin]; [discriminate|exact (IH5 _ _ Hin)].
    + intros p b [Heq|Hin]; [discriminate|exact (IH6 _ _ Hin)].
    + intros e [Heq|Hin]; [discriminate|exact (IH7 _ Hin)].
Qed.

Lemma no_members {A} (l : list A) : (forall x, ~ In x l) -> l = [].
Proof. destruct l as [|a l]; [reflexivity|]. intros H. destruct (H a). now left. Qed.

Lemma temps_member f wav q : q = wav -> wav <> f -> In q (temps f wav).
Proof.
  intros -> Hne. unfold temps.
  destruct (String.eqb_spec wav f); [contradiction|now left].
Qed.

Lemma select_shape_inert audio_path selected evs :
  select_shape audio_path selected evs -> Forall (fun e => is_inert e = true) evs.
Proof.
  intros [[-> _]|(scan & s1 & s2 & -> & Hscan & _)]; [repeat constructor|].
  destruct (select_scan_events _ _ Hscan) as (_ & Hinert & _).
  constructor; [reflexivity|]. constructor; [reflexivity|].
  apply Forall_app. split; [exact Hinert|repeat constructor].
Qed.

Lemma file_run_pending E f output_path r evs tf :
  file_run E f output_path [] r evs tf ->
  match r with
  | Ok _ => pending evs [] = []
  | Raise _ => forall q, In q (pending evs []) -> In q tf
  end.
Proof.
  intros Hrun. inversion Hrun as
    [s
    |wav conv_evs t1 rec_evs e (_ & _ & Hconv) (_ & Hrec & _)
    |wav conv_evs t1 rec_evs text saved used_backup save_evs blocks t2 s copy_evs final
       (_ & _ & Hconv) (_ & Hrec & _) (Hsave & _) Hblocks (Hcopy & _)];
    subst.
  - reflexivity.
  - intros q. cbn [pending track]. rewrite pending_app. cbn [pending track].
    intros Hq. apply Hrec in Hq. apply Hconv in Hq.
    destruct Hq as [[]|[-> Hne]]. cbn [app]. now apply temps_member.
  - cbn [pending track]. rewrite !pending_app. cbn [pending track].
    rewrite !pending_app.
    destruct (save_events _ Hsave) as (_ & Hsi & _).
    destruct (copy_events _ Hcopy) as (_ & Hci & _).
    rewrite (pending_inert save_evs) by exact Hsi.
    cbn [pending track].
    match goal with
    | |- pending copy_evs ?l = [] => assert (Hnil : l = [])
    end.
    { apply no_members. intros q Hq.
      apply (pending_removal_blocks _ _ _ Hblocks) in Hq. destruct Hq as [Hq Hnot].
      apply Hrec in Hq. apply Hconv in Hq.
      destruct Hq as [[]|[-> Hne]]. apply Hnot. cbn [app]. now apply temps_member. }
    rewrite Hnil. now apply pending_inert.
Qed.

Lemma job_run_pending E audio_path output_path r evs :
  job_run E audio_path output_path r evs -> pending evs [] = [].
Proof.
  intros Hrun. inversion Hrun as
    [t0 sel_evs Hsel
    |t0 sel_evs f r' file_evs tf Hsel Hfile
    |t0 sel_evs f e file_evs tf s1 s2 blocks Hsel Hfile Hblocks]; subst;
    cbn [pending track]; pose proof (select_shape_inert _ _ _ Hsel) as Hinert.
  - now apply pending_inert.
  - rewrite pending_app, (pending_inert sel_evs) by exact Hinert.
    exact (file_run_pending _ _ _ _ _ _ Hfile).
  - rewrite !pending_app, (pending_inert sel_evs) by exact Hinert.
    cbn [pending track]. apply no_members. intros q Hq.
    apply (pending_removal_blocks _ _ _ Hblocks) in Hq. destruct Hq as [Hq Hnot].
    apply Hnot. exact (file_run_pending _ _ _ _ _ _ Hfile q Hq).
Qed.

(** ** The desktop job *)

Lemma gui_convert_to_wav_files E cb audio_path w :
  exists r evs,
    Gui.convert_to_wav E cb audio_path w = (r, extend w evs)
    /\ Forall (fun e => is_plain e = true) evs
    /\ (forall wav, r = Ok wav ->
                    forall left q, In q (pending evs left) ->
                                   In q left \/ (q = wav /\ wav <> audio_path)).
Proof.
  unfold Gui.convert_to_wav.
  destruct (endswith audio_path ".wav") eqn:Hwav.
  - exists (Ok audio_path), []. rewrite extend_nil. unfold ret.
    split; [reflexivity|]. split; [constructor|]. cbn. auto.
  - assert (Hne : converted_name audio_path <> audio_path).
    { intros Heq. rewrite <- Heq in Hwav. unfold converted_name in Hwav.
      rewrite converted_name_ends_with_wav in Hwav. discriminate. }
    fold (converted_name audio_path).
    unfold Gui.status. unfold_prims. unfold_run.
    destruct cb; repeat case_run; repeat rewrite extend_extend; cbn [app];
      do 2 eexists; (split; [reflexivity|]); (split; [repeat constructor|]);
      intros wav Hwav'; try discriminate Hwav'; injection Hwav' as <-;
      intros left q Hq; solve_pending in_without.
Qed.

Lemma gui_recognize_chunk_files E cb i n chunk full_text w :
  exists r evs,
    Gui.recognize_chunk E cb i n chunk full_text w = (r, extend w evs)
    /\ Forall (fun e => is_plain e = true) evs
    /\ (forall ft, r = Ok ft -> forall left, incl (pending evs left) left).
Proof.
  unfold Gui.recognize_chunk, Gui.status. unfold_prims. unfold_run.
  destruct cb; repeat case_run;
    repeat match goal with u : unit |- _ => destruct u end;
    repeat rewrite extend_extend; cbn [app];
    do 2 eexists; (split; [reflexivity|]); (split; [repeat constructor|]);
    intros ft Hft; try discriminate Hft; intros left q Hq; solve_pending in_without.
Qed.

Lemma gui_for_chunks_run E cb n :
  forall chunks i full_text w,
  exists r evs,
    Gui.for_chunks E cb n i chunks full_text w = (r, extend w evs)
    /\ Forall (fun e => is_plain e = true) evs
    /\ (forall ft, r = Ok ft -> forall left, incl (pending evs left) left).
Proof.
  induction chunks as [|chunk chunks IH]; intros i full_text w.
  - exists (Ok full_text), []. cbn [Gui.for_chunks]. rewrite extend_nil. unfold ret.
    split; [reflexivity|]. split; [constructor|]. intros _ _ left. apply incl_refl.
  - cbn [Gui.for_chunks].
    destruct (gui_recognize_chunk_files E cb i n chunk full_text w)
      as (r1 & evs1 & Hrun1 & Hplain1 & Hpend1).
    destruct r1 as [ft1|e].
    + rewrite (bind_ok _ _ _ _ _ Hrun1).
      destruct (IH (S i) ft1 (extend w evs1)) as (r & evs & Hrun & Hplain & Hpend).
      rewrite Hrun, extend_extend. do 2 eexists. split; [reflexivity|].
      split; [apply Forall_app; auto|].
      intros ft Hft left. rewrite pending_app.
      eapply incl_tran; [eapply Hpend, Hft | eapply Hpend1; reflexivity].
    + rewrite (bind_raise _ _ _ _ _ Hrun1). do 2 eexists. split; [reflexivity|].
      split; [exact Hplain1|]. discriminate.
Qed.

Lemma gui_transcribe_large_audio_run E cb wav m t w :
  exists r evs,
    Gui.transcribe_large_audio E cb wav m t w = (r, extend w evs)
    /\ Forall (fun e => is_plain e = true) evs
    /\ (forall text, r = Ok text -> forall left, incl (pending evs left) left).
Proof.
  unfold Gui.transcribe_large_audio, Gui.segment, Gui.status.
  unfold_prims. unfold_run.
  destruct cb; repeat case_run; repeat rewrite extend_extend; cbn [app];
    try (do 2 eexists; (split; [reflexivity|]); (split; [repeat constructor|]);
         discriminate);
    match goal with
    | |- context [Gui.for_chunks E ?cb ?n 0 ?cs ?ft ?w'] =>
        destruct (gui_for_chunks_run E cb n cs 0 ft w')
          as (r & evs & Hrun & Hplain & Hpend); rewrite Hrun
    end;
    destruct r as [ft|e];
    cbn beta iota zeta delta [trace temp_files extend fst snd];
    repeat rewrite extend_extend; cbn [app];
    do 2 eexists; (split; [reflexivity|]);
    (split; [repeat (constructor; [reflexivity|]); exact Hplain|]);
    intros text Htext; try discriminate Htext;
    intros left; cbn [pending track]; eapply Hpend; reflexivity.
Qed.

Lemma gui_remove_converted E wav audio_path w :
  exists rr revs,
    (if negb (String.eqb wav audio_path) then remove E wav else ret tt) w
    = (rr, extend w revs)
    /\ Forall (fun e => is_plain e = true) revs
    /\ (forall u, rr = Ok u ->
                  forall left q, In q (pending revs left) ->
                                 In q left /\ (wav <> audio_path -> q <> wav)).
Proof.
  destruct (String.eqb_spec wav audio_path) as [Heq|Hne]; cbn [negb].
  - exists (Ok tt), []. unfold ret. rewrite extend_nil. split; [reflexivity|].
    split; [constructor|]. intros _ _ left q Hq. cbn in Hq. split; [exact Hq|]. congruence.
  - unfold remove, call. do 2 eexists. split; [reflexivity|].
    split; [repeat constructor|]. intros u _ left q Hq. cbn [pending track] in Hq.
    apply in_without in Hq. tauto.
Qed.

Lemma gui_transcribe_audio_run E cb audio_path output_path w :
  exists r evs,
    Gui.transcribe_audio E cb audio_path output_path w = (r, extend w evs)
    /\ length (write_attempts evs) <= 1
    /\ copy_attempts evs = []
    /\ (forall p c, In (p, c, false) (write_attempts evs) ->
                    exists e, r = Raise e /\ In (EvWriteFile p c (Raise e)) evs)
    /\ (forall p, r = Ok p -> pending evs [] = []).
Proof.
  unfold Gui.transcribe_audio.
  erewrite bind_ok by reflexivity. cbv beta.
  match goal with
  | |- context [bind (Gui.convert_to_wav E cb audio_path) _ ?w'] =>
      destruct (gui_convert_to_wav_files E cb audio_path w')
        as (r1 & evs1 & Hrun1 & Hplain1 & Hpend1)
  end.
  destruct (plain_events _ Hplain1) as [Hw1 Hc1].
  destruct r1 as [wav|e].
  2:{ rewrite (bind_raise _ _ _ _ _ Hrun1), extend_extend.
      do 2 eexists. split; [reflexivity|]. cbn [app write_attempts copy_attempts].
      rewrite Hw1, Hc1. repeat split; [cbn; lia | intros p c [] | discriminate]. }
  rewrite (bind_ok _ _ _ _ _ Hrun1). cbv beta.
  assert (Hstatus : forall s w', exists sevs,
             Gui.status cb s w' = (Ok tt, extend w' sevs)
             /\ Forall (fun e => is_plain e = true) sevs
             /\ Forall (fun e => is_inert e = true) sevs).
  { intros s w'. unfold Gui.status. destruct cb.
    - exists [EvStatus s]. repeat split; repeat constructor.
    - exists []. unfold ret. rewrite extend_nil. repeat split; constructor. }
  match goal with
  | |- context [bind (Gui.status cb ?s) _ ?w'] =>
      destruct (Hstatus s w') as (sevs1 & Hs1 & Hsp1 & Hsi1)
  end.
  rewrite (bind_ok _ _ _ _ _ Hs1). cbv beta.
  match goal with
  | |- context [bind (Gui.transcribe_large_audio E cb wav ?m ?t) _ ?w'] =>
      destruct (gui_transcribe_large_audio_run E cb wav m t w')
        as (r2 & evs2 & Hrun2 & Hplain2 & Hpend2)
  end.
  destruct (plain_events _ Hsp1) as [Hws1 Hcs1].
  destruct (plain_events _ Hplain2) as [Hw2 Hc2].
  destruct r2 as [text|e].
  2:{ rewrite (bind_raise _ _ _ _ _ Hrun2), !extend_extend.
      do 2 eexists. split; [reflexivity|]. cbn [app write_attempts copy_attempts].
      rewrite !write_attempts_app, !copy_attempts_app, Hw1, Hc1, Hws1, Hcs1, Hw2, Hc2.
      repeat split; [cbn; lia | intros p c [] | discriminate]. }
  rewrite (bind_ok _ _ _ _ _ Hrun2). cbv beta.
  match goal with
  | |- context [bind (write_file E ?p ?c) _ ?w'] =>
      pose proof (eq_refl : write_file E p c w'
                            = (env_write_file E (trace w') p c,
                               extend w' [EvWriteFile p c (env_write_file E (trace w') p c)]))
        as Hwrite;
      destruct (env_write_file E (trace w') p c) as [[]|e]
  end.
  2:{ rewrite (bind_raise _ _ _ _ _ Hwrite), !extend_extend.
      do 2 eexists. split; [reflexivity|]. cbn [app write_attempts copy_attempts].
      rewrite !write_attempts_app, !copy_attempts_app, Hw1, Hc1, Hws1, Hcs1, Hw2, Hc2.
      cbn [app write_attempts copy_attempts length].
      repeat split; [lia | | discriminate].
      intros p c [Heq|[]]. injection Heq as <- <-. exists e. split; [reflexivity|].
      right. repeat (apply in_or_app; right). now left. }
  rewrite (bind_ok _ _ _ _ _ Hwrite). cbv beta.
  match goal with
  | |- context [bind (if negb (String.eqb wav audio_path) then _ else _) _ ?w'] =>
      destruct (gui_remove_converted E wav audio_path w')
        as (rr & revs & Hrem & Hrplain & Hrpend)
  end.
  destruct (plain_events _ Hrplain) as [Hwr Hcr].
  destruct rr as [u|e].
  2:{ rewrite (bind_raise _ _ _ _ _ Hrem), !extend_extend.
      do 2 eexists. split; [reflexivity|]. cbn [app write_attempts copy_attempts].
      rewrite !write_attempts_app, !copy_attempts_app, Hw1, Hc1, Hws1, Hcs1, Hw2, Hc2.
      cbn [app write_attempts copy_attempts]. rewrite Hwr, Hcr.
      cbn [length]. repeat split; [lia | | discriminate].
      intros p c [Heq|[]]. discriminate Heq. }
  rewrite (bind_ok _ _ _ _ _ Hrem). cbv beta.
  erewrite bind_ok by reflexivity. cbv beta.
  match goal with
  | |- context [bind (Gui.status cb ?s) _ ?w'] =>
      destruct (Hstatus s w') as (sevs2 & Hs2 & Hsp2 & Hsi2)
  end.
  rewrite (bind_ok _ _ _ _ _ Hs2). cbv beta.
  match goal with
  | |- context [bind (Gui.status cb ?s) _ ?w'] =>
      destruct (Hstatus s w') as (sevs3 & Hs3 & Hsp3 & Hsi3)
  end.
  rewrite (bind_ok _ _ _ _ _ Hs3). cbv beta. unfold ret.
  destruct (plain_events _ Hsp2) as [Hws2 Hcs2].
  destruct (plain_events _ Hsp3) as [Hws3 Hcs3].
  rewrite !extend_extend.
  do 2 eexists. split; [reflexivity|]. cbn [app write_attempts copy_attempts].
  rewrite !write_attempts_app, !copy_attempts_app, Hw1, Hc1, Hws1, Hcs1, Hw2, Hc2.
  cbn [app write_attempts copy_attempts].
  rewrite !write_attempts_app, !copy_attempts_app, Hwr, Hcr.
  cbn [app write_attempts copy_attempts].
  rewrite !write_attempts_app, !copy_attempts_app, Hws2, Hcs2, Hws3, Hcs3.
  cbn [length app]. repeat split; [lia | |].
  - intros p c [Heq|[]]. discriminate Heq.
  - intros p _. cbn [pending track]. rewrite !pending_app. cbn [pending track].
    rewrite !pending_app. cbn [pending track]. rewrite !pending_app.
    rewrite (pending_inert sevs3), (pending_inert sevs2) by assumption.
    apply no_members. intros q Hq.
    apply (Hrpend u eq_refl) in Hq. destruct Hq as [Hq Hnot].
    apply (Hpend2 _ eq_refl) in Hq.
    rewrite (pending_inert sevs1) in Hq by assumption.
    apply (Hpend1 _ eq_refl) in Hq.
    destruct Hq as [[]|[-> Hne]]. now apply Hnot.
Qed.

(** ** The events of a command-line job *)








(** What a job writes. *)
Lemma job_run_writes E audio_path output_path r evs :
  job_run E audio_path output_path r evs ->
  (r = None /\ write_attempts evs = [] /\ copy_attempts evs = [])
  \/ (exists f now text saved used_backup save_evs copy_evs final,
         r = Some final
         /\ save_shape (requested_output output_path f) (backup_location E now) text
                       saved used_backup save_evs
         /\ copy_shape used_backup output_path (backup_location E now) saved final
                       copy_evs
         /\ write_attempts evs = write_attempts save_evs
         /\ copy_attempts evs = copy_attempts copy_evs).
Proof.
  assert (Hselect : forall a sel l, select_shape a sel l ->
                                    write_attempts l = [] /\ copy_attempts l = []).
  { intros a sel l [[-> _]|(scan & s1 & s2 & -> & Hscan & _)]; [split; reflexivity|].
    destruct (select_scan_events _ _ Hscan) as (_ & _ & Hplain & _).
    destruct (plain_events _ Hplain) as [Hw Hc].
    cbn [write_attempts copy_attempts].
    now rewrite write_attempts_app, copy_attempts_app, Hw, Hc. }
  assert (Hconvert : forall f l, Forall (convert_event f) l ->
                                 write_attempts l = [] /\ copy_attempts l = []).
  { intros f l Hl. apply plain_events. eapply Forall_impl; [|exact Hl].
    intros x Hx. exact (proj2 (convert_event_facts _ _ Hx)). }
  assert (Hpass : forall wav l, Forall (pass_event wav) l ->
                                write_attempts l = [] /\ copy_attempts l = []).
  { intros wav l Hl. apply plain_events. eapply Forall_impl; [|exact Hl].
    intros x Hx. exact (proj2 (pass_event_facts _ _ Hx)). }
  intros Hrun. inversion Hrun as
    [t0 sel_evs Hsel
    |t0 sel_evs f r' file_evs tf Hsel Hfile
    |t0 sel_evs f e file_evs tf s1 s2 blocks Hsel Hfile Hblocks]; subst;
    destruct (Hselect _ _ _ Hsel) as [Hws Hcs].
  - left. cbn [write_attempts copy_attempts]. auto.
  - inversion Hfile as
      [s
      |
      |wav conv_evs t1 rec_evs text saved used_backup save_evs blocks t2 s copy_evs final
         (_ & Hconv & _) (Hrec & _ & _) Hsave Hblocks Hcopy]; subst.
    + left. cbn [write_attempts copy_attempts].
      rewrite write_attempts_app, copy_attempts_app, Hws, Hcs. auto.
    + right. exists f, t1, text, saved, used_backup, save_evs, copy_evs, final.
      split; [reflexivity|]. split; [exact Hsave|]. split; [exact Hcopy|].
      destruct (Hconvert _ _ Hconv) as [Hwc Hcc].
      destruct (Hpass _ _ Hrec) as [Hwr Hcr].
      destruct (plain_events _ (proj2 (removal_blocks_plain _ _ _ Hblocks))) as [Hwb Hcb].
      destruct (save_events _ (proj1 Hsave)) as (_ & _ & Hcsave).
      destruct (copy_events _ (proj1 Hcopy)) as (_ & _ & Hwcopy).
      cbn [write_attempts copy_attempts app].
      rewrite !write_attempts_app, !copy_attempts_app.
      cbn [write_attempts copy_attempts app].
      rewrite !write_attempts_app, !copy_attempts_app.
      cbn [write_attempts copy_attempts app].
      rewrite !write_attempts_app, !copy_attempts_app.
      cbn [write_attempts copy_attempts app].
      rewrite Hws, Hcs, Hwc, Hcc, Hwr, Hcr, Hwb, Hcb, Hcsave, Hwcopy.
      cbn [app]. now rewrite !app_nil_r.
  - left. split; [reflexivity|].
    inversion Hfile as
      [
      |wav conv_evs t1 rec_evs e' (_ & Hconv & _) (Hrec & _ & _)
      |]; subst.
    destruct (Hconvert _ _ Hconv) as [Hwc Hcc].
    destruct (Hpass _ _ Hrec) as [Hwr Hcr].
    destruct (plain_events _ (proj2 (removal_blocks_plain _ _ _ Hblocks))) as [Hwb Hcb].
    cbn [write_attempts copy_attempts app].
    rewrite !write_attempts_app, !copy_attempts_app.
    cbn [write_attempts copy_attempts app].
    rewrite !write_attempts_app, !copy_attempts_app.
    cbn [write_attempts copy_attempts app].
    rewrite Hws, Hcs, Hwc, Hcc, Hwr, Hcr, Hwb, Hcb. auto.
Qed.

(** ** The job-level properties *)

(** C4 (as corrected).  A command-line job never raises, and in its trace
    every successful creation of a temporary file (an exported segment, a
    converted waveform) is followed by an attempt to remove that file.  Each
    cleanup loop gives every file of its list one round: the file is absent,
    or it is removed, or its removal fails; the failure is never raised, and
    it is followed by a warning in the loop of [transcribe_large_audio] and
    in the job's regular loop, but not in the handler of an unexpected
    failure, which ignores it silently.  A desktop job that completes has
    also attempted to remove every file it created. *)
Theorem temporary_files_cleanup :
  forall (E : Env),
    (forall audio_path output_path w,
        exists r evs tf,
          Cli.transcribe_audio E audio_path output_path w
          = (Ok r, {| trace := trace w ++ evs; temp_files := tf |})
          /\ cleaned_up evs)
    /\ (forall files w,
           exists blocks,
             Cli.remove_chunk_files E files w = (Ok tt, extend w (concat blocks))
             /\ Forall2 (removal_block chunk_warning) files blocks)
    /\ (forall files w,
           exists blocks,
             Cli.remove_temp_files E files w = (Ok tt, extend w (concat blocks))
             /\ Forall2 (removal_block temp_warning) files blocks)
    /\ (forall files w,
           exists blocks,
             Cli.remove_temp_files_quietly E files w = (Ok tt, extend w (concat blocks))
             /\ Forall2 (removal_block no_warning) files blocks)
    /\ (forall cb audio_path output_path w,
           exists r evs,
             Gui.transcribe_audio E cb audio_path output_path w = (r, extend w evs)
             /\ (forall p, r = Ok p -> cleaned_up evs)).
Proof.
  intros E. split; [|split; [|split; [|split]]].
  - intros audio_path output_path w.
    destruct (cli_transcribe_audio_run E audio_path output_path w)
      as (r & evs & tf & Hrun & Hshape).
    exists r, evs, tf. split; [exact Hrun|].
    apply pending_nil_cleaned_up. exact (job_run_pending _ _ _ _ _ Hshape).
  - apply cli_remove_chunk_files_run.
  - apply cli_remove_temp_files_run.
  - apply cli_remove_temp_files_quietly_run.
  - intros cb audio_path output_path w.
    destruct (gui_transcribe_audio_run E cb audio_path output_path w)
      as (r & evs & Hrun & _ & _ & _ & Hpend).
    exists r, evs. split; [exact Hrun|].
    intros p Hp. apply pending_nil_cleaned_up. exact (Hpend p Hp).
Qed.

(** C4, the claim as stated fails on the desktop job: when the service
    answers in a way the program does not expect, the job raises, the
    converted waveform and the exported segment are left behind, and no
    removal was attempted at all. *)
Lemma gui_failure_leaves_temporary_files :
  fst (Gui.transcribe_audio env_broken_service true "talk.mp3" None world0)
  = Raise (OtherException "bad response")
  /\ pending (trace (snd (Gui.transcribe_audio env_broken_service true "talk.mp3"
                                               None world0))) []
     = ["temp_chunk_0.wav"; "talk_converted.wav"]%string
  /\ removal_attempted
       (trace (snd (Gui.transcribe_audio env_broken_service true "talk.mp3"
                                         None world0)))
     = false.
Proof. repeat split; vm_compute; reflexivity. Qed.

Lemma prefix_app a b : String.prefix a (a ++ b)%string = true.
Proof.
  induction a as [|c a IH]; [destruct b; reflexivity|].
  cbn [append String.prefix]. destruct (ascii_dec c c); [exact IH|contradiction].
Qed.

Lemma backup_location_under_home E now :
  startswith (backup_location E now) (env_home E) = true.
Proof.
  unfold backup_location, path_join, startswith.
  cbn [append String.prefix].
  destruct (ascii_dec "/" "a"); [discriminate|].
  destruct (String.eqb (env_home E) "" || endswith (env_home E) "/"); apply prefix_app.
Qed.

(** C5 (as corrected).  On the command line the transcript is written to
    the target; if that fails, to a backup location under the home
    directory; if that fails too, it is printed; none of these failures is
    raised.  A copy back to the requested location is attempted exactly
    when the backup location was used and a location had been requested,
    and its failure is not raised either.  The writes and copies of a whole
    job are those of these two steps.  The desktop job writes the target
    only: a failed write is raised to the caller, and nothing is copied. *)
Theorem transcript_persistence :
  forall (E : Env),
    (forall target backup text w,
        exists saved used_backup evs,
          Cli.save_transcription E target backup text w
          = (Ok (saved, used_backup), extend w evs)
          /\ save_shape target backup text saved used_backup evs)
    /\ (forall used_backup original backup saved w,
           exists final evs,
             Cli.copy_back E used_backup original backup saved w
             = (Ok final, extend w evs)
             /\ copy_shape used_backup original backup saved final evs)
    /\ (forall now, startswith (backup_location E now) (env_home E) = true)
    /\ (forall audio_path output_path w,
           exists r evs tf,
             Cli.transcribe_audio E audio_path output_path w
             = (Ok r, {| trace := trace w ++ evs; temp_files := tf |})
             /\ ((r = None /\ write_attempts evs = [] /\ copy_attempts evs = [])
                 \/ (exists f now text saved used_backup save_evs copy_evs final,
                        r = Some final
                        /\ save_shape (requested_output output_path f)
                                      (backup_location E now) text
                                      saved used_backup save_evs
                        /\ copy_shape used_backup output_path (backup_location E now)
                                      saved final copy_evs
                        /\ write_attempts evs = write_attempts save_evs
                        /\ copy_attempts evs = copy_attempts copy_evs)))
    /\ (forall cb audio_path output_path w,
           exists r evs,
             Gui.transcribe_audio E cb audio_path output_path w = (r, extend w evs)
             /\ length (write_attempts evs) <= 1
             /\ copy_attempts evs = []
             /\ (forall p c,
                    In (p, c, false) (write_attempts evs) ->
                    exists e, r = Raise e /\ In (EvWriteFile p c (Raise e)) evs)).
Proof.
  intros E. split; [|split; [|split; [|split]]].
  - apply cli_save_transcription_run.
  - apply cli_copy_back_run.
  - apply backup_location_under_home.
  - intros audio_path output_path w.
    destruct (cli_transcribe_audio_run E audio_path output_path w)
      as (r & evs & tf & Hrun & Hshape).
    exists r, evs, tf. split; [exact Hrun|]. exact (job_run_writes _ _ _ _ _ Hshape).
  - intros cb audio_path output_path w.
    destruct (gui_transcribe_audio_run E cb audio_path output_path w)
      as (r & evs & Hrun & Hlen & Hcopy & Hfail & _).
    exists r, evs. auto.
Qed.

(** C5, the claim as stated fails on the desktop job: when the target
    cannot be written the job raises; it tries no other location. *)
Lemma gui_write_failure_raises :
  fst (Gui.transcribe_audio env_read_only true "talk.mp3" (Some "out.txt"%string) world0)
  = Raise (OtherException "Permission denied")
  /\ write_attempts
       (trace (snd (Gui.transcribe_audio env_read_only true "talk.mp3"
                                         (Some "out.txt"%string) world0)))
     = [("out.txt", "hello", false)]%string.
Proof. split; vm_compute; reflexivity. Qed.














(** ** Sample runs *)

(** A compressed file, everything working: the file is converted, one
    segment is recognized, the transcript is written beside the working
    directory under the default name, and the converted waveform is
    removed. *)
Example cli_sample_run :
  let run := Cli.transcribe_audio env_ok "talks/talk.mp3" None world0 in
  fst run = Ok (Some "talk_transcription.txt")
  /\ write_attempts (trace (snd run)) = [("talk_transcription.txt", "hello", true)]
  /\ count_passes (trace (snd run)) = 1
  /\ In (EvRemove "talk_converted.wav" (Ok tt)) (trace (snd run)).
Proof. vm_compute. repeat split. do 30 (try (now left); right). Qed.

(** A directory that holds two audio files: the first one found is
    transcribed, the other is never read. *)
Example cli_directory_run :
  let run := Cli.transcribe_audio env_directory "recordings" None world0 in
  fst run = Ok (Some "b_transcription.txt")
  /\ scan_results (trace (snd run)) = ["recordings/b.mp3"; "recordings/c.ogg"]
  /\ existsb (fun e => match audio_input e with
                       | Some p => String.eqb p "recordings/c.ogg"
                       | None => false
                       end) (trace (snd run)) = false.
Proof. vm_compute. repeat split. Qed.

(** No location can be written: the job still returns the target path,
    after one attempt there and one under the home directory. *)
Example cli_read_only_run :
  let run := Cli.transcribe_audio env_read_only "talk.wav" (Some "out/talk.txt") world0 in
  fst run = Ok (Some "out/talk.txt")
  /\ map (fun a => snd a) (write_attempts (trace (snd run))) = [false; false]
  /\ map (fun a => fst (fst a)) (write_attempts (trace (snd run)))
     = ["out/talk.txt"; "/home/user/audio_transcription_3.txt"]
  /\ copy_attempts (trace (snd run)) = [].
Proof. vm_compute. repeat split. Qed.

(** The service hears nothing: the offline engine is asked, and its text
    is the transcript. *)
Example cli_no_speech_run :
  let run := Cli.transcribe_audio env_no_speech "talk.wav" None world0 in
  fst run = Ok (Some "talk_transcription.txt")
  /\ count_passes (trace (snd run)) = 1
  /\ write_attempts (trace (snd run)) = [("talk_transcription.txt", "offline", true)].
Proof. vm_compute. repeat split. Qed.

(** ** The program logic *)

Lemma wp_ret {A} (a : A) Q R w : Q a w -> wp (ret a) Q R w.
Proof. exact (fun H => H). Qed.

Lemma wp_raise {A} e (Q : A -> World -> Prop) R w : R e w -> wp (raise e) Q R w.
Proof. exact (fun H => H). Qed.

Lemma wp_bind {A B} (m : M A) (k : A -> M B) Q R w :
  wp m (fun a => wp (k a) Q R) R w -> wp (bind m k) Q R w.
Proof. unfold wp, bind. destruct (m w) as [[a|e] w']; exact (fun H => H). Qed.

Lemma wp_try {A} (m : M A) h Q R w :
  wp m Q (fun e => wp (h e) Q R) w -> wp (try_except m h) Q R w.
Proof. unfold wp, try_except. destruct (m w) as [[a|e] w']; exact (fun H => H). Qed.

Lemma wp_conseq {A} (m : M A) (Q Q' : A -> World -> Prop) (R R' : exn -> World -> Prop) w :
  wp m Q R w ->
  (forall a w', Q a w' -> Q' a w') ->
  (forall e w', R e w' -> R' e w') ->
  wp m Q' R' w.
Proof. unfold wp. destruct (m w) as [[a|e] w']; auto. Qed.

Lemma wp_log e Q R w : Q tt (extend w [e]) -> wp (log e) Q R w.
Proof. exact (fun H => H). Qed.

Lemma wp_ask {A} (oracle : history -> A) ev Q R w :
  Q (oracle (trace w)) (extend w [ev (oracle (trace w))]) -> wp (ask oracle ev) Q R w.
Proof. exact (fun H => H). Qed.

Lemma wp_call {A} (oracle : history -> result A) ev (Q : A -> World -> Prop) R w :
  match oracle (trace w) with
  | Ok a => Q a (extend w [ev (Ok a)])
  | Raise e => R e (extend w [ev (Raise e)])
  end ->
  wp (call oracle ev) Q R w.
Proof. unfold wp, call. destruct (oracle (trace w)); exact (fun H => H). Qed.

Lemma wp_run {A} (m : M A) Q R w :
  wp m Q R w ->
  exists r w', m w = (r, w')
               /\ match r with Ok a => Q a w' | Raise e => R e w' end.
Proof. unfold wp. destruct (m w) as [r w']. intros H. exists r, w'. now split. Qed.

Lemma inv_extend t0 I T w evs :
  inv t0 I T w -> Forall I evs -> inv t0 I T (extend w evs).
Proof.
  intros [(done & Hd & Hall) HT] Hevs. split; [|exact HT].
  exists (done ++ evs). cbn [extend trace]. rewrite Hd, app_assoc.
  split; [reflexivity|]. apply Forall_app. now split.
Qed.

Lemma inv_log t0 I T w e : inv t0 I T w -> I e -> inv t0 I T (extend w [e]).
Proof. intros H He. apply inv_extend; [exact H|]. now constructor. Qed.

Lemma inv_start t0 I T w : trace w = t0 -> T (temp_files w) -> inv t0 I T w.
Proof.
  intros Ht HT. split; [|exact HT]. exists []. rewrite app_nil_r. now split.
Qed.

Lemma inv_weaken t0 (I I' : event -> Prop) (T T' : list path -> Prop) w :
  inv t0 I T w -> (forall e, I e -> I' e) -> (forall l, T l -> T' l) -> inv t0 I' T' w.
Proof.
  intros [(done & Hd & Hall) HT] HI HT'. split; [|auto].
  exists done. split; [exact Hd|]. eapply Forall_impl; [|exact Hall]. exact HI.
Qed.

Lemma wp_get_temp_files Q R w : Q (temp_files w) w -> wp get_temp_files Q R w.
Proof. exact (fun H => H). Qed.

Lemma wp_set_temp_files l Q R w :
  Q tt {| trace := trace w; temp_files := l |} -> wp (set_temp_files l) Q R w.
Proof. exact (fun H => H). Qed.

Lemma inv_set t0 I (T T' : list path -> Prop) w l :
  inv t0 I T w -> T' l -> inv t0 I T' {| trace := trace w; temp_files := l |}.
Proof. intros [Hd _] Hl. split; [exact Hd|exact Hl]. Qed.

(** One step of a proof in the logic: the rule of the construct at the
    head of the program. *)
Ltac wp_step :=
  lazymatch goal with
  | |- wp (bind _ _) _ _ _ => apply wp_bind
  | |- wp (try_except _ _) _ _ _ => apply wp_try
  | |- wp (ret _) _ _ _ => apply wp_ret
  | |- wp (raise _) _ _ _ => apply wp_raise
  | |- wp (print _) _ _ _ => apply wp_log
  | |- wp (log _) _ _ _ => apply wp_log
  | |- wp (ask _ _) _ _ _ => apply wp_ask
  | |- wp (call _ _) _ _ _ => apply wp_call
  | |- wp get_temp_files _ _ _ => apply wp_get_temp_files
  | |- wp (set_temp_files _) _ _ _ => apply wp_set_temp_files
  | |- wp (if ?b then _ else _) _ _ _ => destruct b eqn:?
  | |- wp (match ?x with Ok _ => _ | Raise _ => _ end) _ _ _ => destruct x eqn:?
  | |- wp (match ?e with UnknownValueError _ => _ | _ => _ end) _ _ _ => destruct e
  | |- wp (let '(_, _) := ?x in _) _ _ _ => destruct x
  | |- match ?o with Ok _ => _ | Raise _ => _ end => destruct o eqn:?
  | |- wp _ _ _ _ => progress unfold_prims
  end; cbv beta.

Ltac wp_steps := repeat wp_step.

Create HintDb mutation.
#[local] Hint Constructors job_mutation : mutation.
#[local] Hint Resolve inv_log : mutation.

Lemma quiet_mutation E f out e : touches e = [] -> job_mutation E f out e.
Proof. apply mutation_none. Qed.

Ltac inv_solve :=
  repeat match goal with
         | |- inv _ _ _ (extend _ [_]) => apply inv_log
         | H : inv ?t _ _ ?w |- inv ?t _ _ ?w => exact H
         | |- _ /\ _ => split
         end;
  try solve [apply mutation_none; reflexivity];
  eauto with mutation.

Section Footprint.
Variable E : Env.
Variable f : path.
Variable out : option path.
Variable t0 : history.

Local Abbreviation Mut := (job_mutation E f out).

Lemma footprint_convert_to_wav T w :
  inv t0 Mut T w ->
  wp (Cli.convert_to_wav E f)
     (fun wav w' => inv t0 Mut T w'
                    /\ (wav = f \/ (wav = converted_name f /\ endswith f ".wav" = false)))
     (fun _ _ => False) w.
Proof.
  intros Hinv. unfold Cli.convert_to_wav.
  fold (converted_name f). fold (temp_name f).
  wp_steps; inv_solve.
Qed.


Lemma footprint_load_sound T p w :
  inv t0 Mut T w ->
  wp (Cli.load_sound E p) (fun _ w' => inv t0 Mut T w') (fun _ _ => False) w.
Proof. intros Hinv. unfold Cli.load_sound. wp_steps; inv_solve. Qed.

Lemma footprint_segment T sound m t w :
  inv t0 Mut T w ->
  wp (Cli.segment E sound m t) (fun _ w' => inv t0 Mut T w')
     (fun _ w' => inv t0 Mut T w') w.
Proof.
  intros Hinv. unfold Cli.segment, Cli.split_with_retry. wp_steps; inv_solve.
  all: destruct l; wp_steps; inv_solve.
Qed.

Lemma footprint_recognize_chunk T i n chunk full_text w :
  inv t0 Mut T w ->
  wp (Cli.recognize_chunk E i n chunk full_text) (fun _ w' => inv t0 Mut T w')
     (fun _ _ => False) w.
Proof. intros Hinv. unfold Cli.recognize_chunk. wp_steps; inv_solve. Qed.

Lemma footprint_for_chunks T n :
  forall chunks i full_text files w,
    inv t0 Mut T w ->
    Forall chunk_file files ->
    wp (Cli.for_chunks E n i chunks full_text files)
       (fun st w' => inv t0 Mut T w' /\ Forall chunk_file (snd st))
       (fun _ _ => False) w.
Proof.
  induction chunks as [|chunk chunks IH]; intros i full_text files w Hinv Hfiles;
    cbn [Cli.for_chunks].
  - wp_steps. now split.
  - wp_step. eapply wp_conseq; [apply footprint_recognize_chunk; exact Hinv| |auto].
    intros ft w' Hinv'. cbv beta in *. apply IH; [exact Hinv'|].
    apply Forall_app. split; [exact Hfiles|]. constructor; [now exists i|constructor].
Qed.

Lemma footprint_remove_chunk_files T :
  forall files w,
    inv t0 Mut T w ->
    Forall chunk_file files ->
    wp (Cli.remove_chunk_files E files) (fun _ w' => inv t0 Mut T w')
       (fun _ _ => False) w.
Proof.
  induction files as [|p files IH]; intros w Hinv Hfiles; cbn [Cli.remove_chunk_files].
  - wp_steps. exact Hinv.
  - inversion Hfiles as [|? ? [i ->] Hrest]; subst.
    wp_steps; apply IH; auto; inv_solve.
Qed.

Lemma footprint_transcribe_large_audio T p m t w :
  inv t0 Mut T w ->
  wp (Cli.transcribe_large_audio E p m t) (fun _ w' => inv t0 Mut T w')
     (fun _ w' => inv t0 Mut T w') w.
Proof.
  intros Hinv. unfold Cli.transcribe_large_audio. wp_step.
  eapply wp_conseq; [apply footprint_load_sound; exact Hinv| |intros ? ? []].
  intros [sound|] w1 H1; cbv beta in *; [|wp_steps; exact H1].
  wp_step. eapply wp_conseq; [apply footprint_segment; exact H1| |auto].
  intros chunks w2 H2. cbv beta in *. wp_steps.
  eapply wp_conseq;
    [apply footprint_for_chunks; [inv_solve|constructor]| |intros ? ? []].
  intros [full_text files] w3 [H3 Hfiles]. cbv beta in *. wp_step.
  eapply wp_conseq;
    [apply footprint_remove_chunk_files; [exact H3|exact Hfiles]| |intros ? ? []].
  intros ? w4 H4. cbv beta in *. wp_steps. exact H4.
Qed.

Lemma footprint_transcribe_with_recovery T p w :
  inv t0 Mut T w ->
  wp (Cli.transcribe_with_recovery E p) (fun _ w' => inv t0 Mut T w')
     (fun _ w' => inv t0 Mut T w') w.
Proof.
  intros Hinv. unfold Cli.transcribe_with_recovery. wp_steps.
  eapply wp_conseq;
    [apply footprint_transcribe_large_audio; inv_solve| |auto].
  intros text w1 H1. cbv beta in *. wp_steps; [|exact H1].
  eapply wp_conseq;
    [apply footprint_transcribe_large_audio; inv_solve|auto|auto].
Qed.

Local Abbreviation converted_only := (converted_only f).

Lemma footprint_normalize_input w :
  inv t0 Mut converted_only w ->
  wp (Cli.normalize_input E f)
     (fun _ w' => inv t0 Mut converted_only w') (fun _ _ => False) w.
Proof.
  intros Hinv. unfold Cli.normalize_input. wp_steps.
  eapply wp_conseq; [apply footprint_convert_to_wav; exact Hinv| |intros ? ? []].
  intros wav w1 [H1 Hwav]. cbv beta in *. wp_steps.
  - eapply inv_set; [exact H1|]. apply Forall_app. split; [exact (proj2 H1)|].
    destruct Hwav as [->|[-> Hext]].
    + rewrite String.eqb_refl in *. discriminate.
    + constructor; [now split|constructor].
  - exact H1.
Qed.

Lemma footprint_save_transcription T backup_time text w :
  inv t0 Mut T w ->
  wp (Cli.save_transcription E (requested_output out f)
                             (backup_location E backup_time) text)
     (fun _ w' => inv t0 Mut T w') (fun _ _ => False) w.
Proof. intros Hinv. unfold Cli.save_transcription. wp_steps; inv_solve. Qed.

Lemma footprint_remove_temp_files T :
  forall files w,
    inv t0 Mut T w ->
    converted_only files ->
    wp (Cli.remove_temp_files E files) (fun _ w' => inv t0 Mut T w')
       (fun _ _ => False) w.
Proof.
  induction files as [|p files IH]; intros w Hinv Hfiles; cbn [Cli.remove_temp_files].
  - wp_steps. exact Hinv.
  - inversion Hfiles as [|? ? [-> Hext] Hrest]; subst.
    wp_steps; apply IH; auto; inv_solve.
Qed.

Lemma footprint_remove_temp_files_quietly T :
  forall files w,
    inv t0 Mut T w ->
    converted_only files ->
    wp (Cli.remove_temp_files_quietly E files) (fun _ w' => inv t0 Mut T w')
       (fun _ _ => False) w.
Proof.
  induction files as [|p files IH]; intros w Hinv Hfiles;
    cbn [Cli.remove_temp_files_quietly].
  - wp_steps. exact Hinv.
  - inversion Hfiles as [|? ? [-> Hext] Hrest]; subst.
    wp_steps; apply IH; auto; inv_solve.
Qed.

Lemma footprint_copy_back T used_backup backup_time saved w :
  inv t0 Mut T w ->
  wp (Cli.copy_back E used_backup out (backup_location E backup_time) saved)
     (fun _ w' => inv t0 Mut T w') (fun _ _ => False) w.
Proof.
  intros Hinv. unfold Cli.copy_back. destruct out as [requested|] eqn:Hout.
  - wp_steps; inv_solve.
    all: apply andb_prop in Heqb; destruct Heqb as [_ Htruthy];
      eapply mutation_copy; [reflexivity|exact Htruthy].
  - wp_steps. exact Hinv.
Qed.

End Footprint.

Lemma footprint_process_file E f out start_time w :
  temp_files w = [] ->
  wp (Cli.process_file E start_time f out)
     (fun _ w' => exists b, inv (trace w ++ [EvIsfile f b]) (job_mutation E f out) (converted_only f) w')
     (fun _ w' => exists b, inv (trace w ++ [EvIsfile f b]) (job_mutation E f out) (converted_only f) w') w.
Proof.
  intros Hnil. unfold Cli.process_file. wp_step. unfold isfile. apply wp_ask.
  set (b := env_isfile E (trace w) f).
  assert (Hinv : inv (trace w ++ [EvIsfile f b]) (job_mutation E f out) (converted_only f)
                     (extend w [EvIsfile f b])).
  { apply inv_start; [reflexivity|]. cbn [extend temp_files]. rewrite Hnil. constructor. }
  generalize dependent (extend w [EvIsfile f b]). intros w0 Hinv.
  wp_steps; [exists b; inv_solve|].
  eapply wp_conseq; [apply footprint_normalize_input; inv_solve| |intros ? ? []].
  intros wav w1 H1. cbv beta in *. wp_steps.
  eapply wp_conseq;
    [apply footprint_transcribe_with_recovery; inv_solve|
    |intros e w2 H2; exists b; exact H2].
  intros text w2 H2. cbv beta in *. wp_step.
  fold (default_output f). fold (requested_output out f).
  fold (backup_location E (env_time E (trace w1))).
  eapply wp_conseq; [apply footprint_save_transcription; exact H2| |intros ? ? []].
  intros [saved used_backup] w3 H3. cbv beta in *. wp_steps.
  eapply wp_conseq;
    [apply footprint_remove_temp_files; [exact H3|exact (proj2 H3)]| |intros ? ? []].
  intros ? w4 H4. cbv beta in *. wp_steps.
  eapply wp_conseq; [apply footprint_copy_back; inv_solve| |intros ? ? []].
  intros final w5 H5. cbv beta in *. wp_steps. exists b. exact H5.
Qed.


Lemma selecting_scan_directory E t0 T a :
  forall extensions files w,
    inv t0 selecting T w ->
    wp (Cli.scan_directory E a extensions files) (fun _ w' => inv t0 selecting T w')
       (fun _ _ => False) w.
Proof.
  induction extensions as [|extension extensions IH]; intros files w Hinv;
    cbn [Cli.scan_directory].
  - wp_steps. exact Hinv.
  - wp_steps. apply IH. apply inv_log; [exact Hinv|exact I].
Qed.

Lemma selecting_select_input E t0 T a w :
  inv t0 selecting T w ->
  wp (Cli.select_input E a) (fun _ w' => inv t0 selecting T w') (fun _ _ => False) w.
Proof.
  intros Hinv. unfold Cli.select_input. wp_steps.
  - eapply wp_conseq;
      [apply selecting_scan_directory; repeat apply inv_log; try exact I; exact Hinv
      | |intros ? ? []].
    intros files w1 H1. cbv beta in *. destruct files; wp_steps;
      (apply inv_log; [exact H1|exact I]).
  - apply inv_log; [exact Hinv|exact I].
Qed.

(** The events of a command-line job: those of the selection up to the
    file check, then the mutations of a job on the file that was checked. *)
Lemma footprint_transcribe_audio E a out w :
  wp (Cli.transcribe_audio E a out)
     (fun _ w' =>
        exists evs,
          trace w' = trace w ++ evs
          /\ (Forall selecting evs
              \/ exists sel f b rest,
                   evs = sel ++ EvIsfile f b :: rest
                   /\ Forall selecting sel
                   /\ Forall (job_mutation E f out) rest))
     (fun _ _ => False) w.
Proof.
  unfold Cli.transcribe_audio. do 5 wp_step. apply wp_try.
  set (w1 := {| trace := _; temp_files := [] |}).
  assert (H1 : inv (trace w) selecting (fun l => l = []) w1).
  { split; [|reflexivity]. eexists. split; [reflexivity|]. repeat constructor. }
  generalize dependent w1. intros w1 H1.
  eapply wp_conseq with
    (Q := fun _ w' =>
            inv (trace w) selecting (fun _ => True) w'
            \/ exists sel f b,
                 Forall selecting sel
                 /\ inv (trace w ++ sel ++ [EvIsfile f b]) (job_mutation E f out)
                        (fun _ => True) w')
    (R := fun _ w' =>
            exists sel f b,
              Forall selecting sel
              /\ inv (trace w ++ sel ++ [EvIsfile f b]) (job_mutation E f out)
                     (converted_only f) w').
  - wp_step.
    eapply wp_conseq; [apply selecting_select_input; exact H1| |intros ? ? []].
    intros [f|] w2 H2; cbv beta in *.
    + destruct H2 as [(sel & Hsel & Hquiet) Hnil].
      eapply wp_conseq; [apply footprint_process_file; exact Hnil| |].
      * intros r w3 [b H3]. right. exists sel, f, b. split; [exact Hquiet|].
        rewrite Hsel, <- app_assoc in H3.
        eapply inv_weaken; [exact H3|auto|auto].
      * intros e w3 [b H3]. exists sel, f, b. split; [exact Hquiet|].
        rewrite Hsel, <- app_assoc in H3. exact H3.
    + wp_steps. left. eapply inv_weaken; [exact H2|auto|auto].
  - intros r w2 [[(evs & Hevs & Hquiet) _]|(sel & f & b & Hquiet & (rest & Hrest & Hall) & _)].
    + exists evs. split; [exact Hevs|]. now left.
    + exists (sel ++ EvIsfile f b :: rest). split.
      * rewrite Hrest, <- !app_assoc. reflexivity.
      * right. exists sel, f, b, rest. repeat split; assumption.
  - intros e w2 (sel & f & b & Hquiet & H2). wp_steps.
    eapply wp_conseq;
      [apply footprint_remove_temp_files_quietly;
       [repeat apply inv_log; try (apply mutation_none; reflexivity); exact H2
       |exact (proj2 H2)]
      | |intros ? ? []].
    intros ? w3 ((rest & Hrest & Hall) & _). cbv beta in *. wp_steps.
    exists (sel ++ EvIsfile f b :: rest). split.
    + rewrite Hrest, <- !app_assoc. reflexivity.
    + right. exists sel, f, b, rest. repeat split; assumption.
Qed.

(** ** Names of files *)

Lemma chars_app (a b : string) :
  list_ascii_of_string (a ++ b) = (list_ascii_of_string a ++ list_ascii_of_string b)%list.
Proof. induction a as [|c a IH]; cbn; [reflexivity|now rewrite IH]. Qed.

Lemma chars_inj (a b : string) : list_ascii_of_string a = list_ascii_of_string b -> a = b.
Proof.
  intros H. rewrite <- (string_of_list_ascii_of_string a),
              <- (string_of_list_ascii_of_string b). now rewrite H.
Qed.

Lemma string_app_inv_head (a b c : string) : (a ++ b = a ++ c)%string -> b = c.
Proof.
  intros H. apply chars_inj. apply (f_equal list_ascii_of_string) in H.
  rewrite !chars_app in H. exact (app_inv_head _ _ _ H).
Qed.

Lemma string_app_inv_tail (a b c : string) : (a ++ c = b ++ c)%string -> a = b.
Proof.
  intros H. apply chars_inj. apply (f_equal list_ascii_of_string) in H.
  rewrite !chars_app in H. exact (app_inv_tail _ _ _ H).
Qed.

Lemma endswith_app3 (a b c : string) : endswith (a ++ b ++ c)%string c = true.
Proof. rewrite <- string_app_assoc. apply endswith_app. Qed.

Lemma temp_name_ends_with_wav f : endswith (temp_name f) ".wav" = true.
Proof.
  unfold temp_name.
  change "_temp.wav"%string with ("_temp" ++ ".wav")%string.
  apply endswith_app3.
Qed.

Lemma default_output_ends_with_txt f : endswith (default_output f) ".txt" = true.
Proof.
  unfold default_output.
  change "_transcription.txt"%string with ("_transcription" ++ ".txt")%string.
  apply endswith_app3.
Qed.

Lemma backup_location_ends_with_txt E now : endswith (backup_location E now) ".txt" = true.
Proof.
  unfold backup_location, path_join.
  change (startswith ("audio_transcription_" ++ show_Z now ++ ".txt") "/") with false.
  cbv iota.
  destruct (String.eqb (env_home E) "" || endswith (env_home E) "/").
  - rewrite <- string_app_assoc.
    change (env_home E ++ "audio_transcription_")%string
      with (env_home E ++ "audio_transcription_")%string.
    apply endswith_app3.
  - rewrite <- !string_app_assoc.
    rewrite string_app_assoc. apply endswith_app3.
Qed.

(** A decimal numeral is not empty and ends with a digit. *)
Lemma string_of_uint_last d :
  d <> Decimal.Nil ->
  exists s c, NilEmpty.string_of_uint d = (s ++ String c "")%string /\ is_digit c = true.
Proof.
  induction d as [|d IH|d IH|d IH|d IH|d IH|d IH|d IH|d IH|d IH|d IH]; intros Hnil;
    [congruence|..];
    (destruct d as [|d'|d'|d'|d'|d'|d'|d'|d'|d'|d'];
     [eexists ""%string, _; split; [reflexivity|reflexivity]
     |destruct IH as (s & c & Hs & Hc); [discriminate|];
      cbn [NilEmpty.string_of_uint] in *; rewrite Hs;
      eexists (String _ s), c; split; [reflexivity|exact Hc]..]).
Qed.

Lemma show_nat_last n :
  exists s c, show_nat n = (s ++ String c "")%string /\ is_digit c = true.
Proof.
  apply string_of_uint_last. intros Hnil.
  pose proof (DecimalNat.Unsigned.of_to n) as Hn. rewrite Hnil in Hn.
  cbn in Hn. subst n. discriminate Hnil.
Qed.

Lemma show_nat_inj i j : show_nat i = show_nat j -> i = j.
Proof.
  unfold show_nat. intros H. apply DecimalNat.Unsigned.to_uint_inj.
  apply (f_equal NilEmpty.uint_of_string) in H. rewrite !NilEmpty.usu in H.
  now injection H.
Qed.

Lemma temp_name_not_converted f : temp_name f <> converted_name f.
Proof.
  unfold temp_name, converted_name. intros H.
  apply string_app_inv_head in H. discriminate H.
Qed.

Lemma temp_name_not_chunk f i : temp_name f <> chunk_filename i.
Proof.
  unfold temp_name, chunk_filename. intros H.
  destruct (show_nat_last i) as (s & c & Hs & Hc). rewrite Hs in H.
  change "_temp.wav"%string with ("_tem" ++ String "p" "" ++ ".wav")%string in H.
  rewrite <- !string_app_assoc in H. apply string_app_inv_tail in H.
  apply (f_equal list_ascii_of_string) in H. rewrite !chars_app in H.
  apply app_inj_tail in H. destruct H as [_ H]. subst c. discriminate Hc.
Qed.

(** ** What a command-line job does to the file system *)

Lemma checked_selecting evs : Forall selecting evs -> checked evs = None.
Proof.
  induction 1 as [|e evs He _ IH]; [reflexivity|].
  destruct e; try contradiction; exact IH.
Qed.

Lemma checked_app sel f b rest :
  Forall selecting sel -> checked (sel ++ EvIsfile f b :: rest) = Some f.
Proof.
  induction 1 as [|e evs He _ IH]; [reflexivity|].
  destruct e; try contradiction; exact IH.
Qed.

Lemma selecting_quiet e : selecting e -> quiet e.
Proof. destruct e; cbn; intros H; try contradiction; reflexivity. Qed.

(** The run of a command-line job, with its footprint. *)
Lemma cli_job_footprint E a out w :
  exists r evs tf,
    Cli.transcribe_audio E a out w
    = (Ok r, {| trace := trace w ++ evs; temp_files := tf |})
    /\ match checked evs with
       | Some f => Forall (job_mutation E f out) evs
       | None => Forall quiet evs
       end.
Proof.
  destruct (wp_run _ _ _ _ (footprint_transcribe_audio E a out w))
    as ([r|e] & [tr tf] & Hrun & Hpost); [|contradiction].
  destruct Hpost as (evs & Hevs & Hshape). cbn [trace] in Hevs. subst tr.
  exists r, evs, tf. split; [exact Hrun|].
  destruct Hshape as [Hsel|(sel & f & b & rest & -> & Hsel & Hrest)].
  - rewrite (checked_selecting _ Hsel).
    eapply Forall_impl; [|exact Hsel]. exact selecting_quiet.
  - rewrite (checked_app _ _ _ _ Hsel). apply Forall_app. split.
    + eapply Forall_impl; [|exact Hsel]. intros e He.
      apply mutation_none. now apply selecting_quiet.
    + constructor; [apply mutation_none; reflexivity|exact Hrest].
Qed.

Lemma requested_output_given requested f :
  truthy requested = true -> requested_output (Some requested) f = requested.
Proof. unfold requested_output. cbn [truthy_opt]. now intros ->. Qed.

(** X1.  Every file a command-line job tries to create, overwrite, move or
    remove is a segment file [temp_chunk_<i>.wav], the converted waveform
    or the ffmpeg intermediate of the file it works on (and these two only
    when that file is not a [.wav] file), the requested or default output,
    or the backup location; before the file check nothing is touched. *)
Theorem cli_job_touches_only_its_files :
  forall (E : Env) (audio_path : path) (output_path : option path) (w : World),
    exists r evs tf,
      Cli.transcribe_audio E audio_path output_path w
      = (Ok r, {| trace := trace w ++ evs; temp_files := tf |})
      /\ match checked evs with
         | None => forall e, In e evs -> touches e = []
         | Some f =>
             forall e p,
               In e evs -> In p (touches e) ->
               chunk_file p
               \/ (endswith f ".wav" = false
                   /\ (p = converted_name f \/ p = temp_name f))
               \/ p = requested_output output_path f
               \/ exists now, p = backup_location E now
         end.
Proof.
  intros E a out w.
  destruct (cli_job_footprint E a out w) as (r & evs & tf & Hrun & Hfoot).
  exists r, evs, tf. split; [exact Hrun|].
  destruct (checked evs) as [f|].
  - intros e p He Hp. apply (proj1 (Forall_forall _ _) Hfoot) in He.
    destruct He as [e Hq|x r0 Hext|r0 Hext|r0 Hext|i x r0|i r0|r0 Hext
                    |text r0|now text r0|now requested r0 Hout Htruthy];
      cbn [touches] in Hp;
      try (rewrite Hq in Hp; destruct Hp);
      repeat match goal with
             | H : In _ (_ :: _) |- _ => destruct H as [<-|H]
             | H : In _ [] |- _ => destruct H
             end;
      eauto 6.
    + left. now exists i.
    + left. now exists i.
    + right. right. left. subst out. symmetry. now apply requested_output_given.
  - intros e He. exact (proj1 (Forall_forall _ _) Hfoot e He).
Qed.

Lemma ends_differ (a b suffix : string) :
  endswith a suffix = false -> endswith b suffix = true -> a <> b.
Proof. intros Ha Hb ->. congruence. Qed.

Lemma job_mutation_spares E f out e :
  (forall i, f <> chunk_filename i) ->
  endswith f ".txt" = false ->
  out <> Some f ->
  job_mutation E f out e -> ~ In f (touches e).
Proof.
  intros Hchunk Htxt Hout He Hin.
  assert (Hconv : endswith f ".wav" = false -> f <> converted_name f).
  { intros H. apply (ends_differ _ _ ".wav" H), converted_name_ends_with_wav. }
  assert (Htemp : endswith f ".wav" = false -> f <> temp_name f).
  { intros H. apply (ends_differ _ _ ".wav" H), temp_name_ends_with_wav. }
  assert (Hbackup : forall now, f <> backup_location E now).
  { intros now. apply (ends_differ _ _ ".txt" Htxt), backup_location_ends_with_txt. }
  destruct He as [e Hq|x r0 Hext|r0 Hext|r0 Hext|i x r0|i r0|r0 Hext
                  |text r0|now text r0|now requested r0 Hreq Htruthy];
    cbn [touches] in Hin;
    try (rewrite Hq in Hin; destruct Hin);
    repeat match goal with
           | H : In _ (_ :: _) |- _ => destruct H as [H|H]
           | H : In _ [] |- _ => destruct H
           end;
    try (now apply (Hconv Hext)); try (now apply (Htemp Hext));
    try (now apply (Hchunk i)); try (now apply (Hbackup now)).
  - unfold requested_output in Hin. destruct (truthy_opt out) eqn:Ht.
    + destruct out as [p|]; [|discriminate Ht]. apply Hout. now subst p.
    + symmetry in Hin. revert Hin.
      apply (ends_differ _ _ ".txt" Htxt), default_output_ends_with_txt.
  - apply Hout. now subst.
Qed.

(** X2.  A command-line job does not touch the file it works on, as long
    as that file is not named like a segment file, is not a [.txt] file and
    is not the requested output: no event of the job creates, overwrites,
    moves or removes it. *)
Theorem cli_job_spares_its_input :
  forall (E : Env) (audio_path : path) (output_path : option path) (w : World)
         (f : path),
    (forall i, f <> chunk_filename i) ->
    endswith f ".txt" = false ->
    output_path <> Some f ->
    exists r evs tf,
      Cli.transcribe_audio E audio_path output_path w
      = (Ok r, {| trace := trace w ++ evs; temp_files := tf |})
      /\ (checked evs = Some f -> forall e, In e evs -> ~ In f (touches e)).
Proof.
  intros E a out w f Hchunk Htxt Hout.
  destruct (cli_job_footprint E a out w) as (r & evs & tf & Hrun & Hfoot).
  exists r, evs, tf. split; [exact Hrun|]. intros Hf e He.
  rewrite Hf in Hfoot. apply (proj1 (Forall_forall _ _) Hfoot) in He.
  now apply (job_mutation_spares E f out).
Qed.

(** X2, at work: a recording in a sub-directory, converted and transcribed;
    the job never touches it. *)
Lemma cli_job_spares_its_input_witness :
  (forall i, "talks/talk.mp3"%string <> chunk_filename i)
  /\ exists r evs tf,
       Cli.transcribe_audio env_ok "talks/talk.mp3" None world0
       = (Ok r, {| trace := trace world0 ++ evs; temp_files := tf |})
       /\ (checked evs = Some "talks/talk.mp3"%string ->
           forall e, In e evs -> ~ In "talks/talk.mp3"%string (touches e)).
Proof.
  assert (H : forall i, "talks/talk.mp3"%string <> chunk_filename i).
  { intros i Hi. apply (f_equal (String.get 1)) in Hi. discriminate Hi. }
  split; [exact H|].
  apply (cli_job_spares_its_input env_ok "talks/talk.mp3" None world0 "talks/talk.mp3").
  - exact H.
  - reflexivity.
  - discriminate.
Defined.

(** X3.  The only files a command-line job tries to remove are segment
    files and the converted waveform of the file it works on.  The
    intermediate file of the ffmpeg conversion, [<name>_temp.wav], is
    never removed, whatever became of it. *)
Theorem cli_job_removals :
  forall (E : Env) (audio_path : path) (output_path : option path) (w : World),
    exists r evs tf,
      Cli.transcribe_audio E audio_path output_path w
      = (Ok r, {| trace := trace w ++ evs; temp_files := tf |})
      /\ (checked evs = None -> forall p r0, ~ In (EvRemove p r0) evs)
      /\ forall f,
           checked evs = Some f ->
           (forall p r0, In (EvRemove p r0) evs ->
                         chunk_file p
                         \/ (p = converted_name f /\ endswith f ".wav" = false))
           /\ (forall r0, ~ In (EvRemove (temp_name f) r0) evs).
Proof.
  intros E a out w.
  destruct (cli_job_footprint E a out w) as (r & evs & tf & Hrun & Hfoot).
  exists r, evs, tf. split; [exact Hrun|]. split.
  - intros Hnone p r0 Hin. rewrite Hnone in Hfoot.
    apply (proj1 (Forall_forall _ _) Hfoot) in Hin. discriminate Hin.
  - intros f Hf. rewrite Hf in Hfoot.
    assert (Hscope : forall p r0, In (EvRemove p r0) evs ->
                                  chunk_file p
                                  \/ (p = converted_name f /\ endswith f ".wav" = false)).
    { intros p r0 Hin. apply (proj1 (Forall_forall _ _) Hfoot) in Hin.
      inversion Hin as [e Hq| | | | |i r1|r1 Hext| | |]; subst.
      - discriminate Hq.
      - left. now exists i.
      - right. now split. }
    split; [exact Hscope|]. intros r0 Hin.
    destruct (Hscope _ _ Hin) as [[i Hi]|[Hc _]].
    + exact (temp_name_not_chunk f i Hi).
    + exact (temp_name_not_converted f Hc).
Qed.

(** X4.  Segments get files of their own: two segments have the same
    file name only if they have the same index. *)
Theorem chunk_filename_injective :
  forall i j : nat, chunk_filename i = chunk_filename j <-> i = j.
Proof.
  intros i j. split; [|now intros ->].
  unfold chunk_filename. intros H.
  apply string_app_inv_head in H. apply string_app_inv_tail in H.
  now apply show_nat_inj.
Qed.

(** ** A waveform that cannot be loaded *)

(** X5.  When neither [AudioSegment.from_wav] nor [AudioSegment.from_file]
    can load the file, [transcribe_large_audio] does not raise: it returns
    the empty transcript after the two attempts, without any split, export
    or recognition request. *)
Theorem unloadable_waveform_gives_empty_transcript :
  forall (E : Env) (audio_path : path) (min_silence_len silence_thresh : Z) (w : World),
    (forall h, exists e, env_from_wav E h audio_path = Raise e) ->
    (forall h, exists e, env_from_file E h audio_path = Raise e) ->
    exists e1 e2,
      Cli.transcribe_large_audio E audio_path min_silence_len silence_thresh w
      = (Ok ""%string, extend w (failed_load audio_path e1 e2)).
Proof.
  intros E p m t w Hwav Hfile.
  unfold Cli.transcribe_large_audio, Cli.load_sound. unfold_prims. unfold_run.
  destruct (Hwav (trace w ++ [EvPrint ("Loading audio file: " ++ p)%string]))
    as [e1 H1].
  rewrite H1. cbn beta iota zeta delta [trace temp_files extend fst snd].
  match goal with
  | |- context [env_from_file E ?h p] => destruct (Hfile h) as [e2 H2]; rewrite H2
  end.
  cbn beta iota zeta delta [trace temp_files extend fst snd].
  exists e1, e2. unfold failed_load, extend. cbn [trace temp_files].
  repeat rewrite <- app_assoc. reflexivity.
Qed.

(** X5, at work. *)
Lemma unloadable_waveform_gives_empty_transcript_witness :
  exists e1 e2,
    Cli.transcribe_large_audio env_nothing_decodes "talk.wav" 500 (-40) world0
    = (Ok ""%string, extend world0 (failed_load "talk.wav" e1 e2)).
Proof.
  apply (unloadable_waveform_gives_empty_transcript
           env_nothing_decodes "talk.wav" 500 (-40) world0).
  - intros h. eexists. reflexivity.
  - intros h. eexists. reflexivity.
Defined.

(** ** An empty output path *)

Lemma bind_ext {A B} (m : M A) (k1 k2 : A -> M B) w :
  (forall a w', k1 a w' = k2 a w') -> bind m k1 w = bind m k2 w.
Proof. intros H. unfold bind. destruct (m w) as [[a|e] w']; [apply H|reflexivity]. Qed.

Lemma try_ext {A} (m1 m2 : M A) h w :
  (forall w', m1 w' = m2 w') -> try_except m1 h w = try_except m2 h w.
Proof. intros H. unfold try_except. now rewrite H. Qed.

Lemma cli_copy_back_empty E used_backup backup saved w :
  Cli.copy_back E used_backup (Some ""%string) backup saved w
  = Cli.copy_back E used_backup None backup saved w.
Proof. unfold Cli.copy_back. cbn [truthy String.eqb negb]. now rewrite andb_false_r. Qed.

(** X6.  An empty string given as output path is the same as no output
    path, in both programs: the run is the same in every environment, with
    the default output name, and on the command line without a copy back. *)
Theorem empty_output_path_is_no_output_path :
  forall (E : Env) (audio_path : path) (w : World),
    Cli.transcribe_audio E audio_path (Some ""%string) w
    = Cli.transcribe_audio E audio_path None w
    /\ forall status_callback,
         Gui.transcribe_audio E status_callback audio_path (Some ""%string) w
         = Gui.transcribe_audio E status_callback audio_path None w.
Proof.
  intros E a w. split; [|reflexivity].
  unfold Cli.transcribe_audio.
  apply bind_ext. intros start_time w1. apply bind_ext. intros _ w2.
  apply try_ext. intros w3. apply bind_ext. intros [f|] w4; [|reflexivity].
  unfold Cli.process_file. apply bind_ext. intros valid w5.
  destruct (negb valid); [reflexivity|].
  apply bind_ext. intros wav w6. apply bind_ext. intros now w7.
  apply bind_ext. intros text w8. cbn [truthy_opt truthy String.eqb negb].
  apply bind_ext. intros [saved used_backup] w9.
  apply bind_ext. intros files w10. apply bind_ext. intros _ w11.
  apply bind_ext. intros end_time w12. apply bind_ext. intros _ w13.
  unfold bind. now rewrite cli_copy_back_empty.
Qed.

(** ** The desktop pass and job *)



Create HintDb gui_mutation.
#[local] Hint Constructors gui_mutation : gui_mutation.

Ltac gui_inv_solve :=
  repeat match goal with
         | |- inv _ _ _ (extend _ [_]) => apply inv_log
         | H : inv ?t _ _ ?w |- inv ?t _ _ ?w => exact H
         end;
  try solve [apply gui_mutation_none; reflexivity];
  eauto with gui_mutation.

Lemma wp_status cb message Q R w :
  Q tt w -> Q tt (extend w [EvStatus message]) -> wp (Gui.status cb message) Q R w.
Proof. destruct cb; intros H0 H1; [exact H1|exact H0]. Qed.

Ltac gui_wp_steps :=
  repeat first [apply wp_status; cbv beta | wp_step].

Section GuiFootprint.
Variable E : Env.
Variable cb : bool.
Variable f : path.
Variable out : option path.
Variable t0 : history.

Local Abbreviation Mut := (gui_mutation f out).
Local Abbreviation any := (fun _ : list path => True).

Lemma gui_footprint_convert_to_wav w :
  inv t0 Mut any w ->
  wp (Gui.convert_to_wav E cb f)
     (fun wav w' => inv t0 Mut any w'
                    /\ (wav = f \/ (wav = converted_name f /\ endswith f ".wav" = false)))
     (fun _ w' => inv t0 Mut any w') w.
Proof.
  intros Hinv. unfold Gui.convert_to_wav.
  fold (converted_name f).
  gui_wp_steps; try lazymatch goal with |- _ /\ _ => split end; gui_inv_solve.
Qed.

Lemma gui_footprint_recognize_chunk i n chunk full_text w :
  inv t0 Mut any w ->
  wp (Gui.recognize_chunk E cb i n chunk full_text) (fun _ w' => inv t0 Mut any w')
     (fun _ w' => inv t0 Mut any w') w.
Proof.
  intros Hinv. unfold Gui.recognize_chunk. gui_wp_steps; gui_inv_solve.
Qed.

Lemma gui_footprint_for_chunks n :
  forall chunks i full_text w,
    inv t0 Mut any w ->
    wp (Gui.for_chunks E cb n i chunks full_text) (fun _ w' => inv t0 Mut any w')
       (fun _ w' => inv t0 Mut any w') w.
Proof.
  induction chunks as [|chunk chunks IH]; intros i full_text w Hinv;
    cbn [Gui.for_chunks].
  - wp_steps. exact Hinv.
  - wp_step. eapply wp_conseq; [apply gui_footprint_recognize_chunk; exact Hinv| |auto].
    intros ft w' Hinv'. cbv beta in *. now apply IH.
Qed.

Lemma gui_footprint_transcribe_large_audio p m t w :
  inv t0 Mut any w ->
  wp (Gui.transcribe_large_audio E cb p m t) (fun _ w' => inv t0 Mut any w')
     (fun _ w' => inv t0 Mut any w') w.
Proof.
  intros Hinv. unfold Gui.transcribe_large_audio, Gui.segment.
  gui_wp_steps; gui_inv_solve.
  all: try (destruct l; gui_wp_steps; gui_inv_solve).
  all: (eapply wp_conseq; [apply gui_footprint_for_chunks; gui_inv_solve| |auto]);
    intros ft w1 H1; cbv beta in *; wp_steps; exact H1.
Qed.

Lemma gui_footprint_transcribe_audio w :
  inv t0 Mut any w ->
  wp (Gui.transcribe_audio E cb f out) (fun _ w' => inv t0 Mut any w')
     (fun _ w' => inv t0 Mut any w') w.
Proof.
  intros Hinv. unfold Gui.transcribe_audio. gui_wp_steps.
  eapply wp_conseq; [apply gui_footprint_convert_to_wav; gui_inv_solve| |auto].
  intros wav w1 [H1 Hwav]. cbv beta in *.
  fold (default_output f). fold (requested_output out f).
  gui_wp_steps.
  all: (eapply wp_conseq;
        [apply gui_footprint_transcribe_large_audio; gui_inv_solve| |auto]);
    intros text w2 H2; cbv beta in *; gui_wp_steps; gui_inv_solve.
  all: destruct Hwav as [->|[-> Hext]];
    [rewrite String.eqb_refl in *; discriminate|];
    now apply gui_mutation_remove_converted.
Qed.

End GuiFootprint.

Lemma gui_job_footprint E cb a out w :
  exists r evs,
    Gui.transcribe_audio E cb a out w = (r, extend w evs)
    /\ Forall (gui_mutation a out) evs.
Proof.
  assert (Hstart : inv (trace w) (gui_mutation a out) (fun _ => True) w)
    by (now apply inv_start).
  destruct (wp_run _ _ _ _ (gui_footprint_transcribe_audio E cb a out (trace w) w Hstart))
    as (r & w' & Hrun & Hpost).
  destruct (gui_transcribe_audio_run E cb a out w) as (r0 & evs & Hrun0 & _).
  rewrite Hrun0 in Hrun. injection Hrun as <- <-.
  exists r0, evs. split; [exact Hrun0|].
  destruct r0; destruct Hpost as [(evs' & Hevs & Hall) _];
    cbn [extend trace] in Hevs; apply app_inv_head in Hevs; now subst.
Qed.

(** X8.  Every file a desktop job tries to create, overwrite or remove is
    a segment file [temp_chunk_<i>.wav], the converted waveform of its
    input (when the input is not a [.wav] file), or the requested or
    default output; this holds whether the job returns or raises. *)
Theorem gui_job_touches_only_its_files :
  forall (E : Env) (status_callback : bool) (audio_path : path)
         (output_path : option path) (w : World),
    exists r evs,
      Gui.transcribe_audio E status_callback audio_path output_path w
      = (r, extend w evs)
      /\ forall e p,
           In e evs -> In p (touches e) ->
           chunk_file p
           \/ (p = converted_name audio_path /\ endswith audio_path ".wav" = false)
           \/ p = requested_output output_path audio_path.
Proof.
  intros E cb a out w.
  destruct (gui_job_footprint E cb a out w) as (r & evs & Hrun & Hall).
  exists r, evs. split; [exact Hrun|].
  intros e p He Hp. apply (proj1 (Forall_forall _ _) Hall) in He.
  destruct He as [e Hq|x r1 Hext|i x r1|i r1|text r1|r1 Hext];
    cbn [touches] in Hp;
    try (rewrite Hq in Hp; destruct Hp);
    repeat match goal with
           | H : In _ (_ :: _) |- _ => destruct H as [<-|H]
           | H : In _ [] |- _ => destruct H
           end;
    eauto.
  - left. now exists i.
  - left. now exists i.
Qed.

(** ** What reaches the outer handler of the command-line job *)

Ltac routine_solve :=
  repeat match goal with
         | |- inv _ _ _ (extend _ [_]) => apply inv_log
         | H : inv ?t _ _ ?w |- inv ?t _ _ ?w => exact H
         end;
  try reflexivity.

Section Routine.
Variable E : Env.
Variable t0 : history.

Local Abbreviation Routine := (inv t0 (fun ev => is_routine ev = true) (fun _ => True)).
Local Abbreviation Contained := (inv t0 (fun ev => is_contained ev = true) (fun _ => True)).

Lemma routine_convert_to_wav p w :
  Routine w ->
  wp (Cli.convert_to_wav E p) (fun _ w' => Routine w') (fun _ _ => False) w.
Proof. intros Hinv. unfold Cli.convert_to_wav. wp_steps; routine_solve. Qed.

Lemma routine_load_sound p w :
  Routine w ->
  wp (Cli.load_sound E p) (fun _ w' => Routine w') (fun _ _ => False) w.
Proof. intros Hinv. unfold Cli.load_sound. wp_steps; routine_solve. Qed.

Lemma escaped_intro w sound m t e :
  Routine w -> escaped t0 e (extend w [EvSplit sound m t (Raise e)]).
Proof.
  intros Hinv. exists w, (EvSplit sound m t (Raise e)).
  split; [exact Hinv|]. split; [now exists sound, m, t|reflexivity].
Qed.

Lemma routine_segment sound m t w :
  Routine w ->
  wp (Cli.segment E sound m t) (fun _ w' => Routine w') (escaped t0) w.
Proof.
  intros Hinv. unfold Cli.segment, Cli.split_with_retry. wp_steps; routine_solve.
  all: try (destruct l; wp_steps; routine_solve).
  all: apply escaped_intro; routine_solve.
Qed.

Lemma routine_recognize_chunk i n chunk full_text w :
  Routine w ->
  wp (Cli.recognize_chunk E i n chunk full_text) (fun _ w' => Routine w')
     (fun _ _ => False) w.
Proof. intros Hinv. unfold Cli.recognize_chunk. wp_steps; routine_solve. Qed.

Lemma routine_for_chunks n :
  forall chunks i full_text files w,
    Routine w ->
    wp (Cli.for_chunks E n i chunks full_text files) (fun _ w' => Routine w')
       (fun _ _ => False) w.
Proof.
  induction chunks as [|chunk chunks IH]; intros i full_text files w Hinv;
    cbn [Cli.for_chunks].
  - wp_steps. exact Hinv.
  - wp_step. eapply wp_conseq; [apply routine_recognize_chunk; exact Hinv| |auto].
    intros ft w' Hinv'. cbv beta in *. apply IH. exact Hinv'.
Qed.

Lemma routine_remove_chunk_files :
  forall files w,
    Routine w ->
    wp (Cli.remove_chunk_files E files) (fun _ w' => Routine w') (fun _ _ => False) w.
Proof.
  induction files as [|p files IH]; intros w Hinv; cbn [Cli.remove_chunk_files].
  - wp_steps. exact Hinv.
  - wp_steps; apply IH; routine_solve.
Qed.

Lemma routine_transcribe_large_audio p m t w :
  Routine w ->
  wp (Cli.transcribe_large_audio E p m t) (fun _ w' => Routine w') (escaped t0) w.
Proof.
  intros Hinv. unfold Cli.transcribe_large_audio. wp_step.
  eapply wp_conseq; [apply routine_load_sound; exact Hinv| |intros ? ? []].
  intros [sound|] w1 H1; cbv beta in *; [|wp_steps; exact H1].
  wp_step. eapply wp_conseq; [apply routine_segment; exact H1| |auto].
  intros chunks w2 H2. cbv beta in *. wp_steps.
  eapply wp_conseq; [apply routine_for_chunks; routine_solve| |intros ? ? []].
  intros [full_text files] w3 H3. cbv beta in *. wp_step.
  eapply wp_conseq; [apply routine_remove_chunk_files; exact H3| |intros ? ? []].
  intros ? w4 H4. cbv beta in *. wp_steps. exact H4.
Qed.

Lemma routine_transcribe_with_recovery p w :
  Routine w ->
  wp (Cli.transcribe_with_recovery E p) (fun _ w' => Routine w') (escaped t0) w.
Proof.
  intros Hinv. unfold Cli.transcribe_with_recovery. wp_steps.
  eapply wp_conseq; [apply routine_transcribe_large_audio; routine_solve| |auto].
  intros text w1 H1. cbv beta in *. wp_steps; [|exact H1].
  eapply wp_conseq; [apply routine_transcribe_large_audio; routine_solve|auto|auto].
Qed.

Lemma routine_normalize_input p w :
  Routine w ->
  wp (Cli.normalize_input E p) (fun _ w' => Routine w') (fun _ _ => False) w.
Proof.
  intros Hinv. unfold Cli.normalize_input. wp_steps.
  eapply wp_conseq; [apply routine_convert_to_wav; exact Hinv| |intros ? ? []].
  intros wav w1 H1. cbv beta in *. wp_steps.
  - eapply inv_set; [exact H1|exact I].
  - exact H1.
Qed.

Lemma routine_remove_temp_files_quietly :
  forall files w,
    Routine w ->
    wp (Cli.remove_temp_files_quietly E files) (fun _ w' => Routine w')
       (fun _ _ => False) w.
Proof.
  induction files as [|p files IH]; intros w Hinv; cbn [Cli.remove_temp_files_quietly].
  - wp_steps. exact Hinv.
  - wp_steps; apply IH; routine_solve.
Qed.

Lemma routine_scan_directory p :
  forall extensions audio_files w,
    Routine w ->
    wp (Cli.scan_directory E p extensions audio_files) (fun _ w' => Routine w')
       (fun _ _ => False) w.
Proof.
  induction extensions as [|x extensions IH]; intros audio_files w Hinv;
    cbn [Cli.scan_directory].
  - wp_steps. exact Hinv.
  - wp_steps. apply IH. routine_solve.
Qed.

Lemma routine_select_input p w :
  Routine w ->
  wp (Cli.select_input E p) (fun _ w' => Routine w') (fun _ _ => False) w.
Proof.
  intros Hinv. unfold Cli.select_input. wp_steps; [|routine_solve].
  eapply wp_conseq; [apply routine_scan_directory; routine_solve| |intros ? ? []].
  intros [|first rest] w1 H1; cbv beta in *; wp_steps; routine_solve.
Qed.

Lemma contained_save_transcription target backup text w :
  Contained w ->
  wp (Cli.save_transcription E target backup text) (fun _ w' => Contained w')
     (fun _ _ => False) w.
Proof. intros Hinv. unfold Cli.save_transcription. wp_steps; routine_solve. Qed.

Lemma contained_remove_temp_files :
  forall files w,
    Contained w ->
    wp (Cli.remove_temp_files E files) (fun _ w' => Contained w') (fun _ _ => False) w.
Proof.
  induction files as [|p files IH]; intros w Hinv; cbn [Cli.remove_temp_files].
  - wp_steps. exact Hinv.
  - wp_steps; apply IH; routine_solve.
Qed.

Lemma contained_copy_back used_backup original backup saved w :
  Contained w ->
  wp (Cli.copy_back E used_backup original backup saved) (fun _ w' => Contained w')
     (fun _ _ => False) w.
Proof.
  intros Hinv. unfold Cli.copy_back. destruct original as [requested|].
  - wp_steps; routine_solve.
  - wp_steps. exact Hinv.
Qed.

Lemma routine_contained w : Routine w -> Contained w.
Proof.
  intros H. eapply inv_weaken; [exact H| |auto].
  intros ev Hev. cbv beta in *. unfold is_routine in Hev.
  now apply andb_prop in Hev.
Qed.

Lemma contained_process_file start_time p out w :
  Routine w ->
  wp (Cli.process_file E start_time p out) (fun _ w' => Contained w') (escaped t0) w.
Proof.
  intros Hinv. unfold Cli.process_file. wp_steps.
  - apply routine_contained. routine_solve.
  - eapply wp_conseq; [apply routine_normalize_input; routine_solve| |intros ? ? []].
    intros wav w1 H1. cbv beta in *. wp_steps.
    eapply wp_conseq; [apply routine_transcribe_with_recovery; routine_solve| |auto].
    intros text w2 H2. cbv beta in *. apply routine_contained in H2. wp_step.
    eapply wp_conseq; [apply contained_save_transcription; exact H2| |intros ? ? []].
    intros [saved used_backup] w3 H3. cbv beta in *. wp_steps.
    eapply wp_conseq; [apply contained_remove_temp_files; exact H3| |intros ? ? []].
    intros ? w4 H4. cbv beta in *. wp_steps.
    eapply wp_conseq; [apply contained_copy_back; routine_solve| |intros ? ? []].
    intros final w5 H5. cbv beta in *. wp_steps. exact H5.
Qed.

End Routine.

Lemma cli_job_course E audio_path output_path w :
  exists r evs tf,
    Cli.transcribe_audio E audio_path output_path w
    = (Ok r, {| trace := trace w ++ evs; temp_files := tf |})
    /\ job_course evs.
Proof.
  assert (Hwp : wp (Cli.transcribe_audio E audio_path output_path)
                   (fun _ w' => exists evs, trace w' = trace w ++ evs /\ job_course evs)
                   (fun _ _ => False) w).
  { unfold Cli.transcribe_audio. do 5 wp_step. apply wp_try.
    set (w1 := {| trace := trace (extend w [EvTime (env_time E (trace w))]);
                  temp_files := [] |}).
    assert (H1 : inv (trace w) (fun ev => is_routine ev = true) (fun _ => True) w1).
    { split; [|exact I]. exists [EvTime (env_time E (trace w))].
      split; [reflexivity|]. now constructor. }
    wp_step. eapply wp_conseq; [apply routine_select_input; exact H1| |intros ? ? []].
    intros selected w2 H2. cbv beta in *.
    assert (Hdone : forall w', inv (trace w) (fun ev => is_contained ev = true)
                                   (fun _ => True) w' ->
                               exists evs, trace w' = trace w ++ evs /\ job_course evs).
    { intros w' [(evs & Hevs & Hall) _]. exists evs. split; [exact Hevs|now left]. }
    destruct selected as [f|].
    - eapply wp_conseq; [apply contained_process_file; exact H2| |].
      + intros r w3 H3. cbv beta in *. apply Hdone. exact H3.
      + intros e w3 (w0 & ev & [(before & Hbefore & Hall) _] & Hev & ->). cbv beta.
        wp_steps.
        match goal with
        | |- wp _ _ _ ?w4 =>
            eapply wp_conseq;
              [apply (routine_remove_temp_files_quietly E (trace w4));
               apply inv_start; [reflexivity|exact I]
              | |intros ? ? []]
        end.
        intros ? w5 [(rest & Hrest & Hall') _]. cbv beta in *. wp_steps.
        eexists. split.
        * rewrite Hrest. cbn [extend trace]. rewrite Hbefore.
          rewrite <- !app_assoc. reflexivity.
        * right. exists before, ev, e. do 2 eexists. exists rest.
          split; [reflexivity|]. now repeat split.
    - wp_steps. apply Hdone. apply routine_contained. exact H2. }
  apply wp_run in Hwp. destruct Hwp as (r & [t tf] & Hrun & Hpost).
  destruct r as [r|e]; [|contradiction].
  destruct Hpost as (evs & Hevs & Hcourse). cbn [trace] in Hevs. subst t.
  now exists r, evs, tf.
Qed.

Lemma contained_not_raised e ev : is_contained ev = true -> ~ split_raised e ev.
Proof. intros Hev (sound & m & t & ->). discriminate. Qed.

Lemma contained_no_traceback evs :
  Forall (fun ev => is_contained ev = true) evs -> traceback_printed evs = false.
Proof.
  induction 1 as [|ev evs Hev _ IH]; [reflexivity|].
  unfold traceback_printed in *. cbn [existsb]. rewrite IH.
  now destruct ev.
Qed.

Lemma contained_no_split_raised evs e :
  Forall (fun ev => is_contained ev = true) evs -> ~ Exists (split_raised e) evs.
Proof.
  intros Hall Hex. apply Exists_exists in Hex. destruct Hex as (ev & Hin & Hev).
  rewrite Forall_forall in Hall. exact (contained_not_raised e ev (Hall ev Hin) Hev).
Qed.

Lemma routine_is_contained ev : is_routine ev = true -> is_contained ev = true.
Proof. unfold is_routine. intros H. now apply andb_prop in H. Qed.

Lemma routine_is_plain ev : is_routine ev = true -> is_plain ev = true.
Proof. unfold is_routine. intros H. now apply andb_prop in H. Qed.

(** X21.  A command-line job ends in the handler of the outer try exactly
    when a call of silence detection raised.  The traceback printed is that
    of the exception silence detection raised, and such a job attempts no
    write of a transcript and no copy.  Failures of decoding, conversion,
    export, recognition, writing, removal and copying never reach the
    handler. *)
Theorem silence_detection_alone_reaches_the_handler :
  forall (E : Env) (audio_path : path) (output_path : option path) (w : World),
    exists r evs tf,
      Cli.transcribe_audio E audio_path output_path w
      = (Ok r, {| trace := trace w ++ evs; temp_files := tf |})
      /\ (critical_failure evs <-> exists e, Exists (split_raised e) evs)
      /\ (forall e, In (EvTraceback e) evs -> Exists (split_raised e) evs)
      /\ (critical_failure evs -> Forall (fun ev => is_plain ev = true) evs).
Proof.
  intros E audio_path output_path w.
  destruct (cli_job_course E audio_path output_path w)
    as (r & evs & tf & Hrun & Hcourse).
  exists r, evs, tf. split; [exact Hrun|]. unfold critical_failure.
  destruct Hcourse
    as [Hall|(before & ev & e & s1 & s2 & rest & -> & Hev & Hbefore & Hrest)].
  - pose proof (contained_no_traceback evs Hall) as Hnone.
    split; [|split].
    + split; [congruence|].
      intros [e Hex]. now apply contained_no_split_raised in Hex.
    + intros e Hin. rewrite Forall_forall in Hall. now apply Hall in Hin.
    + congruence.
  - assert (Hraised : Exists (split_raised e)
                        (before ++ ev :: EvPrint s1 :: EvPrint s2
                         :: EvTraceback e :: rest)).
    { apply Exists_app. right. now constructor. }
    split; [|split].
    + split; [intros _; now exists e|]. intros _.
      unfold traceback_printed. rewrite existsb_app. cbn [existsb].
      destruct ev; cbn; now rewrite ?orb_true_r.
    + intros e' Hin. apply in_app_or in Hin.
      rewrite Forall_forall in Hbefore, Hrest.
      destruct Hin as [Hin|[Heq|[Hin|[Hin|[Hin|Hin]]]]]; try discriminate.
      * apply Hbefore in Hin. discriminate.
      * destruct Hev as (? & ? & ? & ->). discriminate.
      * now injection Hin as <-.
      * apply Hrest in Hin. discriminate.
    + intros _. apply Forall_app. split.
      * eapply Forall_impl; [|exact Hbefore]. exact routine_is_plain.
      * destruct Hev as (sound & m & t & ->). repeat constructor.
        eapply Forall_impl; [|exact Hrest]. exact routine_is_plain.
Qed.

(** Silence detection fails on a compressed file: the job ends in the
    handler, writes nothing and removes the converted waveform. *)
Example cli_failed_silence_detection_run :
  let run := Cli.transcribe_audio env_split_fails "talks/talk.mp3" (Some "talk.txt")
                                  world0 in
  fst run = Ok None
  /\ In (EvTraceback (OtherException "out of memory")) (trace (snd run))
  /\ write_attempts (trace (snd run)) = []
  /\ In (EvRemove "talk_converted.wav" (Ok tt)) (trace (snd run)).
Proof. vm_compute. repeat split; do 30 (try (now left); right). Qed.

(** ** The desktop job stops at the first failure *)

Lemma stopped_intro t0 T e ev w :
  inv t0 (fun ev => is_tolerated ev = true) T w ->
  raised ev = Some e -> no_result ev = false ->
  stopped t0 T e (extend w [ev]).
Proof. intros Hinv Hev Hno. now exists w, ev. Qed.

Ltac tolerated_solve :=
  try (apply stopped_intro; [|reflexivity|reflexivity]);
  repeat match goal with
         | |- inv _ _ _ (extend _ [_]) => apply inv_log
         | H : inv ?t _ _ ?w |- inv ?t _ _ ?w => exact H
         end;
  try reflexivity.

Section Stops.
Variable E : Env.
Variable cb : bool.
Variable t0 : history.
Variable T : list path -> Prop.

Local Abbreviation Tolerated := (inv t0 (fun ev => is_tolerated ev = true) T).

Lemma stops_convert_to_wav p w :
  Tolerated w ->
  wp (Gui.convert_to_wav E cb p) (fun _ w' => Tolerated w') (stopped t0 T) w.
Proof. intros Hinv. unfold Gui.convert_to_wav. gui_wp_steps; tolerated_solve. Qed.

Lemma stops_segment sound m t w :
  Tolerated w ->
  wp (Gui.segment E cb sound m t) (fun _ w' => Tolerated w') (stopped t0 T) w.
Proof.
  intros Hinv. unfold Gui.segment. gui_wp_steps; tolerated_solve.
  all: destruct l; gui_wp_steps; tolerated_solve.
Qed.

Lemma stops_recognize_chunk i n chunk full_text w :
  Tolerated w ->
  wp (Gui.recognize_chunk E cb i n chunk full_text) (fun _ w' => Tolerated w')
     (stopped t0 T) w.
Proof. intros Hinv. unfold Gui.recognize_chunk. gui_wp_steps; tolerated_solve. Qed.

Lemma stops_for_chunks n :
  forall chunks i full_text w,
    Tolerated w ->
    wp (Gui.for_chunks E cb n i chunks full_text) (fun _ w' => Tolerated w')
       (stopped t0 T) w.
Proof.
  induction chunks as [|chunk chunks IH]; intros i full_text w Hinv;
    cbn [Gui.for_chunks].
  - wp_steps. exact Hinv.
  - wp_step. eapply wp_conseq; [apply stops_recognize_chunk; exact Hinv| |auto].
    intros ft w' Hinv'. cbv beta in *. apply IH. exact Hinv'.
Qed.

Lemma stops_transcribe_large_audio p m t w :
  Tolerated w ->
  wp (Gui.transcribe_large_audio E cb p m t) (fun _ w' => Tolerated w') (stopped t0 T) w.
Proof.
  intros Hinv. unfold Gui.transcribe_large_audio.
  gui_wp_steps; tolerated_solve.
  all: eapply wp_conseq; [apply stops_segment; tolerated_solve| |auto].
  all: intros chunks w2 H2; cbv beta in *; gui_wp_steps.
  all: (eapply wp_conseq; [apply stops_for_chunks; tolerated_solve| |auto]).
  all: intros ft w3 H3; cbv beta in *; gui_wp_steps; exact H3.
Qed.

End Stops.

(** X23.  The desktop job stops at the first failure.  It returns only if
    no external call raised anything but the two errors of the recognition
    service it handles; otherwise it raises the exception of the first
    other failure, and that call is the last thing the job did: nothing is
    retried, removed or reported after it. *)
Theorem gui_job_stops_at_first_failure :
  forall (E : Env) (status_callback : bool) (audio_path : path)
         (output_path : option path) (w : World),
    exists r evs,
      Gui.transcribe_audio E status_callback audio_path output_path w
      = (r, extend w evs)
      /\ match r with
         | Ok _ => Forall (fun ev => is_tolerated ev = true) evs
         | Raise e =>
             exists before ev,
               evs = before ++ [ev]
               /\ raised ev = Some e
               /\ no_result ev = false
               /\ Forall (fun ev => is_tolerated ev = true) before
         end.
Proof.
  intros E cb a out w.
  set (T := fun l : list path => l = temp_files w).
  assert (Hwp : wp (Gui.transcribe_audio E cb a out)
                   (fun _ w' => inv (trace w) (fun ev => is_tolerated ev = true) T w')
                   (stopped (trace w) T) w).
  { assert (H0 : inv (trace w) (fun ev => is_tolerated ev = true) T w)
      by (apply inv_start; reflexivity).
    unfold Gui.transcribe_audio. gui_wp_steps.
    eapply wp_conseq;
      [apply (stops_convert_to_wav E cb (trace w) T); tolerated_solve| |auto].
    intros wav w1 H1. cbv beta in *. gui_wp_steps.
    all: eapply wp_conseq;
      [apply (stops_transcribe_large_audio E cb (trace w) T); tolerated_solve| |auto].
    all: intros text w2 H2; cbv beta in *; gui_wp_steps; tolerated_solve. }
  apply wp_run in Hwp. destruct Hwp as (r & w' & Hrun & Hpost).
  rewrite Hrun. destruct r as [p|e].
  - destruct Hpost as [(evs & Hevs & Hall) Htf]. unfold T in Htf.
    exists (Ok p), evs. split; [|exact Hall].
    destruct w' as [t tf]. cbn [trace temp_files] in *. now subst.
  - destruct Hpost as (w0 & ev & [(before & Hbefore & Hall) Htf] & Hev & Hno & ->).
    unfold T in Htf. exists (Raise e), (before ++ [ev]). split.
    + destruct w0 as [t tf]. cbn [trace temp_files] in *. subst.
      unfold extend. cbn [trace temp_files]. now rewrite app_assoc.
    + now exists before, ev.
Qed.

(** ** The desktop job that returns *)

Lemma tally_log t0 c ws ts w ev :
  tally t0 c ws ts w ->
  tally t0 (c + count_passes [ev]) (ws ++ write_attempts [ev])
           (ts ++ recognized_texts [ev]) (extend w [ev]).
Proof.
  intros (evs & Hevs & Hc & Hws & Hts). exists (evs ++ [ev]).
  cbn [extend trace]. rewrite Hevs, app_assoc.
  rewrite count_passes_app, write_attempts_app, recognized_texts_app.
  now subst.
Qed.

Lemma tally_neutral t0 c ws ts w ev :
  is_neutral ev = true -> tally t0 c ws ts w -> tally t0 c ws ts (extend w [ev]).
Proof.
  intros Hev H. apply (tally_log _ _ _ _ _ ev) in H.
  destruct ev; try discriminate Hev; cbn in H;
    rewrite ?Nat.add_0_r, ?app_nil_r in H; try exact H.
  all: destruct r; try discriminate Hev; cbn in H;
    rewrite ?Nat.add_0_r, ?app_nil_r in H; exact H.
Qed.

Lemma tally_from_wav t0 c ws ts w p r :
  tally t0 c ws ts w -> tally t0 (S c) ws ts (extend w [EvFromWav p r]).
Proof.
  intros H. apply (tally_log _ _ _ _ _ (EvFromWav p r)) in H.
  cbn in H. now rewrite Nat.add_1_r, !app_nil_r in H.
Qed.

Lemma tally_text t0 c ws ts w rec d text :
  tally t0 c ws ts w ->
  tally t0 c ws (ts ++ [text]) (extend w [EvRecognizeGoogle rec d (Ok text)]).
Proof.
  intros H. apply (tally_log _ _ _ _ _ (EvRecognizeGoogle rec d (Ok text))) in H.
  cbn in H. now rewrite Nat.add_0_r, !app_nil_r in H.
Qed.

Lemma tally_write t0 c ws ts w p text :
  tally t0 c ws ts w ->
  tally t0 c (ws ++ [(p, text, true)]) ts (extend w [EvWriteFile p text (Ok tt)]).
Proof.
  intros H. apply (tally_log _ _ _ _ _ (EvWriteFile p text (Ok tt))) in H.
  cbn in H. now rewrite Nat.add_0_r, !app_nil_r in H.
Qed.

Ltac tally_solve :=
  repeat first [ eassumption
               | apply tally_neutral; [reflexivity|]
               | apply tally_from_wav
               | apply tally_text
               | apply tally_write ].

Section Returns.
Variable E : Env.
Variable cb : bool.
Variable t0 : history.

Local Abbreviation anything := (fun (_ : exn) (_ : World) => True).

Lemma returns_convert_to_wav c ws ts p w :
  tally t0 c ws ts w ->
  wp (Gui.convert_to_wav E cb p) (fun _ w' => tally t0 c ws ts w') anything w.
Proof.
  intros H. unfold Gui.convert_to_wav. gui_wp_steps; try exact I; tally_solve.
Qed.

Lemma returns_segment c ws ts sound m t w :
  tally t0 c ws ts w ->
  wp (Gui.segment E cb sound m t) (fun _ w' => tally t0 c ws ts w') anything w.
Proof.
  intros H. unfold Gui.segment. gui_wp_steps; try exact I; tally_solve.
  all: try (destruct l; gui_wp_steps; tally_solve).
Qed.

Lemma returns_recognize_chunk c ws ts i n chunk w :
  tally t0 c ws ts w ->
  wp (Gui.recognize_chunk E cb i n chunk (spaced ts))
     (fun full_text w' => exists ts', tally t0 c ws ts' w' /\ full_text = spaced ts')
     anything w.
Proof.
  intros H. unfold Gui.recognize_chunk. gui_wp_steps; try exact I.
  all: eexists; (split; [tally_solve|]);
    try reflexivity; rewrite spaced_app; reflexivity.
Qed.

Lemma returns_for_chunks c ws n :
  forall chunks i ts w,
    tally t0 c ws ts w ->
    wp (Gui.for_chunks E cb n i chunks (spaced ts))
       (fun full_text w' => exists ts', tally t0 c ws ts' w' /\ full_text = spaced ts')
       anything w.
Proof.
  induction chunks as [|chunk chunks IH]; intros i ts w H; cbn [Gui.for_chunks].
  - wp_steps. now exists ts.
  - wp_step. eapply wp_conseq; [apply returns_recognize_chunk; exact H| |auto].
    intros ft w' (ts' & H' & ->). cbv beta in *. now apply IH.
Qed.

Lemma returns_transcribe_large_audio c ws p m t w :
  tally t0 c ws [] w ->
  wp (Gui.transcribe_large_audio E cb p m t)
     (fun text w' => exists ts, tally t0 (S c) ws ts w' /\ text = strip (spaced ts))
     anything w.
Proof.
  intros H. unfold Gui.transcribe_large_audio. gui_wp_steps; try exact I.
  all: eapply wp_conseq; [apply (returns_segment (S c) ws []); tally_solve| |auto].
  all: intros chunks w2 H2; cbv beta in *; gui_wp_steps.
  all: (eapply wp_conseq;
        [apply (returns_for_chunks (S c) ws _ _ _ []); tally_solve| |auto]).
  all: intros ft w3 (ts & H3 & ->); cbv beta in *; gui_wp_steps; now exists ts.
Qed.

End Returns.

Lemma returns_transcribe_audio E cb a out w :
  wp (Gui.transcribe_audio E cb a out)
     (fun p w' =>
        exists ts,
          tally (trace w) 1 [(p, strip (spaced ts), true)] ts w'
          /\ p = requested_output out a)
     (fun _ _ => True) w.
Proof.
  assert (H0 : tally (trace w) 0 [] [] w).
  { exists []. now rewrite app_nil_r. }
  unfold Gui.transcribe_audio.
  fold (default_output a). fold (requested_output out a). gui_wp_steps.
  eapply wp_conseq;
    [apply (returns_convert_to_wav E cb (trace w) 0 [] []); tally_solve| |auto].
  intros wav w1 H1. cbv beta in *. gui_wp_steps.
  all: eapply wp_conseq;
    [apply (returns_transcribe_large_audio E cb (trace w) 0 []); tally_solve| |auto].
  all: intros text w2 (ts & H2 & ->); cbv beta in *; gui_wp_steps; try exact I.
  all: exists ts; (split; [|reflexivity]);
    repeat match goal with u : unit |- _ => destruct u end;
    tally_solve; apply (tally_write (trace w) 1 [] ts); exact H2.
Qed.

(** X24.  A desktop job that returns has decoded the waveform once,
    whatever the transcript (there is no second pass on an empty one), and
    has written the transcript once, with success, to the path it returns:
    the requested output path, or the default name when none was given.
    What it wrote is the space-separated join, stripped, of the texts the
    recognition service returned during the run. *)
Theorem gui_job_that_returns :
  forall (E : Env) (status_callback : bool) (audio_path : path)
         (output_path : option path) (w : World),
    exists r evs,
      Gui.transcribe_audio E status_callback audio_path output_path w
      = (r, extend w evs)
      /\ forall p,
           r = Ok p ->
           p = requested_output output_path audio_path
           /\ count_passes evs = 1
           /\ write_attempts evs
              = [(p, strip (String.concat " " (recognized_texts evs)), true)].
Proof.
  intros E cb a out w.
  destruct (gui_transcribe_audio_run E cb a out w) as (r & evs & Hrun & _).
  exists r, evs. split; [exact Hrun|]. intros p ->.
  pose proof (returns_transcribe_audio E cb a out w) as Hwp.
  unfold wp in Hwp. rewrite Hrun in Hwp.
  destruct Hwp as (ts & (evs' & Hevs & Hc & Hws & Hts) & Hp).
  cbn [extend trace] in Hevs. apply app_inv_head in Hevs. subst evs'.
  split; [exact Hp|]. split; [exact Hc|].
  rewrite Hws, Hts. now rewrite strip_spaced.
Qed.

(** ** The configuration file *)

Lemma dict_get_set key value members k :
  Config.dict_get k (Config.dict_set key value members)
  = if String.eqb key k then Some value else Config.dict_get k members.
Proof.
  induction members as [|[k0 v0] members IH]; cbn [Config.dict_set Config.dict_get].
  - reflexivity.
  - destruct (String.eqb k0 key) eqn:Hk0; cbn [Config.dict_get].
    + apply String.eqb_eq in Hk0. subst k0.
      destruct (String.eqb key k); reflexivity.
    + destruct (String.eqb k0 k) eqn:Hk.
      * apply String.eqb_eq in Hk. subst k0. rewrite String.eqb_sym, Hk0. reflexivity.
      * exact IH.
Qed.

Lemma dict_set_absent key value members :
  Config.dict_mem key members = false ->
  Config.dict_set key value members = members ++ [(key, value)].
Proof.
  unfold Config.dict_mem.
  induction members as [|[k0 v0] members IH]; cbn [Config.dict_set Config.dict_get app];
    [reflexivity|].
  destruct (String.eqb k0 key); [discriminate|]. intros H. now rewrite IH.
Qed.

(** The loop that merges the defaults into an object never raises; it
    appends the members that are missing and leaves the others alone. *)
Lemma merge_defaults_object items :
  forall members w,
  exists added,
    Config.merge_defaults items (Config.JObject members) w
    = (Ok (Config.JObject (members ++ added)), w)
    /\ (forall key,
           Config.dict_get key (members ++ added)
           = match Config.dict_get key members with
             | Some v => Some v
             | None => Config.dict_get key items
             end).
Proof.
  induction items as [|[key value] items IH]; intros members w;
    cbn [Config.merge_defaults].
  - exists []. rewrite app_nil_r. split; [reflexivity|].
    intros key. now destruct (Config.dict_get key members).
  - unfold bind at 1. cbn [Config.contains]. unfold Config.lift at 1.
    destruct (Config.dict_mem key members) eqn:Hmem; cbn [negb].
    + unfold bind at 1. unfold ret at 1.
      destruct (IH members w) as (added & Hrun & Hget).
      exists added. split; [exact Hrun|]. intros k. rewrite Hget.
      destruct (Config.dict_get k members) eqn:Hk; [reflexivity|].
      cbn [Config.dict_get]. destruct (String.eqb key k) eqn:Hkey; [|reflexivity].
      apply String.eqb_eq in Hkey. subst k. unfold Config.dict_mem in Hmem.
      now rewrite Hk in Hmem.
    + unfold bind at 1. cbn [Config.setitem]. unfold Config.lift at 1.
      rewrite (dict_set_absent _ _ _ Hmem).
      destruct (IH (members ++ [(key, value)]) w) as (added & Hrun & Hget).
      exists ((key, value) :: added). rewrite <- app_assoc in Hrun, Hget.
      cbn [app] in Hrun, Hget. split; [exact Hrun|]. intros k. rewrite Hget.
      rewrite <- (dict_set_absent _ _ _ Hmem), dict_get_set.
      cbn [Config.dict_get]. destruct (String.eqb key k) eqn:Hkey.
      * apply String.eqb_eq in Hkey. subst k. unfold Config.dict_mem in Hmem.
        destruct (Config.dict_get key members); [discriminate|reflexivity].
      * destruct (Config.dict_get k members); reflexivity.
Qed.

Lemma merge_defaults_run items config w :
  exists r, Config.merge_defaults items config w = (r, w).
Proof.
  revert config w. induction items as [|[key value] items IH]; intros config w;
    cbn [Config.merge_defaults].
  - eexists. reflexivity.
  - destruct config; cbn [Config.contains]; unfold bind, ret, Config.lift; cbn beta iota;
      try (eexists; reflexivity);
      match goal with
      | |- context [negb ?b] => destruct b; cbn [negb Config.setitem]
      end;
      try (eexists; reflexivity); apply IH.
Qed.

(** [load_config], step by step. *)
Lemma load_config_run E read_json w :
  Config.load_config E read_json w
  = if env_exists E (trace w) (Config.config_path E) then
      match read_json (Config.config_path E)
                      (extend w [EvExists (Config.config_path E) true]) with
      | (Ok config, w1) =>
          match Config.merge_defaults (Config.default_items E) config w1 with
          | (Ok merged, w2) => (Ok merged, w2)
          | (Raise _, w2) => (Ok (Config.default_config E), w2)
          end
      | (Raise _, w1) => (Ok (Config.default_config E), w1)
      end
    else (Ok (Config.default_config E),
          extend w [EvExists (Config.config_path E) false]).
Proof.
  unfold Config.load_config, bind, path_exists, ask, try_except. cbv zeta.
  destruct (env_exists E (trace w) (Config.config_path E)); [|reflexivity].
  destruct (read_json _ _) as [[config|e] w1]; reflexivity.
Qed.

(** X9.  [load_config] never raises, whatever reading the file does, and
    it returns the defaults when the file does not exist and when reading
    or parsing it raises. *)
Theorem load_config_never_raises :
  forall (E : Env) (read_json : path -> M Config.json) (w : World),
    (exists config w', Config.load_config E read_json w = (Ok config, w'))
    /\ (env_exists E (trace w) (Config.config_path E) = false ->
        Config.load_config E read_json w
        = (Ok (Config.default_config E),
           extend w [EvExists (Config.config_path E) false]))
    /\ (forall e w1,
           env_exists E (trace w) (Config.config_path E) = true ->
           read_json (Config.config_path E)
                     (extend w [EvExists (Config.config_path E) true])
           = (Raise e, w1) ->
           Config.load_config E read_json w = (Ok (Config.default_config E), w1)).
Proof.
  intros E read_json w. rewrite load_config_run. split; [|split].
  - destruct (env_exists E (trace w) (Config.config_path E));
      [|do 2 eexists; reflexivity].
    destruct (read_json _ _) as [[config|e] w1]; [|do 2 eexists; reflexivity].
    destruct (merge_defaults_run (Config.default_items E) config w1) as [[c|e] ->];
      do 2 eexists; reflexivity.
  - now intros ->.
  - intros e w1 -> ->. reflexivity.
Qed.

(** X10.  When the file holds a JSON object, [load_config] returns that
    object with the missing defaults appended: a key of the file keeps the
    file's value, whatever it is, a key the file lacks gets the default, and
    keys that are not defaults are kept. *)
Theorem load_config_merges_defaults :
  forall (E : Env) (read_json : path -> M Config.json) (w w1 : World)
         (members : list (string * Config.json)),
    env_exists E (trace w) (Config.config_path E) = true ->
    read_json (Config.config_path E)
              (extend w [EvExists (Config.config_path E) true])
    = (Ok (Config.JObject members), w1) ->
    exists added,
      Config.load_config E read_json w = (Ok (Config.JObject (members ++ added)), w1)
      /\ forall key,
           Config.dict_get key (members ++ added)
           = match Config.dict_get key members with
             | Some value => Some value
             | None => Config.dict_get key (Config.default_items E)
             end.
Proof.
  intros E read_json w w1 members Hexists Hread.
  destruct (merge_defaults_object (Config.default_items E) members w1)
    as (added & Hrun & Hget).
  exists added. split; [|exact Hget].
  now rewrite load_config_run, Hexists, Hread, Hrun.
Qed.

(** X10, at work: a file that switches the dependency check off and holds
    a key of its own. *)
Lemma load_config_merges_defaults_witness :
  exists added,
    Config.load_config env_ok (fun _ => ret sample_config) world0
    = (Ok (Config.JObject
             ([("auto_install_deps", Config.JBool false);
               ("theme", Config.JString "dark")]%string ++ added)),
       extend world0 [EvExists (Config.config_path env_ok) true])
    /\ forall key,
         Config.dict_get key
           ([("auto_install_deps", Config.JBool false);
             ("theme", Config.JString "dark")]%string ++ added)
         = match Config.dict_get key
                   [("auto_install_deps", Config.JBool false);
                    ("theme", Config.JString "dark")]%string with
           | Some value => Some value
           | None => Config.dict_get key (Config.default_items env_ok)
           end.
Proof.
  apply (load_config_merges_defaults env_ok (fun _ => ret sample_config) world0).
  - reflexivity.
  - reflexivity.
Defined.

Lemma merge_defaults_not_object items config w :
  (forall members, config <> Config.JObject members) ->
  exists r,
    Config.merge_defaults items config w = (r, w)
    /\ if forallb (fun key => match Config.contains config key with
                              | Ok present => present
                              | Raise _ => false
                              end) (map fst items)
       then r = Ok config
       else exists e, r = Raise e.
Proof.
  intros Hnot. induction items as [|[key value] items (r & Hrun & Hr)];
    cbn [Config.merge_defaults map forallb fst].
  - eexists. split; reflexivity.
  - unfold bind, Config.lift, ret.
    destruct config as [| | | | |members]; cbn [Config.contains];
      try (eexists; split; [reflexivity|eexists; reflexivity]);
      try (exfalso; now apply (Hnot members));
      match goal with
      | |- context [negb ?b] => destruct b eqn:Hb; cbn [negb andb Config.setitem]
      end;
      try (eexists; split; [reflexivity|eexists; reflexivity]);
      exists r; split; assumption.
Qed.

(** X11.  When the file holds a JSON value that is not an object, the
    value is returned as it is, without any default, if every default key
    is [in] it (an array that lists the four keys, a string that contains
    them); otherwise, and for every number, boolean and [null], the
    defaults are returned. *)
Theorem load_config_of_non_object :
  forall (E : Env) (read_json : path -> M Config.json) (w w1 : World)
         (config : Config.json),
    env_exists E (trace w) (Config.config_path E) = true ->
    read_json (Config.config_path E)
              (extend w [EvExists (Config.config_path E) true])
    = (Ok config, w1) ->
    (forall members, config <> Config.JObject members) ->
    Config.load_config E read_json w
    = (Ok (if Config.has_all_keys E config then config else Config.default_config E),
       w1)
    /\ match config with
       | Config.JNull | Config.JBool _ | Config.JNumber _ =>
           Config.has_all_keys E config = false
       | _ => True
       end.
Proof.
  intros E read_json w w1 config Hexists Hread Hnot.
  rewrite load_config_run, Hexists, Hread.
  destruct (merge_defaults_not_object (Config.default_items E) config w1 Hnot)
    as (r & -> & Hr).
  fold (Config.has_all_keys E config) in Hr. split.
  - destruct (Config.has_all_keys E config).
    + now subst r.
    + destruct Hr as [e ->]. reflexivity.
  - destruct config; try exact I; reflexivity.
Qed.

(** X11, at work: a file that holds the four keys as an array. *)
Lemma load_config_of_non_object_witness :
  Config.load_config
    env_ok
    (fun _ => ret (Config.JArray (map (fun k => Config.JString (fst k))
                                      (Config.default_items env_ok))))
    world0
  = (Ok (if Config.has_all_keys
              env_ok
              (Config.JArray (map (fun k => Config.JString (fst k))
                                  (Config.default_items env_ok)))
         then Config.JArray (map (fun k => Config.JString (fst k))
                                 (Config.default_items env_ok))
         else Config.default_config env_ok),
     extend world0 [EvExists (Config.config_path env_ok) true])
  /\ True.
Proof.
  apply (load_config_of_non_object
           env_ok
           (fun _ => ret (Config.JArray (map (fun k => Config.JString (fst k))
                                             (Config.default_items env_ok))))
           world0).
  - reflexivity.
  - reflexivity.
  - discriminate.
Defined.

Lemma merge_defaults_complete items :
  forall members w,
    (forall key value, In (key, value) items -> Config.dict_mem key members = true) ->
    Config.merge_defaults items (Config.JObject members) w
    = (Ok (Config.JObject members), w).
Proof.
  induction items as [|[key value] items IH]; intros members w Hall;
    cbn [Config.merge_defaults]; [reflexivity|].
  unfold bind, Config.lift. cbn [Config.contains].
  rewrite (Hall key value) by now left. cbn [negb]. unfold ret at 1.
  apply IH. intros k v Hin. apply (Hall k v). now right.
Qed.

Lemma dict_get_in key value items :
  In (key, value) items -> exists v, Config.dict_get key items = Some v.
Proof.
  induction items as [|[k0 v0] items IH]; intros Hin; [destruct Hin|].
  cbn [Config.dict_get]. destruct (String.eqb k0 key) eqn:Hk; [eauto|].
  destruct Hin as [[= -> ->]|Hin]; [|auto].
  now rewrite String.eqb_refl in Hk.
Qed.

(** X12.  What [load_config] returns is a fixed point: if the file held a
    configuration that [load_config] returned, [load_config] would return
    it unchanged.  So writing the loaded configuration back and loading it
    again changes nothing. *)
Theorem load_config_is_stable :
  forall (E : Env) (w w' : World) (stored loaded : Config.json),
    env_exists E (trace w) (Config.config_path E) = true ->
    env_exists E (trace w') (Config.config_path E) = true ->
    fst (Config.load_config E (fun _ => ret stored) w) = Ok loaded ->
    fst (Config.load_config E (fun _ => ret loaded) w') = Ok loaded.
Proof.
  intros E w w' stored loaded Hw Hw' Hload.
  assert (Hobject : forall members,
             (forall key value, In (key, value) (Config.default_items E) ->
                                Config.dict_mem key members = true) ->
             fst (Config.load_config E (fun _ => ret (Config.JObject members)) w')
             = Ok (Config.JObject members)).
  { intros members Hall. rewrite load_config_run, Hw'. unfold ret at 1.
    now rewrite merge_defaults_complete. }
  assert (Hdefault : fst (Config.load_config
                            E (fun _ => ret (Config.default_config E)) w')
                     = Ok (Config.default_config E)).
  { apply Hobject. intros key value Hin. unfold Config.dict_mem.
    destruct (dict_get_in _ _ _ Hin) as [v ->]. reflexivity. }
  rewrite load_config_run, Hw in Hload. unfold ret at 1 in Hload.
  destruct stored as [|b|n|s|items|members].
  6: { destruct (merge_defaults_object (Config.default_items E) members
                   (extend w [EvExists (Config.config_path E) true]))
         as (added & Hrun & Hget).
       rewrite Hrun in Hload. injection Hload as <-. apply Hobject.
       intros key value Hin. unfold Config.dict_mem. rewrite Hget.
       destruct (Config.dict_get key members); [reflexivity|].
       destruct (dict_get_in _ _ _ Hin) as [v ->]. reflexivity. }
  all: match type of Hload with
       | context [Config.merge_defaults ?items ?c ?w0] =>
           destruct (merge_defaults_not_object items c w0) as (r & Hrun & Hr);
             [discriminate|]; rewrite Hrun in Hload;
             fold (Config.has_all_keys E c) in Hr
       end.
  all: destruct (Config.has_all_keys _ _) eqn:Hkeys;
    [subst r|destruct Hr as [e ->]]; cbn [fst] in Hload; injection Hload as <-;
    try exact Hdefault.
  all: rewrite load_config_run, Hw'; unfold ret at 1.
  all: match goal with
       | |- context [Config.merge_defaults ?items ?c ?w0] =>
           destruct (merge_defaults_not_object items c w0) as (r' & Hrun' & Hr');
             [discriminate|]; rewrite Hrun';
             fold (Config.has_all_keys E c) in Hr'; rewrite Hkeys in Hr'; now subst r'
       end.
Qed.

(** X12, at work. *)
Lemma load_config_is_stable_witness :
  fst (Config.load_config
         env_ok
         (fun _ => ret (Config.JObject
                          ([("auto_install_deps", Config.JBool false);
                            ("theme", Config.JString "dark")]%string
                           ++ [("last_used_dir", Config.JString "/home/user");
                               ("default_output_dir", Config.JString "/home/user");
                               ("auto_detect_files", Config.JBool true)]%string)))
         world0)
  = Ok (Config.JObject
          ([("auto_install_deps", Config.JBool false);
            ("theme", Config.JString "dark")]%string
           ++ [("last_used_dir", Config.JString "/home/user");
               ("default_output_dir", Config.JString "/home/user");
               ("auto_detect_files", Config.JBool true)]%string)).
Proof.
  apply (load_config_is_stable env_ok world0 world0 sample_config).
  - reflexivity.
  - reflexivity.
  - reflexivity.
Defined.

(** ** The dependency check *)

(** Running a dependency check on a host, answer by answer in the order of
    the program, so that only the paths of the program are cases. *)
Ltac deps_unfold :=
  unfold Deps.cli_check_dependencies, Deps.gui_check_dependencies, Deps.status,
         Deps.bind, Deps.try_catching, Deps.check_call, Deps.call, Deps.print,
         Deps.emit, Deps.ret, Deps.sys_exit, Deps.raise, Deps.os_path_exists,
         Deps.import_all, Deps.on_called_process_error, Deps.on_process_error;
  cbv beta iota zeta.

Ltac deps_simpl := cbv beta iota zeta delta [negb fst snd].

Ltac deps_command H cmd :=
  try (match goal with
       | |- context [Deps.run H cmd] =>
           destruct (Deps.run H cmd) as [?status|] eqn:?; deps_simpl;
           [try match goal with
                | |- context [(?z =? 0)%Z] =>
                    is_var z; destruct (Z.eqb_spec z 0); [subst z|]; deps_simpl
                end|]
       end).

Ltac deps_system H s :=
  try (match goal with
       | |- context [String.eqb (lower (Deps.system H)) s] =>
           destruct (String.eqb (lower (Deps.system H)) s) eqn:?; deps_simpl
       end).

Ltac deps_path H p :=
  try (match goal with
       | |- context [Deps.path_exists H p] =>
           destruct (Deps.path_exists H p) eqn:?; deps_simpl
       end).

Ltac deps_import H :=
  try (match goal with
       | |- context [Deps.import_libraries H] =>
           destruct (Deps.import_libraries H) as [?what|] eqn:?; deps_simpl
       end).

Ltac deps_eval := cbv beta iota zeta delta [app Deps.commands Deps.statuses fst snd last].

Ltac in_list := solve [repeat (first [left; reflexivity | right])].

(** The cases of a goal [program H log0 = (r, log) -> _]. *)
Ltac deps_run H :=
  deps_unfold;
  deps_command H (Deps.pip_version H);
  deps_command H (Deps.pip_install H);
  deps_command H Deps.ffmpeg_version;
  deps_system H "linux"%string;
  deps_path H "/usr/bin/apt"%string;
  deps_command H Deps.apt_update;
  deps_command H Deps.apt_install;
  deps_path H "/usr/bin/dnf"%string;
  deps_command H Deps.dnf_install;
  deps_path H "/usr/bin/pacman"%string;
  deps_command H Deps.pacman_install;
  deps_system H "darwin"%string;
  deps_command H Deps.brew_version;
  deps_command H Deps.brew_install;
  deps_system H "windows"%string;
  deps_import H.


Ltac deps_paths H := deps_run H; deps_eval; intros [= <- <-].

Ltac deps_members :=
  repeat match goal with
         | H : In _ (_ :: _) |- _ => destruct H as [H|H]
         | H : In _ [] |- _ => destruct H
         | H : _ \/ _ |- _ => destruct H as [H|H]
         end;
  try discriminate.

Lemma pip_version_not_installer H :
  ~ In (Deps.pip_version H)
       [Deps.ffmpeg_version; Deps.apt_update; Deps.apt_install; Deps.dnf_install;
        Deps.pacman_install; Deps.brew_version; Deps.brew_install].
Proof. intros Hin. repeat (destruct Hin as [Hin|Hin]; [discriminate Hin|]). exact Hin. Qed.

Lemma pip_install_not_installer H :
  ~ In (Deps.pip_install H)
       [Deps.ffmpeg_version; Deps.apt_update; Deps.apt_install; Deps.dnf_install;
        Deps.pacman_install; Deps.brew_version; Deps.brew_install].
Proof. intros Hin. repeat (destruct Hin as [Hin|Hin]; [discriminate Hin|]). exact Hin. Qed.

(** X13.  The two programs run the same external commands in the same
    order on every host, and end alike: where the command-line check
    returns, the desktop check returns a boolean; where the command-line
    check exits (with status 1, pip being unusable), the desktop check
    returns [False]; an executable that cannot be found raises the same
    [FileNotFoundError] in both. *)
Theorem check_dependencies_run_the_same_commands :
  forall (H : Deps.Host) (status_callback : bool),
    Deps.commands (snd (Deps.cli_check_dependencies H []))
    = Deps.commands (snd (Deps.gui_check_dependencies H status_callback []))
    /\ match fst (Deps.cli_check_dependencies H []) with
       | inl _ => exists b, fst (Deps.gui_check_dependencies H status_callback []) = inl b
       | inr (Deps.SystemExit status) =>
           status = 1%Z
           /\ fst (Deps.gui_check_dependencies H status_callback []) = inl false
       | inr e => fst (Deps.gui_check_dependencies H status_callback []) = inr e
       end.
Proof.
  intros H cb.
  destruct (Deps.cli_check_dependencies H []) as [r1 log1] eqn:Hcli.
  destruct (Deps.gui_check_dependencies H cb []) as [r2 log2] eqn:Hgui.
  cbn [fst snd]. revert Hcli Hgui.
  destruct cb; deps_run H; deps_eval; intros [= <- <-]; deps_run H; deps_eval;
    intros [= <- <-]; (split; [reflexivity|]); eauto.
Qed.

(** X14.  An installer is run only when [ffmpeg -version] did not
    succeed and pip answered both its commands with status zero, and only
    the one of the host's system: [apt] on a Linux host that has
    [/usr/bin/apt]; [dnf] on one that has no [apt] but [/usr/bin/dnf];
    [pacman] on one that has neither but [/usr/bin/pacman]; Homebrew on
    macOS, after [brew --version] succeeded. *)
Theorem installers_are_gated :
  forall (H : Deps.Host),
    let cmds := Deps.commands (snd (Deps.cli_check_dependencies H [])) in
    let needed :=
      Deps.run H Deps.ffmpeg_version <> Some 0%Z
      /\ Deps.run H (Deps.pip_version H) = Some 0%Z
      /\ Deps.run H (Deps.pip_install H) = Some 0%Z in
    (In Deps.apt_update cmds \/ In Deps.apt_install cmds ->
     needed /\ lower (Deps.system H) = "linux"%string
     /\ Deps.path_exists H "/usr/bin/apt" = true)
    /\ (In Deps.dnf_install cmds ->
        needed /\ lower (Deps.system H) = "linux"%string
        /\ Deps.path_exists H "/usr/bin/apt" = false
        /\ Deps.path_exists H "/usr/bin/dnf" = true)
    /\ (In Deps.pacman_install cmds ->
        needed /\ lower (Deps.system H) = "linux"%string
        /\ Deps.path_exists H "/usr/bin/apt" = false
        /\ Deps.path_exists H "/usr/bin/dnf" = false
        /\ Deps.path_exists H "/usr/bin/pacman" = true)
    /\ (In Deps.brew_install cmds ->
        needed /\ lower (Deps.system H) = "darwin"%string
        /\ Deps.run H Deps.brew_version = Some 0%Z).
Proof.
  intros H. cbv zeta.
  pose proof (pip_version_not_installer H) as Hpv.
  pose proof (pip_install_not_installer H) as Hpi.
  destruct (Deps.cli_check_dependencies H []) as [r log] eqn:Hcli.
  cbn [snd]. revert Hcli. deps_paths H;
    repeat match goal with
           | Hs : String.eqb _ _ = true |- _ => apply String.eqb_eq in Hs
           end;
    repeat split; intros; deps_members;
    try (exfalso; apply Hpv; match goal with Hc : _ = _ |- _ => rewrite Hc end; in_list);
    try (exfalso; apply Hpi; match goal with Hc : _ = _ |- _ => rewrite Hc end; in_list);
    try assumption; try congruence.
Qed.

(** X15.  The command-line check returns only if pip answered both
    commands with status zero.  It exits only with status 1, when pip
    answered one of them with another status, and then it has run nothing
    but pip.  The only other way out is the [FileNotFoundError] of a command
    whose executable is missing: Python itself, or [sudo] on Linux. *)
Theorem cli_check_dependencies_outcomes :
  forall (H : Deps.Host),
    match Deps.cli_check_dependencies H [] with
    | (inl _, _) =>
        Deps.run H (Deps.pip_version H) = Some 0%Z
        /\ Deps.run H (Deps.pip_install H) = Some 0%Z
    | (inr (Deps.SystemExit status), log) =>
        status = 1%Z
        /\ (exists s, s <> 0%Z
                      /\ (Deps.run H (Deps.pip_version H) = Some s
                          \/ Deps.run H (Deps.pip_install H) = Some s))
        /\ incl (Deps.commands log) [Deps.pip_version H; Deps.pip_install H]
    | (inr (Deps.FileNotFoundError cmd), log) =>
        Deps.run H cmd = None
        /\ In cmd (Deps.commands log)
        /\ In cmd [Deps.pip_version H; Deps.pip_install H; Deps.apt_update;
                   Deps.apt_install; Deps.dnf_install; Deps.pacman_install]
    | (inr _, _) => False
    end.
Proof.
  intros H.
  destruct (Deps.cli_check_dependencies H []) as [r log] eqn:Hcli.
  revert Hcli. deps_paths H;
    repeat split; try assumption; try in_list;
    try (eexists; split; [eassumption|]; eauto);
    try (intros c Hc; deps_members; subst c; in_list).
Qed.

(** X16.  The desktop check returns [True] only after the imports
    succeeded, and it attempts them only if pip answered both commands with
    status zero; it catches [ImportError] and never exits.  With a callback,
    its last message is the line of success exactly when it returns
    [True].  The only exception that escapes is the [FileNotFoundError] of
    a command whose executable is missing. *)
Theorem gui_check_dependencies_outcomes :
  forall (H : Deps.Host) (status_callback : bool),
    match Deps.gui_check_dependencies H status_callback [] with
    | (inl ready, log) =>
        (ready = true <-> In (Deps.Import None) log)
        /\ (ready = true ->
            Deps.run H (Deps.pip_version H) = Some 0%Z
            /\ Deps.run H (Deps.pip_install H) = Some 0%Z
            /\ Deps.import_libraries H = None)
        /\ (status_callback = true ->
            (ready = true
             <-> last (Deps.statuses log) ""%string
                 = "All dependencies installed successfully!"%string))
    | (inr (Deps.FileNotFoundError cmd), log) =>
        Deps.run H cmd = None /\ In cmd (Deps.commands log)
    | (inr _, _) => False
    end.
Proof.
  intros H cb.
  destruct (Deps.gui_check_dependencies H cb []) as [r log] eqn:Hgui.
  revert Hgui. destruct cb; deps_paths H;
    repeat split; intros; try discriminate; try assumption; try reflexivity;
    try in_list; deps_members.
Qed.

Lemma cli_after_installer H cmd s :
  In cmd [Deps.apt_install; Deps.dnf_install; Deps.pacman_install; Deps.brew_install] ->
  Deps.run H cmd = Some s ->
  In cmd (Deps.commands (snd (Deps.cli_check_dependencies H []))) ->
  fst (Deps.cli_check_dependencies H []) = inl tt.
Proof.
  intros Hcmd Hrun.
  pose proof (pip_version_not_installer H) as Hpv.
  pose proof (pip_install_not_installer H) as Hpi.
  destruct (Deps.cli_check_dependencies H []) as [r log] eqn:Hcli.
  cbn [fst snd]. revert Hcli.
  deps_paths H; intros Hin; try reflexivity; exfalso; deps_members;
    try (apply Hpv; match goal with Hc : _ = Deps.pip_version H |- _ => rewrite <- Hc end; in_list);
    try (apply Hpi; match goal with Hc : _ = Deps.pip_install H |- _ => rewrite <- Hc end; in_list);
    subst; try discriminate; try congruence.
Qed.

Lemma gui_after_installer H cb cmd s :
  In cmd [Deps.apt_install; Deps.dnf_install; Deps.pacman_install; Deps.brew_install] ->
  Deps.run H cmd = Some s ->
  In cmd (Deps.commands (snd (Deps.gui_check_dependencies H cb []))) ->
  fst (Deps.gui_check_dependencies H cb [])
  = inl match Deps.import_libraries H with None => true | Some _ => false end.
Proof.
  intros Hcmd Hrun.
  pose proof (pip_version_not_installer H) as Hpv.
  pose proof (pip_install_not_installer H) as Hpi.
  destruct (Deps.gui_check_dependencies H cb []) as [r log] eqn:Hgui.
  cbn [fst snd]. revert Hgui.
  destruct cb; deps_paths H; intros Hin; try reflexivity; exfalso; deps_members;
    try (apply Hpv; match goal with Hc : _ = Deps.pip_version H |- _ => rewrite <- Hc end; in_list);
    try (apply Hpi; match goal with Hc : _ = Deps.pip_install H |- _ => rewrite <- Hc end; in_list);
    subst; try discriminate; try congruence.
Qed.

(** X22.  The exit status of an installer of ffmpeg is not looked at.
    Once [apt install], [dnf install], [pacman -S] or [brew install] has
    run and answered, with whatever status, the command-line check returns
    and the desktop check goes on to the imports and returns [True] if
    they succeed: a failed installation is reported as success. *)
Theorem installer_status_is_ignored :
  forall (H : Deps.Host) (status_callback : bool) (cmd : list string) (s : Z),
    In cmd [Deps.apt_install; Deps.dnf_install; Deps.pacman_install; Deps.brew_install] ->
    Deps.run H cmd = Some s ->
    (In cmd (Deps.commands (snd (Deps.cli_check_dependencies H []))) ->
     fst (Deps.cli_check_dependencies H []) = inl tt)
    /\ (In cmd (Deps.commands (snd (Deps.gui_check_dependencies H status_callback []))) ->
        fst (Deps.gui_check_dependencies H status_callback [])
        = inl match Deps.import_libraries H with None => true | Some _ => false end).
Proof.
  intros H cb cmd s Hcmd Hrun. split.
  - exact (cli_after_installer H cmd s Hcmd Hrun).
  - exact (gui_after_installer H cb cmd s Hcmd Hrun).
Qed.

Lemma installer_status_is_ignored_witness :
  In Deps.apt_install
     [Deps.apt_install; Deps.dnf_install; Deps.pacman_install; Deps.brew_install]
  /\ Deps.run host_apt_fails Deps.apt_install = Some 100%Z
  /\ In Deps.apt_install
        (Deps.commands (snd (Deps.gui_check_dependencies host_apt_fails true [])))
  /\ fst (Deps.gui_check_dependencies host_apt_fails true []) = inl true.
Proof.
  assert (Hcmd : In Deps.apt_install
                    [Deps.apt_install; Deps.dnf_install; Deps.pacman_install;
                     Deps.brew_install]) by (left; reflexivity).
  assert (Hrun : Deps.run host_apt_fails Deps.apt_install = Some 100%Z) by reflexivity.
  assert (Hin : In Deps.apt_install
                   (Deps.commands
                      (snd (Deps.gui_check_dependencies host_apt_fails true []))))
    by (vm_compute; do 4 right; left; reflexivity).
  split; [exact Hcmd|]. split; [exact Hrun|]. split; [exact Hin|].
  exact (proj2 (installer_status_is_ignored host_apt_fails true Deps.apt_install 100
                                            Hcmd Hrun) Hin).
Defined.

(** The installation of ffmpeg fails and the desktop check ends with its
    line of success. *)
Example failed_installation_reported_as_success :
  let check := Deps.gui_check_dependencies host_apt_fails true [] in
  fst check = inl true
  /\ In (Deps.Run Deps.apt_install (Some 100%Z)) (snd check)
  /\ last (Deps.statuses (snd check)) "" = "All dependencies installed successfully!".
Proof. vm_compute. repeat split. do 20 (try (now left); right). Qed.

(** ** The desktop application *)

Lemma skipn_all_app {A} (a b : list A) : skipn (length a) (a ++ b) = b.
Proof. induction a as [|x a IH]; [reflexivity|exact IH]. Qed.

Lemma update_statuses_fields messages :
  forall app,
    App.file_path_var (App.update_statuses messages app) = App.file_path_var app
    /\ App.output_path_var (App.update_statuses messages app) = App.output_path_var app
    /\ App.transcribe_button_disabled (App.update_statuses messages app)
       = App.transcribe_button_disabled app
    /\ App.progress_running (App.update_statuses messages app)
       = App.progress_running app
    /\ App.log_text (App.update_statuses messages app)
       = (App.log_text app ++ log_lines messages)%string.
Proof.
  unfold App.update_statuses.
  induction messages as [|message messages IH]; intros app; cbn [fold_left log_lines].
  - repeat split. now rewrite string_app_nil_r.
  - destruct (IH (App.update_status message app)) as (H1 & H2 & H3 & H4 & H5).
    rewrite H1, H2, H3, H4, H5. cbn [App.update_status App.file_path_var
      App.output_path_var App.transcribe_button_disabled App.progress_running
      App.log_text].
    repeat split. now rewrite !string_app_assoc.
Qed.

(** A click, step by step. *)
Lemma transcribe_clicked_run E e_bound app w :
  let audio_path := App.file_path_var app in
  if truthy audio_path && env_exists E (trace w) audio_path then
    exists r evs,
      Gui.transcribe_audio E true audio_path (passed_output app)
                           (extend w [EvExists audio_path true])
      = (r, extend (extend w [EvExists audio_path true]) evs)
      /\ App.transcribe_clicked E e_bound app w
         = (Ok (App.run_callback
                  e_bound
                  match r with
                  | Ok _ => App.TranscriptionComplete
                  | Raise e => App.TranscriptionError e
                  end
                  (App.update_statuses (App.status_messages evs) (started app))),
            extend w (EvExists audio_path true :: evs))
  else
    exists message,
      App.transcribe_clicked E e_bound app w
      = (Ok (App.update_status message app, None),
         if truthy audio_path then extend w [EvExists audio_path false] else w).
Proof.
  cbv zeta. unfold App.transcribe_clicked, App.start_transcription.
  destruct (truthy (App.file_path_var app)) eqn:Hgiven; cbn [negb andb].
  - unfold bind, path_exists, ask, ret. cbv beta zeta.
    destruct (env_exists E (trace w) (App.file_path_var app)) eqn:Hexists;
      cbv beta iota delta [negb].
    + fold (passed_output app). fold (started app).
      destruct (gui_transcribe_audio_run
                  E true (App.file_path_var app) (passed_output app)
                  (extend w [EvExists (App.file_path_var app) true]))
        as (r & evs & Hrun & _).
      exists r, evs. split; [exact Hrun|].
      unfold App.run_transcription. rewrite Hrun.
      unfold extend. cbn [trace temp_files]. rewrite skipn_all_app.
      now rewrite <- app_assoc.
    + eexists. reflexivity.
  - eexists. reflexivity.
Qed.

(** X17.  A click on the button starts a job only if the audio field is
    not empty and the path exists; otherwise one line is added to the log
    and nothing else changes.  A job that returns gives the controls back:
    the button is enabled and the progress bar stopped.  A job that raises
    gives them back only if the interface thread runs the scheduled closure
    while the worker is still in its handler; once the worker has left it,
    the closure raises [NameError], and the button stays disabled and the
    progress bar running. *)
Theorem transcribe_clicked_controls :
  forall (E : Env) (e_bound : bool) (app : App.Widgets) (w : World),
    exists app' reported w',
      App.transcribe_clicked E e_bound app w = (Ok (app', reported), w')
      /\ App.file_path_var app' = App.file_path_var app
      /\ App.output_path_var app' = App.output_path_var app
      /\ if truthy (App.file_path_var app)
            && env_exists E (trace w) (App.file_path_var app)
         then
           match fst (Gui.transcribe_audio
                        E true (App.file_path_var app) (passed_output app)
                        (extend w [EvExists (App.file_path_var app) true])) with
           | Ok _ =>
               App.transcribe_button_disabled app' = false
               /\ App.progress_running app' = false
               /\ reported = None
           | Raise e =>
               if e_bound then
                 App.transcribe_button_disabled app' = false
                 /\ App.progress_running app' = false
                 /\ reported = None
               else
                 App.transcribe_button_disabled app' = true
                 /\ App.progress_running app' = true
                 /\ reported = Some App.NameError
           end
         else
           App.transcribe_button_disabled app' = App.transcribe_button_disabled app
           /\ App.progress_running app' = App.progress_running app
           /\ reported = None
           /\ (exists message,
                  App.log_text app' = (App.log_text app ++ message ++ nl)%string)
           /\ (forall e, In e (skipn (length (trace w)) (trace w')) ->
                         exists p, e = EvExists p false).
Proof.
  intros E e_bound app w.
  pose proof (transcribe_clicked_run E e_bound app w) as Hrun. cbv zeta in Hrun.
  destruct (truthy (App.file_path_var app)
            && env_exists E (trace w) (App.file_path_var app)) eqn:Hstart.
  - destruct Hrun as (r & evs & Hjob & Hclick). rewrite Hjob. cbn [fst].
    destruct (update_statuses_fields (App.status_messages evs) (started app))
      as (H1 & H2 & H3 & H4 & _).
    destruct r as [p|e]; [|destruct e_bound];
      cbn [App.run_callback] in Hclick;
      do 3 eexists; (split; [exact Hclick|]);
      cbn [App.transcription_complete App.transcription_error App.update_status
           App.file_path_var App.output_path_var App.transcribe_button_disabled
           App.progress_running];
      rewrite ?H1, ?H2, ?H3, ?H4; repeat split.
  - destruct Hrun as (message & Hclick).
    do 3 eexists. split; [exact Hclick|].
    cbn [App.update_status App.file_path_var App.output_path_var
         App.transcribe_button_disabled App.progress_running App.log_text].
    repeat split; [now exists message|].
    destruct (truthy (App.file_path_var app)).
    + unfold extend. cbn [trace]. rewrite skipn_all_app.
      intros e [<-|[]]. eauto.
    + rewrite skipn_all. intros e [].
Qed.

(** X18.  After a click that started a job, the log pane holds, from its
    first line on, the status messages of the run in their order, and then:
    [Transcription complete!] if the job returned; the error with
    [str(e)], [Technical details:] and [NoneType: None] if the job raised
    and the closure found [e]; nothing more if it did not.  What the pane
    held before the click is gone. *)
Theorem transcribe_clicked_log :
  forall (E : Env) (e_bound : bool) (app : App.Widgets) (w : World),
    truthy (App.file_path_var app) = true ->
    env_exists E (trace w) (App.file_path_var app) = true ->
    exists r evs app' reported,
      Gui.transcribe_audio E true (App.file_path_var app) (passed_output app)
                           (extend w [EvExists (App.file_path_var app) true])
      = (r, extend (extend w [EvExists (App.file_path_var app) true]) evs)
      /\ App.transcribe_clicked E e_bound app w
         = (Ok (app', reported),
            extend w (EvExists (App.file_path_var app) true :: evs))
      /\ App.log_text app'
         = (log_lines (App.status_messages evs)
            ++ match r with
               | Ok _ => log_lines ["Transcription complete!"]
               | Raise e =>
                   if e_bound then
                     log_lines [("Error during transcription: " ++ str e);
                                "Technical details:";
                                ("NoneType: None" ++ nl)]
                   else ""
               end)%string.
Proof.
  intros E e_bound app w Hgiven Hexists.
  pose proof (transcribe_clicked_run E e_bound app w) as Hrun. cbv zeta in Hrun.
  rewrite Hgiven, Hexists in Hrun. cbn [andb] in Hrun.
  destruct Hrun as (r & evs & Hjob & Hclick).
  destruct (update_statuses_fields (App.status_messages evs) (started app))
    as (_ & _ & _ & _ & Hlog).
  cbn [started App.log_text append] in Hlog.
  exists r, evs.
  destruct r as [p|e]; [|destruct e_bound];
    cbn [App.run_callback] in Hclick;
    do 2 eexists; (split; [exact Hjob|]); (split; [exact Hclick|]);
    cbn [App.transcription_complete App.transcription_error App.update_status
         App.log_text log_lines];
    rewrite ?Hlog, ?string_app_nil_r, ?string_app_assoc; reflexivity.
Qed.

(** X18, at work: a recording that exists, in an environment in which
    everything works. *)
Lemma transcribe_clicked_log_witness :
  exists r evs app' reported,
    Gui.transcribe_audio env_ok true "talk.wav" None
                         (extend world0 [EvExists "talk.wav" true])
    = (r, extend (extend world0 [EvExists "talk.wav" true]) evs)
    /\ App.transcribe_clicked env_ok false
                              {| App.file_path_var := "talk.wav";
                                 App.output_path_var := "";
                                 App.transcribe_button_disabled := false;
                                 App.progress_running := false;
                                 App.log_text := "" |} world0
       = (Ok (app', reported), extend world0 (EvExists "talk.wav" true :: evs))
    /\ App.log_text app'
       = (log_lines (App.status_messages evs)
          ++ match r with
             | Ok _ => log_lines ["Transcription complete!"]
             | Raise e =>
                 if false then
                   log_lines [("Error during transcription: " ++ str e);
                              "Technical details:";
                              ("NoneType: None" ++ nl)]
                 else ""
             end)%string.
Proof.
  apply (transcribe_clicked_log
           env_ok false
           {| App.file_path_var := "talk.wav";
              App.output_path_var := "";
              App.transcribe_button_disabled := false;
              App.progress_running := false;
              App.log_text := "" |} world0).
  - reflexivity.
  - reflexivity.
Defined.

Lemma truthy_app_right a b : truthy b = true -> truthy (a ++ b) = true.
Proof. destruct a; [now cbn|reflexivity]. Qed.

Lemma truthy_path_join a b : truthy b = true -> truthy (path_join a b) = true.
Proof.
  intros Hb. unfold path_join. destruct (startswith b "/"); [exact Hb|].
  destruct (String.eqb a "" || endswith a "/").
  - now apply truthy_app_right.
  - apply truthy_app_right. reflexivity.
Qed.

Lemma truthy_default_output f : truthy (default_output f) = true.
Proof. unfold default_output. now apply truthy_app_right. Qed.

Lemma gui_mutation_writes f out evs :
  Forall (gui_mutation f out) evs ->
  forall p c r, In (EvWriteFile p c r) evs -> p = requested_output out f.
Proof.
  intros Hall p c r Hin. apply (proj1 (Forall_forall _ _) Hall) in Hin.
  inversion Hin as [e Hq| | | |text r1|]; subst; [discriminate Hq|reflexivity].
Qed.

(** Where a click writes the transcript, whatever the fields hold. *)
Lemma transcribe_clicked_writes E e_bound app w :
  exists app' reported evs,
    App.transcribe_clicked E e_bound app w = (Ok (app', reported), extend w evs)
    /\ forall p c r,
         In (EvWriteFile p c r) evs ->
         p = requested_output (passed_output app) (App.file_path_var app).
Proof.
  pose proof (transcribe_clicked_run E e_bound app w) as Hrun. cbv zeta in Hrun.
  destruct (truthy (App.file_path_var app)
            && env_exists E (trace w) (App.file_path_var app)).
  - destruct Hrun as (r & evs & Hjob & Hclick).
    destruct (gui_job_footprint E true (App.file_path_var app) (passed_output app)
                                (extend w [EvExists (App.file_path_var app) true]))
      as (r' & evs' & Hjob' & Hall).
    rewrite Hjob in Hjob'. injection Hjob' as <- Hevs.
    apply app_inv_head in Hevs.
    subst evs'.
    destruct (App.run_callback _ _ _) as [app' reported].
    do 3 eexists. split; [exact Hclick|].
    intros p c r0 [Hin|Hin]; [discriminate Hin|].
    exact (gui_mutation_writes _ _ _ Hall p c r0 Hin).
  - destruct Hrun as (message & Hclick).
    destruct (truthy (App.file_path_var app)).
    + do 3 eexists. split; [exact Hclick|]. intros p c r [Hin|[]]. discriminate Hin.
    + exists (App.update_status message app), None, [].
      rewrite extend_nil. split; [exact Hclick|]. intros p c r [].
Qed.

(** X19.  After the file dialog of "Browse" answered [filename], a click
    writes the transcript beside the audio file and nowhere else: to
    [<name>_transcription.txt] in the directory of [filename].  When the path
    is typed into the field instead and the output field is left empty, the
    transcript goes to [<name>_transcription.txt] in the working
    directory. *)
Theorem transcript_goes_beside_a_browsed_file :
  forall (E : Env) (e_bound : bool) (app : App.Widgets) (filename : path) (w : World),
    truthy filename = true ->
    (exists app' reported evs,
        App.transcribe_clicked E e_bound (App.browse_file filename app) w
        = (Ok (app', reported), extend w evs)
        /\ forall p c r,
             In (EvWriteFile p c r) evs ->
             p = path_join (dirname filename) (default_output filename))
    /\ (exists app' reported evs,
           App.transcribe_clicked
             E e_bound
             {| App.file_path_var := filename;
                App.output_path_var := "";
                App.transcribe_button_disabled := App.transcribe_button_disabled app;
                App.progress_running := App.progress_running app;
                App.log_text := App.log_text app |} w
           = (Ok (app', reported), extend w evs)
           /\ forall p c r,
                In (EvWriteFile p c r) evs -> p = default_output filename).
Proof.
  intros E e_bound app f w Hf. split.
  - destruct (transcribe_clicked_writes E e_bound (App.browse_file f app) w)
      as (app' & reported & evs & Hclick & Hwrites).
    exists app', reported, evs. split; [exact Hclick|].
    intros p c r Hin. rewrite (Hwrites p c r Hin).
    unfold App.browse_file. rewrite Hf. unfold passed_output.
    cbn [App.output_path_var App.file_path_var]. fold (default_output f).
    rewrite truthy_path_join by apply truthy_default_output.
    apply requested_output_given. apply truthy_path_join, truthy_default_output.
  - match goal with
    | |- context [App.transcribe_clicked E e_bound ?a w] =>
        destruct (transcribe_clicked_writes E e_bound a w)
          as (app' & reported & evs & Hclick & Hwrites)
    end.
    exists app', reported, evs. split; [exact Hclick|].
    intros p c r Hin. rewrite (Hwrites p c r Hin). reflexivity.
Qed.

(** X19, at work. *)
Lemma transcript_goes_beside_a_browsed_file_witness :
  exists app' reported evs,
    App.transcribe_clicked env_ok false
                           (App.browse_file "/home/user/talks/talk.mp3" App.initial)
                           world0
    = (Ok (app', reported), extend world0 evs)
    /\ forall p c r,
         In (EvWriteFile p c r) evs ->
         p = path_join (dirname "/home/user/talks/talk.mp3")
                       (default_output "/home/user/talks/talk.mp3").
Proof.
  apply (transcript_goes_beside_a_browsed_file
           env_ok false App.initial "/home/user/talks/talk.mp3" world0).
  reflexivity.
Defined.

(** X20.  [init_dependencies] enables the button only if
    [check_dependencies] returned [True], hence only if pip answered both
    its commands with status zero and the imports succeeded; the log then
    ends with [Ready to transcribe audio.].  When [check_dependencies]
    raises, which it does for a command whose executable is missing, the
    thread ends with that exception: the button is left as it was and no
    closing line is written. *)
Theorem init_dependencies_outcomes :
  forall (H : Deps.Host) (app : App.Widgets),
    let '(app', died) := App.init_dependencies H app in
    (App.transcribe_button_disabled app' = false ->
     App.transcribe_button_disabled app = false
     \/ (died = None
         /\ Deps.run H (Deps.pip_version H) = Some 0%Z
         /\ Deps.run H (Deps.pip_install H) = Some 0%Z
         /\ Deps.import_libraries H = None
         /\ exists before,
              App.log_text app' = (before ++ "Ready to transcribe audio." ++ nl)%string))
    /\ (forall e,
           died = Some e ->
           (exists cmd, e = Deps.FileNotFoundError cmd /\ Deps.run H cmd = None)
           /\ App.transcribe_button_disabled app' = App.transcribe_button_disabled app
           /\ exists log,
                snd (Deps.gui_check_dependencies H true []) = log
                /\ App.log_text app'
                   = (App.log_text app
                      ++ log_lines ("Checking dependencies..." :: Deps.statuses log))%string).
Proof.
  intros H app. unfold App.init_dependencies.
  destruct (Deps.gui_check_dependencies H true []) as [r log] eqn:Hgui.
  destruct (update_statuses_fields
              (Deps.statuses log) (App.update_status "Checking dependencies..." app))
    as (_ & _ & Hbutton & _ & Hlog).
  cbn [App.update_status App.transcribe_button_disabled App.log_text] in Hbutton, Hlog.
  destruct r as [[|]|e];
    cbn [App.enable_controls App.update_status App.transcribe_button_disabled
         App.log_text snd].
  - split; [|discriminate]. intros _. right. split; [reflexivity|].
    revert Hgui. clear Hbutton Hlog.
    deps_run H; deps_eval; intros [= <-]; try discriminate;
      repeat split; try assumption; eexists; reflexivity.
  - split; [|discriminate]. rewrite Hbutton. now left.
  - split; [rewrite Hbutton; now left|]. intros e' [= <-]. split.
    + revert Hgui. clear Hbutton Hlog.
      deps_run H; deps_eval; intros [= <-]; try discriminate; eauto.
    + split; [exact Hbutton|]. exists log. split; [reflexivity|].
      rewrite Hlog. cbn [log_lines]. now rewrite !string_app_assoc.
Qed.

(** ** Sample runs of the desktop application *)

(** On a Linux host without ffmpeg and without [sudo], the check raises
    at [sudo apt update]; the thread of [init_dependencies] dies and the
    button stays disabled. *)
Example init_dependencies_without_sudo :
  fst (Deps.gui_check_dependencies host_without_sudo true [])
  = inr (Deps.FileNotFoundError Deps.apt_update)
  /\ App.transcribe_button_disabled
       (fst (App.init_dependencies host_without_sudo App.initial)) = true
  /\ App.transcribe_button_disabled
       (fst (App.init_dependencies host_ready App.initial)) = false.
Proof. repeat split; vm_compute; reflexivity. Qed.

(** A file pydub cannot decode, on the usual schedule: the job raises, the
    closure finds no [e], and the window stays locked with the progress bar
    running. *)
Example failed_job_locks_the_window :
  let click :=
    App.transcribe_clicked env_undecodable false
                           (App.browse_file "talk.mp3" (App.enable_controls App.initial))
                           world0 in
  match fst click with
  | Ok (app, reported) =>
      App.transcribe_button_disabled app = true
      /\ App.progress_running app = true
      /\ reported = Some App.NameError
      /\ App.log_text app = log_lines ["Converting talk.mp3 to WAV format..."]
  | Raise _ => False
  end.
Proof. vm_compute. repeat split. Qed.
